(** * Conversion.ai backend: contact classification, company research and
      e-mail delivery

    A shallow embedding of the TypeScript services

      - [lib/emailUtils.ts]          (domain classifier),
      - [lib/clearbit.ts]            (enrichment client),
      - [services/research.service]  (research orchestrator),
      - [services/contacts.service]  (contact creation),
      - [lib/sendgrid.ts], [services/email.service.ts] (delivery),

    together with the properties stated about them.

    Strings are sequences of code units below 256 (Rocq's [string]); JavaScript
    numbers used as indices, counters and hashes are [Z]. *)

From Stdlib Require Import ZArith Ascii String List Lia Bool.
From stdpp Require Import base option list gmap strings.

Local Open Scope string_scope.
Local Open Scope list_scope.
Local Open Scope Z_scope.

(** ** JavaScript string primitives *)

Module JsString.

Definition code (c : ascii) : Z := Z.of_N (N_of_ascii c).

Definition inRange (lo hi c : ascii) : bool :=
  (code lo <=? code c) && (code c <=? code hi).

Definition isLower (c : ascii) : bool := inRange "a" "z" c.
Definition isUpper (c : ascii) : bool := inRange "A" "Z" c.
Definition isDigit (c : ascii) : bool := inRange "0" "9" c.

Definition shiftCode (d : Z) (c : ascii) : ascii :=
  ascii_of_N (Z.to_N (code c + d)).

(** [String.prototype.toLowerCase] on one code unit: the ASCII capitals, and
    the Latin-1 capitals U+00C0..U+00DE apart from the multiplication sign
    U+00D7, move up by 32. *)
Definition lowerChar (c : ascii) : ascii :=
  if isUpper c then shiftCode 32 c
  else if (192 <=? code c) && (code c <=? 222) && negb (code c =? 215)
       then shiftCode 32 c
       else c.

(** [String.prototype.toUpperCase] on one code unit: the ASCII small letters,
    and the Latin-1 small letters U+00E0..U+00FE apart from the division
    sign U+00F7, move down by 32; the sharp s U+00DF becomes [SS]. The
    capitals of the micro sign U+00B5 and of U+00FF (U+039C and U+0178) are
    not code units below 256 and cannot be written in the strings modelled
    here: these two code units are left as they are. *)
Definition upperChar (c : ascii) : string :=
  if isLower c then String (shiftCode (-32) c) EmptyString
  else if (224 <=? code c) && (code c <=? 254) && negb (code c =? 247)
       then String (shiftCode (-32) c) EmptyString
       else if code c =? 223 then "SS"
            else String c EmptyString.

Fixpoint toLowerCase (s : string) : string :=
  match s with
  | EmptyString => EmptyString
  | String c s' => String (lowerChar c) (toLowerCase s')
  end.

Fixpoint toUpperCase (s : string) : string :=
  match s with
  | EmptyString => EmptyString
  | String c s' => upperChar c +:+ toUpperCase s'
  end.

(** White space and line terminators removed by [trim], among the code
    units below 256: TAB, LF, VT, FF, CR, SPACE and NBSP. *)
Definition isWhiteSpace (c : ascii) : bool :=
  ((9 <=? code c) && (code c <=? 13)) || (code c =? 32) || (code c =? 160).

Fixpoint trimStart (s : string) : string :=
  match s with
  | EmptyString => EmptyString
  | String c s' => if isWhiteSpace c then trimStart s' else s
  end.

Fixpoint trimEnd (s : string) : string :=
  match s with
  | EmptyString => EmptyString
  | String c s' =>
      match trimEnd s' with
      | EmptyString => if isWhiteSpace c then EmptyString else String c EmptyString
      | t => String c t
      end
  end.

Definition trim (s : string) : string := trimStart (trimEnd s).

Definition length (s : string) : Z := Z.of_nat (String.length s).

Fixpoint drop (n : nat) (s : string) : string :=
  match n, s with
  | O, _ => s
  | S n', String _ s' => drop n' s'
  | S _, EmptyString => EmptyString
  end.

Fixpoint take (n : nat) (s : string) : string :=
  match n, s with
  | S n', String c s' => String c (take n' s')
  | _, _ => EmptyString
  end.

(** [s.substring(start)]: a negative start counts as 0. *)
Definition substring (s : string) (start : Z) : string := drop (Z.to_nat start) s.

(** [s.substring(start, end)] for [start <= end]. *)
Definition substring2 (s : string) (start stop : Z) : string :=
  take (Z.to_nat stop - Z.to_nat start) (drop (Z.to_nat start) s).

(** [s.slice(start)] for a non-negative start. *)
Definition slice (s : string) (start : Z) : string := drop (Z.to_nat start) s.

Fixpoint lastIndexOf_from (s : string) (c : ascii) (i : Z) (found : Z) : Z :=
  match s with
  | EmptyString => found
  | String a s' =>
      lastIndexOf_from s' c (i + 1) (if Ascii.eqb a c then i else found)
  end.

(** [s.lastIndexOf(c)] for a one-character search string; [-1] when absent. *)
Definition lastIndexOf (s : string) (c : ascii) : Z := lastIndexOf_from s c 0 (-1).

Fixpoint startsWith (s p : string) : bool :=
  match p, s with
  | EmptyString, _ => true
  | String a p', String b s' => Ascii.eqb a b && startsWith s' p'
  | String _ _, EmptyString => false
  end.

Fixpoint includes (s sub : string) : bool :=
  startsWith s sub ||
  match s with
  | EmptyString => false
  | String _ s' => includes s' sub
  end.

Definition endsWith (s suf : string) : bool :=
  (String.length suf <=? String.length s)%nat &&
  String.eqb (drop (String.length s - String.length suf) s) suf.

(** [s.split(sep)] for a separator given as a predicate on code units (a
    one-character string or a one-character class). *)
Fixpoint split (sep : ascii -> bool) (s : string) : list string :=
  match s with
  | EmptyString => [EmptyString]
  | String c s' =>
      if sep c then EmptyString :: split sep s'
      else match split sep s' with
           | w :: ws => String c w :: ws
           | [] => [String c EmptyString]
           end
  end.

Fixpoint join (sep : string) (l : list string) : string :=
  match l with
  | [] => EmptyString
  | [w] => w
  | w :: ws => w +:+ sep +:+ join sep ws
  end.

Definition charAt0 (s : string) : string :=
  match s with
  | EmptyString => EmptyString
  | String c _ => String c EmptyString
  end.

(** Decimal rendering of a number inside a template literal. *)
Fixpoint digits (fuel : nat) (n : N) (acc : string) : string :=
  match fuel with
  | O => acc
  | S fuel' =>
      let d := ascii_of_N (48 + n mod 10)%N in
      if (n <? 10)%N then String d acc
      else digits fuel' (n / 10)%N (String d acc)
  end.

Definition ofZ (z : Z) : string :=
  if z <? 0 then "-" +:+ digits 64 (Z.to_N (- z)) "" else digits 64 (Z.to_N z) "".

End JsString.

(** ** Regular expressions

    The source tests strings against anchored regular-expression literals.
    They are written here as terms of [regex], matched by derivatives. *)

Module Regex.

Inductive regex : Type :=
| Void                                  (* matches nothing *)
| Eps                                   (* the empty string *)
| Class (p : ascii -> bool)             (* one code unit of a class *)
| Cat (r1 r2 : regex)
| Alt (r1 r2 : regex)
| Star (r : regex).

Definition Opt (r : regex) : regex := Alt Eps r.
Definition Plus (r : regex) : regex := Cat r (Star r).

(** [r{0,n}] *)
Fixpoint UpTo (n : nat) (r : regex) : regex :=
  match n with
  | O => Eps
  | S n' => Opt (Cat r (UpTo n' r))
  end.

(** [r{n,}] *)
Fixpoint AtLeast (n : nat) (r : regex) : regex :=
  match n with
  | O => Star r
  | S n' => Cat r (AtLeast n' r)
  end.

Fixpoint nullable (r : regex) : bool :=
  match r with
  | Void => false
  | Eps => true
  | Class _ => false
  | Cat r1 r2 => nullable r1 && nullable r2
  | Alt r1 r2 => nullable r1 || nullable r2
  | Star _ => true
  end.

Fixpoint deriv (c : ascii) (r : regex) : regex :=
  match r with
  | Void => Void
  | Eps => Void
  | Class p => if p c then Eps else Void
  | Cat r1 r2 =>
      if nullable r1 then Alt (Cat (deriv c r1) r2) (deriv c r2)
      else Cat (deriv c r1) r2
  | Alt r1 r2 => Alt (deriv c r1) (deriv c r2)
  | Star r1 => Cat (deriv c r1) (Star r1)
  end.

(** [/^r$/.test(s)] *)
Fixpoint test (r : regex) (s : string) : bool :=
  match s with
  | EmptyString => nullable r
  | String c s' => test (deriv c r) s'
  end.

(** The declarative reading of a regular expression. *)
Inductive Matches : regex -> string -> Prop :=
| MEps : Matches Eps EmptyString
| MClass p c : p c = true -> Matches (Class p) (String c EmptyString)
| MCat r1 r2 s1 s2 : Matches r1 s1 -> Matches r2 s2 -> Matches (Cat r1 r2) (s1 +:+ s2)
| MAltL r1 r2 s : Matches r1 s -> Matches (Alt r1 r2) s
| MAltR r1 r2 s : Matches r2 s -> Matches (Alt r1 r2) s
| MStar0 r : Matches (Star r) EmptyString
| MStarS r s1 s2 : Matches r s1 -> Matches (Star r) s2 -> Matches (Star r) (s1 +:+ s2).

End Regex.


(** ** lib/emailUtils.ts *)

Module EmailUtils.
Import JsString Regex.

(** Common personal email providers. *)
Definition PERSONAL_EMAIL_DOMAINS : gset string :=
  list_to_set [
    (* Google *)
    "gmail.com"; "googlemail.com";
    (* Microsoft *)
    "outlook.com"; "hotmail.com"; "live.com"; "msn.com"; "passport.com";
    (* Yahoo *)
    "yahoo.com"; "yahoo.co.uk"; "yahoo.ca"; "yahoo.com.au"; "yahoo.co.in";
    "yahoo.fr"; "yahoo.de"; "yahoo.es"; "yahoo.it"; "yahoo.co.jp";
    "ymail.com"; "rocketmail.com";
    (* Apple *)
    "icloud.com"; "me.com"; "mac.com";
    (* AOL *)
    "aol.com"; "aim.com";
    (* ProtonMail *)
    "protonmail.com"; "proton.me"; "pm.me";
    (* Other popular providers *)
    "zoho.com"; "mail.com"; "gmx.com"; "gmx.net"; "gmx.de"; "web.de";
    "inbox.com"; "fastmail.com"; "fastmail.fm"; "tutanota.com"; "tutanota.de";
    "yandex.com"; "yandex.ru"; "mail.ru"; "rambler.ru";
    (* ISP-provided *)
    "comcast.net"; "verizon.net"; "att.net"; "sbcglobal.net"; "bellsouth.net";
    "cox.net"; "charter.net"; "earthlink.net"; "juno.com"; "netzero.net";
    "btinternet.com"; "sky.com"; "virginmedia.com"; "ntlworld.com";
    "talktalk.net"; "orange.fr"; "wanadoo.fr"; "free.fr"; "t-online.de";
    "arcor.de";
    (* Temporary/disposable email services *)
    "tempmail.com"; "guerrillamail.com"; "mailinator.com"; "10minutemail.com";
    "throwaway.email"; "sharklasers.com"; "trashmail.com"
  ].

(** [PERSONAL_EMAIL_DOMAINS.has(d)] *)
Definition has (s : gset string) (d : string) : bool := bool_decide (d ∈ s).

(** [[a-z0-9]] and [[a-z0-9-]] *)
Definition lowerAlnum (c : ascii) : bool := isLower c || isDigit c.
Definition lowerAlnumDash (c : ascii) : bool := lowerAlnum c || Ascii.eqb c "-".
Definition isDot (c : ascii) : bool := Ascii.eqb c ".".

(** [[a-z0-9]([a-z0-9-]*[a-z0-9])?] *)
Definition lowerLabel : regex :=
  Cat (Class lowerAlnum) (Opt (Cat (Star (Class lowerAlnumDash)) (Class lowerAlnum))).

(** [/^[a-z0-9]([a-z0-9-]*[a-z0-9])?(\.[a-z0-9]([a-z0-9-]*[a-z0-9])?)+$/] *)
Definition domainRegex : regex :=
  Cat lowerLabel (Plus (Cat (Class isDot) lowerLabel)).

(** Extract the domain from an email address: the domain portion of the
    address, or [None] ([null]) if invalid. *)
Definition extractDomain (email : string) : option string :=
  if String.eqb email "" then None
  else
    let trimmed := toLowerCase (trim email) in
    (* Basic email format validation *)
    let atIndex := lastIndexOf trimmed "@" in
    if (atIndex =? -1) || (atIndex =? 0) || (atIndex =? JsString.length trimmed - 1)
    then None
    else
      let domain := substring trimmed (atIndex + 1) in
      (* Basic domain validation - must have at least one dot *)
      if negb (includes domain ".") then None
      (* Check for valid domain characters *)
      else if negb (test domainRegex domain) then None
      else Some domain.

(** Check if an email address is from a business domain: [true] if business
    email, [false] if personal or invalid. *)
Definition isBusinessEmail (email : string) : bool :=
  match extractDomain email with
  | None => false
  | Some "" => false
  | Some domain =>
      (* Check against known personal domains *)
      if has PERSONAL_EMAIL_DOMAINS domain then false
      (* .edu domains *)
      else if endsWith domain ".edu" || endsWith domain ".edu.au" || endsWith domain ".ac.uk"
      then false
      (* government domains *)
      else if endsWith domain ".gov" || endsWith domain ".gov.uk" || endsWith domain ".gov.au"
      then false
      else true
  end.

(** [[a-zA-Z0-9]] and [[a-zA-Z0-9-]] *)
Definition alnum (c : ascii) : bool := isLower c || isUpper c || isDigit c.
Definition alnumDash (c : ascii) : bool := alnum c || Ascii.eqb c "-".

(** The class [[a-zA-Z0-9.!#$%&'*+/=?^_`{|}~-]] of the local part. *)
Definition localChar (c : ascii) : bool :=
  alnum c || includes ".!#$%&'*+/=?^_`{|}~-" (String c EmptyString).

(** [[a-zA-Z0-9](?:[a-zA-Z0-9-]{0,61}[a-zA-Z0-9])?] *)
Definition hostLabel : regex :=
  Cat (Class alnum) (Opt (Cat (UpTo 61 (Class alnumDash)) (Class alnum))).

(** The simplified RFC 5322 expression of [isValidEmail]:
    local part, [@], a label, then one or more [.label]. *)
Definition emailRegex : regex :=
  Cat (Plus (Class localChar))
      (Cat (Class (fun c => Ascii.eqb c "@"))
           (Cat hostLabel (Plus (Cat (Class isDot) hostLabel)))).

Definition isValidEmail (email : string) : bool :=
  if String.eqb email "" then false
  else test emailRegex (trim email).

(** A normalized version of the email (lowercase, trimmed), or [None] if
    invalid. *)
Definition normalizeEmail (email : string) : option string :=
  if negb (isValidEmail email) then None
  else Some (toLowerCase (trim email)).

End EmailUtils.


(** ** Data model (prisma/schema) *)

Module ResearchStatus.
Inductive t : Set := pending | processing | complete | failed | na.
End ResearchStatus.

Module EmailStatus.
Inductive t : Set :=
  draft | queued | sent | delivered | opened | clicked | bounced | failed.

#[global] Instance eq_dec : EqDecision t.
Proof. solve_decision. Defined.

(** The closed enum, in the order of its declaration. *)
Definition all : list t :=
  [draft; queued; sent; delivered; opened; clicked; bounced; failed].

(** The value as the string the JavaScript side sees. *)
Definition name (s : t) : string :=
  match s with
  | draft => "draft" | queued => "queued" | sent => "sent"
  | delivered => "delivered" | opened => "opened" | clicked => "clicked"
  | bounced => "bounced" | failed => "failed"
  end.
End EmailStatus.

Module Contact.
Record t : Type := mk {
  id : string;
  userId : string;
  email : string;
  firstName : option string;
  lastName : option string;
  title : option string;
  company : option string;
  phone : option string;
  notes : option string;
  companyDomain : option string;
  researchStatus : ResearchStatus.t
}.

(** The [data] argument of [prisma.contact.create]: every column but the
    generated [id]. *)
Definition create (id : string) (data : t) : t :=
  mk id (userId data) (email data) (firstName data) (lastName data) (title data)
     (company data) (phone data) (notes data) (companyDomain data)
     (researchStatus data).

Definition with_researchStatus (st : ResearchStatus.t) (c : t) : t :=
  mk (id c) (userId c) (email c) (firstName c) (lastName c) (title c)
     (company c) (phone c) (notes c) (companyDomain c) st.
End Contact.

(** The fields of the Clearbit reply that [transformClearbitResponse] reads. *)
Module Clearbit.
Record category : Type := mkCategory {
  sector : option string;
  industryGroup : option string;
  industry : option string;
  subIndustry : option string
}.
Record geo : Type := mkGeo {
  city : option string;
  state : option string;
  country : option string
}.
Record response : Type := mkResponse {
  name : option string;
  legalName : option string;
  domain : string;
  category_ : option category;
  description : option string;
  location : option string;
  geo_ : option geo;
  employeesRange : option (option string);   (* metrics?.employeesRange *)
  linkedinHandle : option (option string);   (* linkedin?.handle *)
  twitterHandle : option (option string);    (* twitter?.handle *)
  tech : option (list string)
}.
End Clearbit.

(** The opaque [rawData] blob. *)
Inductive RawData : Type :=
| RawMock (domain : string)                 (* { _mock: true, _domain } *)
| RawClearbit (data : Clearbit.response).

Module CompanyData.
Record t : Type := mk {
  domain : string;
  companyName : option string;
  industry : option string;
  description : option string;
  employeeCount : option string;
  location : option string;
  website : option string;
  linkedinUrl : option string;
  twitterUrl : option string;
  technologies : list string;
  rawData : option RawData
}.
End CompanyData.

Module CompanyResearch.
Record t : Type := mk {
  data : CompanyData.t;      (* domain (primary key) and the enrichment columns *)
  createdAt : Z;
  updatedAt : Z
}.
Definition domain (r : t) : string := CompanyData.domain (data r).
End CompanyResearch.

Module Email.
Record t : Type := mk {
  id : string;
  userId : string;
  contactId : string;
  subject : string;
  bodyText : string;
  bodyHtml : option string;
  status : EmailStatus.t;
  sendgridMessageId : option string;
  sentAt : option Z
}.

(** The [data] argument of [prisma.email.update]: the columns to overwrite. *)
Record patch : Type := mkPatch {
  set_status : option EmailStatus.t;
  set_sentAt : option Z;
  set_sendgridMessageId : option (option string)
}.

Definition apply (p : patch) (e : t) : t :=
  mk (id e) (userId e) (contactId e) (subject e) (bodyText e) (bodyHtml e)
     (default (status e) (set_status p))
     (default (sendgridMessageId e) (set_sendgridMessageId p))
     (match set_sentAt p with Some d => Some d | None => sentAt e end).
End Email.

(** ** Effects

    An [async] function is a program over the operations below: the calls it
    awaits on the database client, the HTTP client, the mail client and the
    runtime. A failed operation hands an exception to the continuation, so
    that [try]/[catch] is a function on programs. *)

Inductive exn : Type :=
| Error (message : string)
| AxiosError (status : option Z) (message : string)
  (* an error of the mail client: [response.body.errors[0].message], if any *)
| ResponseError (message : string) (bodyError : option string).

(** [error.message] *)
Definition exn_message (e : exn) : string :=
  match e with
  | Error m => m
  | AxiosError _ m => m
  | ResponseError m _ => m
  end.

(** A detached promise: work started by a request and left to finish on its
    own. *)
Inductive Task : Type :=
| AutoResearch (contactId domain normalizedEmail : string).

Inductive Level : Set := LOG | WARN | ERROR.

Module SgMail.
Record msg : Type := mkMsg {
  to : string;
  toName : option string;
  from_email : string;
  from_name : string;
  subject : string;
  text : string;
  html : string
}.
End SgMail.

Inductive Op : Type -> Type :=
(* prisma.contact *)
| contact_findUnique (userId email : string) : Op (option Contact.t)
| contact_create (data : Contact.t) : Op Contact.t
| contact_update (id : string) (researchStatus : ResearchStatus.t) : Op Contact.t
(* prisma.companyResearch *)
| companyResearch_findUnique (domain : string) : Op (option CompanyResearch.t)
| companyResearch_upsert (data : CompanyData.t) : Op CompanyResearch.t
(* prisma.email *)
| email_findFirst (id userId : string) : Op (option (Email.t * Contact.t))
| email_update (id : string) (data : Email.patch) : Op Email.t
| email_groupBy_status (userId : string) : Op (list (EmailStatus.t * Z))
(* axios.get on the Clearbit endpoint, 10 s timeout *)
| axios_get (domain : string) (apiKey : option string) : Op Clearbit.response
(* sgMail.send; the reply is the x-message-id header, if any *)
| sgMail_send (m : SgMail.msg) : Op (option string)
(* runtime *)
| Date_now : Op Z
| Math_random : Op string
| console (l : Level) (line : string) : Op unit
| setTimeout (ms : Z) : Op unit
| detach (t : Task) : Op unit.

Inductive Prog (A : Type) : Type :=
| Ret (a : A)
| Throw (e : exn)
| Vis {R : Type} (o : Op R) (k : exn + R -> Prog A).

Arguments Ret {A} a.
Arguments Throw {A} e.
Arguments Vis {A R} o k.

Fixpoint bind {A B : Type} (p : Prog A) (f : A -> Prog B) : Prog B :=
  match p with
  | Ret a => f a
  | Throw e => Throw e
  | Vis o k => Vis o (fun r => bind (k r) f)
  end.

(** [try { p } catch (e) { h e }] *)
Fixpoint try_catch {A : Type} (p : Prog A) (h : exn -> Prog A) : Prog A :=
  match p with
  | Ret a => Ret a
  | Throw e => h e
  | Vis o k => Vis o (fun r => try_catch (k r) h)
  end.

(** [await op] *)
Definition await {R : Type} (o : Op R) : Prog R :=
  Vis o (fun r => match r with inl e => Throw e | inr v => Ret v end).

Notation "'let*' x ':=' p 'in' q" := (bind p (fun x => q))
  (at level 10, x name, p at level 100, q at level 200,
   format "'[v' 'let*'  x  ':='  p  'in' '/' q ']'").
Notation "'let*' ' x ':=' p 'in' q" := (bind p (fun x => q))
  (at level 10, x strict pattern, p at level 100, q at level 200,
   format "'[v' 'let*'  ' x  ':='  p  'in' '/' q ']'").

Definition console_log (line : string) : Prog unit := await (console LOG line).
Definition console_warn (line : string) : Prog unit := await (console WARN line).
Definition console_error (line : string) : Prog unit := await (console ERROR line).


(** ** process.env *)

Module Env.
Record t : Type := mk {
  CLEARBIT_API_KEY : option string;
  USE_MOCK_ENRICHMENT : option string;
  SENDGRID_API_KEY : option string;
  SENDGRID_FROM_EMAIL : option string;
  SENDGRID_FROM_NAME : option string
}.
End Env.

(** [x || null] on an optional string: the empty string is falsy. *)
Definition truthy (x : option string) : option string :=
  match x with
  | Some EmptyString => None
  | _ => x
  end.

(** [x || y] on optional strings. *)
Definition orElse (x y : option string) : option string :=
  match truthy x with
  | Some v => Some v
  | None => y
  end.

(** ** lib/clearbit.ts *)

Module EnrichmentError.
Inductive Code : Set := NOT_FOUND | API_ERROR | RATE_LIMITED | INVALID_DOMAIN.
Record t : Type := mk { code : Code; message : string }.
End EnrichmentError.

Inductive EnrichmentResult : Type :=
| EnrichmentSuccess (data : CompanyData.t)            (* { success: true, data } *)
| EnrichmentFailure (error : EnrichmentError.t).      (* { success: false, error } *)

Module ClearbitClient.
Import JsString Regex EmailUtils.

Record t : Type := mk {
  apiKey : option string;
  useMock : bool
}.

(** Detect placeholder API keys that shouldn't trigger real API calls. *)
Definition isPlaceholderKey (key : option string) : bool :=
  match truthy key with
  | None => true
  | Some key =>
      if includes key "your-" || includes key "your_" then true
      else if includes key "placeholder" || includes key "example" then true
      else if startsWith key "sk_test" || startsWith key "test_" then true
      (* Too short to be a real key *)
      else if JsString.length key <? 20 then true
      else false
  end.

(** [new ClearbitClient()] *)
Definition new (env : Env.t) : t :=
  let apiKey := truthy (Env.CLEARBIT_API_KEY env) in
  mk apiKey
     (negb (bool_decide (is_Some apiKey)) || isPlaceholderKey apiKey
      || bool_decide (Env.USE_MOCK_ENRICHMENT env = Some "true")).

Definition alpha (c : ascii) : bool := isLower c || isUpper c.

(** [/^(?:[a-zA-Z0-9](?:[a-zA-Z0-9-]{0,61}[a-zA-Z0-9])?\.)+[a-zA-Z]{2,}$/] *)
Definition validDomainRegex : regex :=
  Cat (Plus (Cat hostLabel (Class isDot))) (AtLeast 2 (Class alpha)).

(** Validate domain format. *)
Definition isValidDomain (domain : string) : bool := test validDomainRegex domain.

(** Simple hash function for consistent mock data. [toInt32] is the
    conversion done by the bitwise operators. *)
Definition toInt32 (z : Z) : Z := (z + 2147483648) mod 4294967296 - 2147483648.

Fixpoint simpleHash_from (str : string) (hash : Z) : Z :=
  match str with
  | EmptyString => hash
  | String c str' =>
      let char := code c in
      let hash := (toInt32 (hash * 32) - hash) + char in   (* ((hash << 5) - hash) + char *)
      let hash := toInt32 hash in                           (* hash & hash *)
      simpleHash_from str' hash
  end.

Definition simpleHash (str : string) : Z := Z.abs (simpleHash_from str 0).

(** The alternatives of [/\.(com|io|co|net|org|ai|app|dev|tech)$/i]. *)
Definition commonTlds : list string :=
  ["com"; "io"; "co"; "net"; "org"; "ai"; "app"; "dev"; "tech"].

(** [domain.replace(/\.(com|io|co|net|org|ai|app|dev|tech)$/i, '')] *)
Definition removeCommonTld (domain : string) : string :=
  match List.find (fun tld => endsWith (toLowerCase domain) ("." +:+ tld)) commonTlds with
  | Some tld => take (String.length domain - (String.length tld + 1)) domain
  | None => domain
  end.

(** Convert domain to company name. *)
Definition domainToCompanyName (domain : string) : string :=
  let name :=
    match truthy (last (split isDot (removeCommonTld domain))) with
    | Some n => n
    | None => domain
    end in
  (* Capitalize and format *)
  join " "
    (List.map (fun word => toUpperCase (charAt0 word) +:+ toLowerCase (slice word 1))
              (split (fun c => Ascii.eqb c "-" || Ascii.eqb c "_") name)).

Definition notFoundDomains : list string :=
  ["unknown-domain.com"; "fake-company.xyz"; "test123.net"].

Definition industries : list string :=
  ["Software"; "Technology"; "Financial Services"; "Healthcare";
   "Marketing"; "E-commerce"; "Education"; "Manufacturing"].
Definition employeeRanges : list string :=
  ["1-10"; "11-50"; "51-200"; "201-500"; "501-1000"; "1001-5000"].
Definition techStacks : list (list string) :=
  [["React"; "Node.js"; "PostgreSQL"; "AWS"];
   ["Vue.js"; "Python"; "MongoDB"; "GCP"];
   ["Angular"; "Java"; "MySQL"; "Azure"];
   ["Next.js"; "TypeScript"; "Prisma"; "Vercel"]].
Definition cities : list string :=
  ["San Francisco, CA, USA"; "New York, NY, USA"; "Austin, TX, USA";
   "Seattle, WA, USA"; "Boston, MA, USA"].

(** [table[hash % table.length]] *)
Definition pick {A : Type} (d : A) (table : list A) (hash : Z) : A :=
  List.nth (Z.to_nat (Z.rem hash (Z.of_nat (List.length table)))) table d.

(** Generate mock data for development/testing. *)
Definition getMockData (domain : string) : EnrichmentResult :=
  (* Simulate some domains not being found *)
  if existsb (fun d => includes (toLowerCase domain) d) notFoundDomains then
    EnrichmentFailure
      (EnrichmentError.mk EnrichmentError.NOT_FOUND ("[MOCK] No company data found for domain: " +:+ domain))
  else
    let companyName := domainToCompanyName domain in
    (* Use domain hash for consistent mock data *)
    let hash := simpleHash domain in
    let handle := hd "" (split isDot domain) in
    EnrichmentSuccess
      (CompanyData.mk
         domain
         (Some companyName)
         (Some (pick "" industries hash))
         (Some (companyName +:+ " is a leading provider of innovative solutions in the "
                +:+ toLowerCase (pick "" industries hash)
                +:+ " space. They help businesses achieve their goals through cutting-edge technology and exceptional service."))
         (Some (pick "" employeeRanges hash))
         (Some (pick "" cities hash))
         (Some ("https://" +:+ domain))
         (Some ("https://linkedin.com/company/" +:+ handle))
         (Some ("https://twitter.com/" +:+ handle))
         (pick [] techStacks hash)
         (Some (RawMock domain))).

(** Transform Clearbit response to our schema. *)
Definition transformClearbitResponse (domain : string) (data : Clearbit.response)
  : CompanyData.t :=
  let geo_field (f : Clearbit.geo -> option string) : option string :=
    truthy (Clearbit.geo_ data ≫= f) in
  (* Build location string from geo data *)
  let location :=
    match geo_field Clearbit.city, geo_field Clearbit.state, geo_field Clearbit.country with
    | None, None, None => None
    | c, s, k => Some (join ", " (omap id [c; s; k]))
    end in
  (* Fallback to direct location field *)
  let location := orElse location (truthy (Clearbit.location data)) in
  let linkedinUrl :=
    match truthy (mjoin (Clearbit.linkedinHandle data)) with
    | Some h => Some ("https://linkedin.com/company/" +:+ h)
    | None => None
    end in
  let twitterUrl :=
    match truthy (mjoin (Clearbit.twitterHandle data)) with
    | Some h => Some ("https://twitter.com/" +:+ h)
    | None => None
    end in
  (* Get industry (prefer most specific) *)
  let cat (f : Clearbit.category -> option string) : option string :=
    Clearbit.category_ data ≫= f in
  let industry :=
    orElse (cat Clearbit.subIndustry)
      (orElse (cat Clearbit.industry)
         (orElse (cat Clearbit.industryGroup) (truthy (cat Clearbit.sector)))) in
  CompanyData.mk
    domain
    (orElse (Clearbit.name data) (truthy (Clearbit.legalName data)))
    industry
    (truthy (Clearbit.description data))
    (truthy (mjoin (Clearbit.employeesRange data)))
    location
    (if String.eqb (Clearbit.domain data) "" then None
     else Some ("https://" +:+ Clearbit.domain data))
    linkedinUrl
    twitterUrl
    (default [] (Clearbit.tech data))
    (Some (RawClearbit data)).

Definition failure (c : EnrichmentError.Code) (m : string) : EnrichmentResult :=
  EnrichmentFailure (EnrichmentError.mk c m).

(** Call the actual Clearbit API. *)
Definition callClearbitApi (this : t) (domain : string) : Prog EnrichmentResult :=
  try_catch
    (let* data := await (axios_get domain (apiKey this)) in
     Ret (EnrichmentSuccess (transformClearbitResponse domain data)))
    (fun error =>
       let status :=                      (* error.response?.status *)
         match error with
         | AxiosError status _ => status  (* axios.isAxiosError(error) *)
         | _ => None
         end in
       (* Handle specific HTTP errors *)
       if bool_decide (status = Some 404) then
         Ret (failure EnrichmentError.NOT_FOUND ("No company data found for domain: " +:+ domain))
       else if bool_decide (status = Some 429) then
         Ret (failure EnrichmentError.RATE_LIMITED
                "Clearbit API rate limit exceeded. Please try again later.")
       else if bool_decide (status = Some 401) || bool_decide (status = Some 403) then
         Ret (failure EnrichmentError.API_ERROR "Invalid or expired Clearbit API key")
       else
         (* Generic API error *)
         Ret (failure EnrichmentError.API_ERROR ("Clearbit API error: " +:+ exn_message error))).

(** Enrich company data by domain. *)
Definition enrichCompany (this : t) (domain : string) : Prog EnrichmentResult :=
  (* Validate domain format *)
  if negb (isValidDomain domain) then
    Ret (failure EnrichmentError.INVALID_DOMAIN ("Invalid domain format: " +:+ domain))
  (* Use mock data in development *)
  else if useMock this then Ret (getMockData domain)
  (* Call Clearbit API *)
  else callClearbitApi this domain.

End ClearbitClient.


(** ** services/research.service.ts *)

Module ResearchResult.
Record t : Type := mk {
  success : bool;
  domain : string;
  status : ResearchStatus.t;
  companyResearch : option CompanyResearch.t;
  error : option string
}.
End ResearchResult.

Module ResearchService.
Import JsString.
Section WithEnv.
Context (env : Env.t).

(** The singleton instance [clearbitClient = new ClearbitClient()]. *)
Definition clearbitClient : ClearbitClient.t := ClearbitClient.new env.

(** Save company research data to database. *)
Definition saveCompanyResearch (data : CompanyData.t) : Prog CompanyResearch.t :=
  await (companyResearch_upsert data).

(** Research a company by domain. *)
Definition researchCompany (domain : string) : Prog ResearchResult.t :=
  let normalizedDomain := trim (toLowerCase domain) in
  (* Check if we already have research for this domain *)
  let* existingResearch := await (companyResearch_findUnique normalizedDomain) in
  match existingResearch with
  | Some existingResearch =>
      let* _ := console_log ("[Research] Cache hit for domain: " +:+ normalizedDomain) in
      Ret (ResearchResult.mk true normalizedDomain ResearchStatus.complete
             (Some existingResearch) None)
  | None =>
      let* _ := console_log ("[Research] Fetching enrichment data for domain: "
                             +:+ normalizedDomain) in
      (* Call enrichment API *)
      let* enrichmentResult := ClearbitClient.enrichCompany clearbitClient normalizedDomain in
      match enrichmentResult with
      | EnrichmentFailure error =>
          let* _ := console_log ("[Research] Enrichment failed for " +:+ normalizedDomain
                                 +:+ ": " +:+ EnrichmentError.message error) in
          (* Return failure but don't crash *)
          Ret (ResearchResult.mk false normalizedDomain ResearchStatus.failed None
                 (Some (EnrichmentError.message error)))
      | EnrichmentSuccess companyData =>
          (* Store the enrichment data *)
          let* companyResearch := saveCompanyResearch companyData in
          let* _ := console_log ("[Research] Successfully enriched domain: "
                                 +:+ normalizedDomain) in
          Ret (ResearchResult.mk true normalizedDomain ResearchStatus.complete
                 (Some companyResearch) None)
      end
  end.

(** Update contact's research status. *)
Definition updateContactResearchStatus (contactId : string) (status : ResearchStatus.t)
  : Prog unit :=
  let* _ := await (contact_update contactId status) in
  Ret tt.

(** Research a contact by their company domain. *)
Definition researchContactCompany (contactId domain : string) : Prog ResearchResult.t :=
  (* Mark contact as processing *)
  let* _ := updateContactResearchStatus contactId ResearchStatus.processing in
  try_catch
    (let* result := researchCompany domain in
     (* Update contact status based on result *)
     let newStatus :=
       if ResearchResult.success result then ResearchStatus.complete
       else ResearchStatus.failed in
     let* _ := updateContactResearchStatus contactId newStatus in
     Ret result)
    (fun error =>
       (* On unexpected error, mark as failed *)
       let* _ := updateContactResearchStatus contactId ResearchStatus.failed in
       let errorMessage := exn_message error in
       Ret (ResearchResult.mk false domain ResearchStatus.failed None
              (Some ("Research failed: " +:+ errorMessage)))).

End WithEnv.
End ResearchService.

(** ** services/contacts.service.ts *)

Module CreateContactInput.
Record t : Type := mk {
  email : string;
  firstName : option string;
  lastName : option string;
  title : option string;
  company : option string;
  phone : option string;
  notes : option string
}.
End CreateContactInput.

Module ContactWithResearchInfo.
Record t : Type := mk {
  contact : Contact.t;           (* ...contact *)
  isBusinessContact : bool
}.
End ContactWithResearchInfo.

Module ContactsService.
Import JsString EmailUtils.

(** [field?.trim() || null] *)
Definition trimmedOrNull (field : option string) : option string :=
  truthy (trim <$> field).

(** Create a new contact for a user. Automatically detects business vs personal
    email and sets appropriate status. *)
Definition createContact (userId : string) (input : CreateContactInput.t)
  : Prog ContactWithResearchInfo.t :=
  (* Normalize and validate email *)
  match truthy (normalizeEmail (CreateContactInput.email input)) with
  | None => Throw (Error "Invalid email address")
  | Some normalizedEmail =>
      (* Check for duplicate email for this user *)
      let* existingContact := await (contact_findUnique userId normalizedEmail) in
      match existingContact with
      | Some _ => Throw (Error "Contact with this email already exists")
      | None =>
          (* Determine if business email *)
          let isBusiness := isBusinessEmail normalizedEmail in
          let domain := extractDomain normalizedEmail in
          (* Create the contact with appropriate status *)
          let* contact :=
            await (contact_create
                     (Contact.mk "" userId normalizedEmail
                        (trimmedOrNull (CreateContactInput.firstName input))
                        (trimmedOrNull (CreateContactInput.lastName input))
                        (trimmedOrNull (CreateContactInput.title input))
                        (trimmedOrNull (CreateContactInput.company input))
                        (trimmedOrNull (CreateContactInput.phone input))
                        (trimmedOrNull (CreateContactInput.notes input))
                        (if isBusiness then domain else None)
                        (if isBusiness then ResearchStatus.pending
                         else ResearchStatus.na))) in
          (* Trigger research automatically for business contacts *)
          let* _ :=
            match isBusiness, truthy domain with
            | true, Some domain =>
                (* Fire and forget - don't await, let it run in background *)
                await (detach (AutoResearch (Contact.id contact) domain normalizedEmail))
            | _, _ => Ret tt
            end in
          Ret (ContactWithResearchInfo.mk contact isBusiness)
      end
  end.

Section WithEnv.
Context (env : Env.t).

(** The detached promise of [createContact]:
    [researchContactCompany(id, domain).then(log).catch(log)]. *)
Definition autoResearch (contactId domain normalizedEmail : string) : Prog unit :=
  try_catch
    (let* result := ResearchService.researchContactCompany env contactId domain in
     console_log ("[Contact] Auto-research completed for " +:+ normalizedEmail +:+ ": "
                  +:+ (if ResearchResult.success result then "success" else "failed")))
    (fun err =>
       console_error ("[Contact] Auto-research error for " +:+ normalizedEmail +:+ ": "
                      +:+ exn_message err)).

Definition run_task (t : Task) : Prog unit :=
  match t with
  | AutoResearch contactId domain normalizedEmail =>
      autoResearch contactId domain normalizedEmail
  end.

End WithEnv.
End ContactsService.


(** ** lib/sendgrid.ts *)

Module SendEmailParams.
Record t : Type := mk {
  to : string;
  toName : option string;
  subject : string;
  text : string;
  html : option string
}.
End SendEmailParams.

Module SendEmailResult.
Record t : Type := mk {
  success : bool;
  messageId : option string;
  error : option string;
  mockMode : option bool
}.
End SendEmailResult.

Module SendGrid.
Import JsString.
Section WithEnv.
Context (env : Env.t).

Definition SENDGRID_API_KEY : option string := Env.SENDGRID_API_KEY env.
Definition FROM_EMAIL : string :=
  default "noreply@conversion.ai" (truthy (Env.SENDGRID_FROM_EMAIL env)).
Definition FROM_NAME : string :=
  default "Conversion AI" (truthy (Env.SENDGRID_FROM_NAME env)).

(** Detect if the API key is a placeholder/example value. *)
Definition isPlaceholderKey (key : option string) : bool :=
  match truthy key with
  | None => true
  | Some key =>
      if includes key "your-" || includes key "your_" then true
      else if includes key "placeholder" || includes key "example" then true
      else if startsWith key "SG.test" || startsWith key "test_" then true
      else if includes key "xxx" || includes key "XXX" then true
      (* Too short to be a real key (SendGrid keys are ~70 chars) *)
      else if JsString.length key <? 50 then true
      else false
  end.

(** Check if SendGrid is properly configured. *)
Definition isSendGridConfigured : bool :=
  bool_decide (is_Some (truthy SENDGRID_API_KEY)) && negb (isPlaceholderKey SENDGRID_API_KEY).

(** [text.replace(/\n/g, '<br>')] *)
Fixpoint newlinesToBr (text : string) : string :=
  match text with
  | EmptyString => EmptyString
  | String c text' =>
      if Ascii.eqb c "010" then "<br>" +:+ newlinesToBr text'
      else String c (newlinesToBr text')
  end.

(** [`${prefix}_${Date.now()}_${Math.random().toString(36).substring(7)}`] *)
Definition freshMessageId (prefix : string) : Prog string :=
  let* now := await Date_now in
  let* rnd := await Math_random in
  Ret (prefix +:+ "_" +:+ ofZ now +:+ "_" +:+ rnd).

(** Send an email via SendGrid. Returns mock response if API key not
    configured. *)
Definition sendEmail (params : SendEmailParams.t) : Prog SendEmailResult.t :=
  let to := SendEmailParams.to params in
  let toName := SendEmailParams.toName params in
  let subject := SendEmailParams.subject params in
  let text := SendEmailParams.text params in
  let html := SendEmailParams.html params in
  (* Mock mode if not configured *)
  if negb isSendGridConfigured then
    let* _ := console_log "[SendGrid Mock] Would send email:" in
    let* _ := console_log ("  To: " +:+ match truthy toName with
                                        | Some n => n +:+ " <" +:+ to +:+ ">"
                                        | None => to
                                        end) in
    let* _ := console_log ("  Subject: " +:+ subject) in
    let* _ := console_log ("  Body: " +:+ substring2 text 0 100 +:+ "...") in
    let* messageId := freshMessageId "mock" in
    Ret (SendEmailResult.mk true (Some messageId) None (Some true))
  else
    try_catch
      (let msg :=
         SgMail.mkMsg to (truthy toName) FROM_EMAIL FROM_NAME subject text
           (default (newlinesToBr text) (truthy html)) in
       let* response := await (sgMail_send msg) in
       (* Extract message ID from response headers *)
       let* messageId :=
         match truthy response with
         | Some id => Ret id
         | None => freshMessageId "sg"
         end in
       Ret (SendEmailResult.mk true (Some messageId) None None))
      (fun error =>
         let* _ := console_error ("[SendGrid] Error sending email: " +:+ exn_message error) in
         (* Extract error message *)
         let errorMessage := exn_message error in
         let errorMessage :=
           match error with
           | ResponseError _ (Some m) => if String.eqb m "" then errorMessage else m
           | _ => errorMessage
           end in
         Ret (SendEmailResult.mk false None (Some errorMessage) None)).

End WithEnv.
End SendGrid.

(** ** services/email.service.ts *)

Module SendEmailOptions.
Record t : Type := mk { emailId : string; userId : string }.
End SendEmailOptions.

Module SentInfo.
Record t : Type := mk {
  id : string;
  status : EmailStatus.t;
  sentAt : option Z;
  sendgridMessageId : option string
}.
End SentInfo.

Module SendEmailResponse.
Record t : Type := mk {
  success : bool;
  email : option SentInfo.t;
  error : option string;
  mockMode : option bool
}.

(** [{ success: false, error }] *)
Definition failure (error : string) : t := mk false None (Some error) None.
End SendEmailResponse.

Module EmailService.
Import JsString.
Section WithEnv.
Context (env : Env.t).

Definition status_only (s : EmailStatus.t) : Email.patch :=
  Email.mkPatch (Some s) None None.

(** Send a saved email to its contact. *)
Definition sendSavedEmail (options : SendEmailOptions.t) : Prog SendEmailResponse.t :=
  let emailId := SendEmailOptions.emailId options in
  let userId := SendEmailOptions.userId options in
  try_catch
    ((* Fetch the email with contact info *)
     let* found := await (email_findFirst emailId userId) in
     match found with
     | None => Ret (SendEmailResponse.failure "Email not found or access denied")
     | Some (email, contact) =>
         let status := Email.status email in
         (* Check if already sent *)
         if bool_decide (status = EmailStatus.sent) || bool_decide (status = EmailStatus.delivered)
         then Ret (SendEmailResponse.failure "Email has already been sent")
         (* Check if email is in a sendable state *)
         else if bool_decide (status ≠ EmailStatus.draft)
                 && bool_decide (status ≠ EmailStatus.queued)
                 && bool_decide (status ≠ EmailStatus.failed)
         then Ret (SendEmailResponse.failure
                     ("Cannot send email with status: " +:+ EmailStatus.name status))
         (* Validate recipient email *)
         else if String.eqb (Contact.email contact) ""
         then Ret (SendEmailResponse.failure "Contact does not have an email address")
         else
           (* Build recipient name *)
           let recipientName :=
             truthy (Some (join " " (omap truthy [Contact.firstName contact;
                                                  Contact.lastName contact]))) in
           (* Update status to queued before sending *)
           let* _ := await (email_update emailId (status_only EmailStatus.queued)) in
           (* Send the email *)
           let* sendResult :=
             SendGrid.sendEmail env
               (SendEmailParams.mk (Contact.email contact) recipientName
                  (Email.subject email) (Email.bodyText email)
                  (truthy (Email.bodyHtml email))) in
           if SendEmailResult.success sendResult then
             (* Update email as sent *)
             let* now := await Date_now in
             let* updatedEmail :=
               await (email_update emailId
                        (Email.mkPatch (Some EmailStatus.sent) (Some now)
                           (Some (truthy (SendEmailResult.messageId sendResult))))) in
             Ret (SendEmailResponse.mk true
                    (Some (SentInfo.mk (Email.id updatedEmail) (Email.status updatedEmail)
                             (Email.sentAt updatedEmail)
                             (Email.sendgridMessageId updatedEmail)))
                    None
                    (SendEmailResult.mockMode sendResult))
           else
             (* Update email as failed *)
             let* _ := await (email_update emailId (status_only EmailStatus.failed)) in
             Ret (SendEmailResponse.failure
                    (default "Failed to send email"
                       (truthy (SendEmailResult.error sendResult))))
     end)
    (fun error =>
       let* _ := console_error ("[EmailService] Error sending email: " +:+ exn_message error) in
       (* Try to update status to failed *)
       let* _ :=
         try_catch
           (let* _ := await (email_update emailId (status_only EmailStatus.failed)) in Ret tt)
           (fun _ => Ret tt (* Ignore update errors *)) in
       Ret (SendEmailResponse.failure (exn_message error))).

End WithEnv.

(** The accumulator of [getEmailStats], a JavaScript object. *)
Definition initialStats : gmap string Z :=
  list_to_map
    [("total", 0); ("draft", 0); ("sent", 0); ("delivered", 0); ("opened", 0);
     ("clicked", 0); ("bounced", 0); ("failed", 0); ("queued", 0)].

(** One turn of the loop [for (const group of emails)]. *)
Definition countGroup (stats : gmap string Z) (group : EmailStatus.t * Z) : gmap string Z :=
  let count := group.2 in
  let stats := <["total" := default 0 (stats !! "total") + count]> stats in
  if bool_decide (is_Some (stats !! EmailStatus.name group.1))   (* group.status in stats *)
  then <[EmailStatus.name group.1 := count]> stats
  else stats.

(** Get email statistics for a user. *)
Definition getEmailStats (userId : string) : Prog (gmap string Z) :=
  let* emails := await (email_groupBy_status userId) in
  let stats := fold_left countGroup emails initialStats in
  (* Remove queued from returned stats (internal state) *)
  Ret (delete "queued" stats).

End EmailService.


(** ** The world the programs run in

    The database tables, the replies of the outside services, the clock, the
    detached promises still to run and the observable events. Persistence
    failures (connection loss) are decided by [faults]: each database call
    consumes one entry, and [true] makes the call throw. *)

Module World.

Record Db : Type := mkDb {
  contacts : gmap string Contact.t;          (* primary key: id *)
  companyResearch : list CompanyResearch.t;  (* the rows of the table, oldest first *)
  emails : gmap string Email.t               (* primary key: id *)
}.

Record Oracle : Type := mkOracle {
  faults : list bool;
  wire : list (exn + Clearbit.response);     (* replies of the Clearbit endpoint *)
  mailer : list (exn + option string);       (* replies of sgMail.send *)
  entropy : list string                      (* values of Math.random() *)
}.

Inductive Event : Type :=
| Logged (l : Level) (line : string)
| HttpGet (domain : string)
| MailOut (m : SgMail.msg)
| Slept (ms : Z).

Record t : Type := mk {
  db : Db;
  oracle : Oracle;
  clock : Z;
  nextId : Z;
  tasks : list Task;
  events : list Event
}.

Definition with_db (f : Db -> Db) (w : t) : t :=
  mk (f (db w)) (oracle w) (clock w) (nextId w) (tasks w) (events w).
Definition with_oracle (f : Oracle -> Oracle) (w : t) : t :=
  mk (db w) (f (oracle w)) (clock w) (nextId w) (tasks w) (events w).
Definition with_clock (c : Z) (w : t) : t :=
  mk (db w) (oracle w) c (nextId w) (tasks w) (events w).
Definition with_nextId (n : Z) (w : t) : t :=
  mk (db w) (oracle w) (clock w) n (tasks w) (events w).
Definition with_tasks (ts : list Task) (w : t) : t :=
  mk (db w) (oracle w) (clock w) (nextId w) ts (events w).
Definition emit (e : Event) (w : t) : t :=
  mk (db w) (oracle w) (clock w) (nextId w) (tasks w) (events w ++ [e]).

Definition set_contacts (m : gmap string Contact.t) (d : Db) : Db :=
  mkDb m (companyResearch d) (emails d).
Definition set_companyResearch (l : list CompanyResearch.t) (d : Db) : Db :=
  mkDb (contacts d) l (emails d).
Definition set_emails (m : gmap string Email.t) (d : Db) : Db :=
  mkDb (contacts d) (companyResearch d) m.

Definition set_faults (l : list bool) (o : Oracle) : Oracle :=
  mkOracle l (wire o) (mailer o) (entropy o).
Definition set_wire (l : list (exn + Clearbit.response)) (o : Oracle) : Oracle :=
  mkOracle (faults o) l (mailer o) (entropy o).
Definition set_mailer (l : list (exn + option string)) (o : Oracle) : Oracle :=
  mkOracle (faults o) (wire o) l (entropy o).
Definition set_entropy (l : list string) (o : Oracle) : Oracle :=
  mkOracle (faults o) (wire o) (mailer o) l.

(** The world once a database call has taken its entry of [faults]. *)
Definition next_query (w : t) : t :=
  with_oracle (set_faults (tl (faults (oracle w)))) w.

(** One call on the Prisma client: it throws when a fault is due, and runs its
    query otherwise. *)
Definition prisma {R : Type} (w : t) (query : t -> (exn + R) * t) : (exn + R) * t :=
  if bool_decide (head (faults (oracle w)) = Some true)
  then (inl (Error "Can't reach database server"), next_query w)
  else query (next_query w).

Definition rows {A : Type} (m : gmap string A) : list A := (map_to_list m).*2.

(** [findUnique({ where: { domain } })] on the CompanyResearch table. *)
Definition findResearch (domain : string) (table : list CompanyResearch.t)
  : option CompanyResearch.t :=
  List.find (fun r => String.eqb (CompanyResearch.domain r) domain) table.

(** [upsert({ where: { domain: data.domain }, update, create })]: the row
    written, and the table after it. An existing row keeps its place and its
    creation time. *)
Fixpoint upsertResearch (now : Z) (data : CompanyData.t) (table : list CompanyResearch.t)
  : CompanyResearch.t * list CompanyResearch.t :=
  match table with
  | [] =>
      let row := CompanyResearch.mk data now now in
      (row, [row])
  | r :: table' =>
      if String.eqb (CompanyResearch.domain r) (CompanyData.domain data) then
        let row := CompanyResearch.mk data (CompanyResearch.createdAt r) now in
        (row, row :: table')
      else
        let '(row, table'') := upsertResearch now data table' in
        (row, r :: table'')
  end.

(** [groupBy({ by: ['status'], where: { userId }, _count: { status: true } })]:
    one group for each status that some email of the user has. *)
Definition groupByStatus (userId : string) (table : gmap string Email.t)
  : list (EmailStatus.t * Z) :=
  let mine := List.filter (fun e => String.eqb (Email.userId e) userId) (rows table) in
  let count (s : EmailStatus.t) : Z :=
    Z.of_nat (List.length (List.filter (fun e => bool_decide (Email.status e = s)) mine)) in
  omap (fun s => if 0 <? count s then Some (s, count s) else None) EmailStatus.all.

(** The queries, on a database that answers. *)

Definition do_contact_findUnique (userId email : string) (w : t)
  : (exn + option Contact.t) * t :=
  (inr (List.find (fun c => String.eqb (Contact.userId c) userId
                            && String.eqb (Contact.email c) email)
                  (rows (contacts (db w)))), w).

(** The new row gets a generated id; the primary key and the unique index
    on (userId, email) are enforced. *)
Definition do_contact_create (data : Contact.t) (w : t) : (exn + Contact.t) * t :=
  let id := "c" +:+ JsString.ofZ (nextId w) in
  let w := with_nextId (nextId w + 1) w in
  let taken :=
    bool_decide (is_Some (contacts (db w) !! id))
    || existsb (fun c => String.eqb (Contact.userId c) (Contact.userId data)
                         && String.eqb (Contact.email c) (Contact.email data))
               (rows (contacts (db w))) in
  if taken then (inl (Error "Unique constraint failed"), w)
  else
    let row := Contact.create id data in
    (inr row, with_db (set_contacts (<[id := row]> (contacts (db w)))) w).

Definition do_contact_update (id : string) (researchStatus : ResearchStatus.t) (w : t)
  : (exn + Contact.t) * t :=
  match contacts (db w) !! id with
  | None => (inl (Error "Record to update not found."), w)
  | Some c =>
      let row := Contact.with_researchStatus researchStatus c in
      (inr row, with_db (set_contacts (<[id := row]> (contacts (db w)))) w)
  end.

Definition do_companyResearch_findUnique (domain : string) (w : t)
  : (exn + option CompanyResearch.t) * t :=
  (inr (findResearch domain (companyResearch (db w))), w).

Definition do_companyResearch_upsert (data : CompanyData.t) (w : t)
  : (exn + CompanyResearch.t) * t :=
  let '(row, table) := upsertResearch (clock w) data (companyResearch (db w)) in
  (inr row, with_db (set_companyResearch table) w).

(** [findFirst({ where: { id, userId }, include: { contact } })] *)
Definition do_email_findFirst (id userId : string) (w : t)
  : (exn + option (Email.t * Contact.t)) * t :=
  match emails (db w) !! id with
  | None => (inr None, w)
  | Some e =>
      if negb (String.eqb (Email.userId e) userId) then (inr None, w)
      else match contacts (db w) !! Email.contactId e with
           | Some c => (inr (Some (e, c)), w)
           | None => (inl (Error "Inconsistent query result: contact is required"), w)
           end
  end.

Definition do_email_update (id : string) (data : Email.patch) (w : t)
  : (exn + Email.t) * t :=
  match emails (db w) !! id with
  | None => (inl (Error "Record to update not found."), w)
  | Some e =>
      let row := Email.apply data e in
      (inr row, with_db (set_emails (<[id := row]> (emails (db w)))) w)
  end.

Definition do_email_groupBy_status (userId : string) (w : t)
  : (exn + list (EmailStatus.t * Z)) * t :=
  (inr (groupByStatus userId (emails (db w))), w).

Definition handle {R : Type} (o : Op R) (w : t) : (exn + R) * t :=
  match o in Op R return (exn + R) * t with
  | contact_findUnique userId email => prisma w (do_contact_findUnique userId email)
  | contact_create data => prisma w (do_contact_create data)
  | contact_update id researchStatus => prisma w (do_contact_update id researchStatus)
  | companyResearch_findUnique domain => prisma w (do_companyResearch_findUnique domain)
  | companyResearch_upsert data => prisma w (do_companyResearch_upsert data)
  | email_findFirst id userId => prisma w (do_email_findFirst id userId)
  | email_update id data => prisma w (do_email_update id data)
  | email_groupBy_status userId => prisma w (do_email_groupBy_status userId)
  | axios_get domain _ =>
      let w := emit (HttpGet domain) w in
      match wire (oracle w) with
      | [] => (inl (AxiosError None "timeout of 10000ms exceeded"), w)
      | reply :: rest => (reply, with_oracle (set_wire rest) w)
      end
  | sgMail_send m =>
      let w := emit (MailOut m) w in
      match mailer (oracle w) with
      | [] => (inr None, w)
      | reply :: rest => (reply, with_oracle (set_mailer rest) w)
      end
  | Date_now => (inr (clock w), with_clock (clock w + 1) w)
  | Math_random =>
      match entropy (oracle w) with
      | [] => (inr "", w)
      | r :: rest => (inr r, with_oracle (set_entropy rest) w)
      end
  | console l line => (inr tt, emit (Logged l line) w)
  | setTimeout ms => (inr tt, with_clock (clock w + ms) (emit (Slept ms) w))
  | detach task => (inr tt, with_tasks (tasks w ++ [task]) w)
  end.

End World.

(** ** Running programs *)

Inductive Outcome (A : Type) : Type :=
| Fulfilled (a : A)       (* the promise resolves *)
| Rejected (e : exn).     (* the promise rejects *)

Arguments Fulfilled {A} a.
Arguments Rejected {A} e.

(** One program, run to completion with nothing else in between. *)
Fixpoint run {A : Type} (p : Prog A) (w : World.t) : Outcome A * World.t :=
  match p with
  | Ret a => (Fulfilled a, w)
  | Throw e => (Rejected e, w)
  | Vis o k => let '(r, w') := World.handle o w in run (k r) w'
  end.

(** One operation of a program. *)
Definition step {A : Type} (p : Prog A) (w : World.t) : Prog A * World.t :=
  match p with
  | Vis o k => let '(r, w') := World.handle o w in (k r, w')
  | _ => (p, w)
  end.

(** Programs started together advance one operation at a time, in the order
    the schedule names them. *)
Fixpoint interleave {A : Type} (schedule : list nat) (ps : list (Prog A)) (w : World.t)
  : list (Prog A) * World.t :=
  match schedule with
  | [] => (ps, w)
  | i :: schedule' =>
      match ps !! i with
      | Some p =>
          let '(p', w') := step p w in
          interleave schedule' (<[i := p']> ps) w'
      | None => interleave schedule' ps w
      end
  end.

(** What is left of each program runs to its end, in order. *)
Fixpoint finish {A : Type} (ps : list (Prog A)) (w : World.t)
  : list (Outcome A) * World.t :=
  match ps with
  | [] => ([], w)
  | p :: ps' =>
      let '(o, w1) := run p w in
      let '(os, w2) := finish ps' w1 in
      (o :: os, w2)
  end.

(** The value of [Promise.all]: every result in the order of the promises, or
    a rejection. *)
Fixpoint gather {A : Type} (os : list (Outcome A)) : Outcome (list A) :=
  match os with
  | [] => Fulfilled []
  | Rejected e :: _ => Rejected e
  | Fulfilled a :: os' =>
      match gather os' with
      | Fulfilled l => Fulfilled (a :: l)
      | Rejected e => Rejected e
      end
  end.

(** [await Promise.all(ps)] under a schedule: the promises interleave as the
    schedule says, then each runs to its end. *)
Definition Promise_all {A : Type} (schedule : list nat) (ps : list (Prog A)) (w : World.t)
  : Outcome (list A) * World.t :=
  let '(ps', w') := interleave schedule ps w in
  let '(os, w'') := finish ps' w' in
  (gather os, w'').

(** The detached promises run after the request that started them. *)
Definition settle (env : Env.t) (w : World.t) : World.t :=
  fold_left (fun w t => (run (ContactsService.run_task env t) w).2)
            (World.tasks w) (World.with_tasks [] w).


(** ** Batch research (services/research.service.ts, continued) *)

Module BatchContact.
Record t : Type := mk { id : string; companyDomain : string }.
End BatchContact.

Module Batch.
Section WithEnv.
Context (env : Env.t).

(** [Array.prototype.slice(start, end)]: a negative index counts from the end,
    and both ends are clamped to the array. *)
Definition slice {A : Type} (l : list A) (start stop : Z) : list A :=
  let len := Z.of_nat (List.length l) in
  let clamp (k : Z) : Z := if k <? 0 then Z.max (len + k) 0 else Z.min k len in
  take (Z.to_nat (clamp stop - clamp start)) (drop (Z.to_nat (clamp start)) l).

Definition research (c : BatchContact.t) : Prog ResearchResult.t :=
  ResearchService.researchContactCompany env (BatchContact.id c) (BatchContact.companyDomain c).

(** The loop [for (let i = 0; i < contacts.length; i += concurrency)]. Each
    turn takes one schedule for its [Promise.all]; [None] when the fuel runs
    out before the loop ends. *)
Fixpoint batchLoop (fuel : nat) (schedules : list (list nat))
    (contacts : list BatchContact.t) (concurrency : Z)
    (i : Z) (results : list ResearchResult.t) (w : World.t)
  : option (Outcome (list ResearchResult.t) * World.t) :=
  match fuel with
  | O => None
  | S fuel' =>
      if i <? Z.of_nat (List.length contacts) then
        let batch := slice contacts i (i + concurrency) in
        let '(out, w1) := Promise_all (hd [] schedules) (List.map research batch) w in
        match out with
        | Rejected e => Some (Rejected e, w1)
        | Fulfilled batchResults =>
            let results := (results ++ batchResults) in
            (* Small delay between batches to be nice to the API *)
            let w2 :=
              if i + concurrency <? Z.of_nat (List.length contacts)
              then (run (await (setTimeout 1000)) w1).2
              else w1 in
            batchLoop fuel' (tl schedules) contacts concurrency (i + concurrency) results w2
        end
      else Some (Fulfilled results, w)
  end.

(** Batch research multiple contacts; [concurrency] defaults to 3. *)
Definition batchResearchContacts (fuel : nat) (schedules : list (list nat))
    (contacts : list BatchContact.t) (concurrency : option Z) (w : World.t)
  : option (Outcome (list ResearchResult.t) * World.t) :=
  batchLoop fuel schedules contacts (default 3 concurrency) 0 [] w.

(** The reading of the batch as windows: the list cut into consecutive pieces
    of [n] elements (the last one may be shorter). *)
Fixpoint windows_aux {A : Type} (fuel n : nat) (l : list A) : list (list A) :=
  match fuel, l with
  | S fuel', _ :: _ => take n l :: windows_aux fuel' n (drop n l)
  | _, _ => []
  end.

Definition windows {A : Type} (n : nat) (l : list A) : list (list A) :=
  windows_aux (List.length l) n l.

(** The windows processed one after the other, each under [Promise.all], with
    a pause of 1000 ms between a window and the next. *)
Fixpoint processWindows (schedules : list (list nat)) (ws : list (list BatchContact.t))
    (results : list ResearchResult.t) (w : World.t)
  : Outcome (list ResearchResult.t) * World.t :=
  match ws with
  | [] => (Fulfilled results, w)
  | window :: ws' =>
      let '(out, w1) := Promise_all (hd [] schedules) (List.map research window) w in
      match out with
      | Rejected e => (Rejected e, w1)
      | Fulfilled rs =>
          let w2 :=
            match ws' with
            | [] => w1
            | _ :: _ => World.with_clock (World.clock w1 + 1000) (World.emit (World.Slept 1000) w1)
            end in
          processWindows (tl schedules) ws' (results ++ rs) w2
      end
  end.

End WithEnv.
End Batch.


(** ** Fixtures *)

Module Fixtures.
(** No credential is configured: the enrichment client and the mail client
    run in mock mode. *)
Definition env0 : Env.t := Env.mk None None None None None.

(** An empty database that answers, and nothing scheduled. *)
Definition world0 : World.t :=
  World.mk (World.mkDb ∅ [] ∅) (World.mkOracle [] [] [] []) 0 0 [] [].

(** The value a promise resolved with ([d] if it rejected). *)
Definition value {A : Type} (d : A) (out : Outcome A * World.t) : A :=
  match out.1 with
  | Fulfilled a => a
  | Rejected _ => d
  end.
End Fixtures.

(** ** Notions about regular expressions *)

Module RegexSpec.
Import Regex.
(** Every code unit of [s] satisfies [ok]. *)
Fixpoint allChars (ok : ascii → bool) (s : string) : bool :=
  match s with
  | EmptyString => true
  | String c s' => ok c && allChars ok s'
  end.

(** Every class of [r] only accepts code units satisfying [ok]. *)
Fixpoint classesWithin (ok : ascii → bool) (r : regex) : Prop :=
  match r with
  | Class p => ∀ c, p c = true → ok c = true
  | Cat r1 r2 | Alt r1 r2 => classesWithin ok r1 ∧ classesWithin ok r2
  | Star r1 => classesWithin ok r1
  | Void | Eps => True
  end.

(** The alphabet of an extracted domain. *)
Definition domainChar (c : ascii) : bool :=
  EmailUtils.lowerAlnumDash c || EmailUtils.isDot c.
End RegexSpec.

(** ** The classifier, as specified *)

Module ClassifierSpec.
Import JsString Regex EmailUtils.

(** The part of [s] after its last [c]; [None] when [c] does not occur. *)
Fixpoint afterLast (c : ascii) (s : string) : option string :=
  match s with
  | EmptyString => None
  | String a s' =>
      match afterLast c s' with
      | Some r => Some r
      | None => if Ascii.eqb a c then Some s' else None
      end
  end.

(** The lower-cased, trimmed substring after the last [@]. *)
Definition domainPart (email : string) : string :=
  toLowerCase (trim (default "" (afterLast "@" email))).

(** A malformed address: no [@], [@] at position 0 or at the end, no dot in
    the domain, or a domain failing the domain-character expression. The
    positions are those of the last [@] in the trimmed address. *)
Definition malformed (email : string) : Prop :=
  let t := toLowerCase (trim email) in
  let i := lastIndexOf t "@" in
  i = -1 ∨ i = 0 ∨ i = JsString.length t - 1
  ∨ includes (substring t (i + 1)) "." = false
  ∨ test domainRegex (substring t (i + 1)) = false.

(** A domain on the personal denylist, or with an educational or government
    suffix. *)
Definition nonBusinessDomain (d : string) : bool :=
  has PERSONAL_EMAIL_DOMAINS d
  || endsWith d ".edu" || endsWith d ".edu.au" || endsWith d ".ac.uk"
  || endsWith d ".gov" || endsWith d ".gov.uk" || endsWith d ".gov.au".
End ClassifierSpec.


(** ** Notions used to state the properties *)

(** The database answers the next query. *)
Definition answers (w : World.t) : Prop :=
  head (World.faults (World.oracle w)) ≠ Some true.

(** The database answers every query to come. *)
Definition calm (w : World.t) : Prop :=
  Forall (fun fault => fault = false) (World.faults (World.oracle w)).

(** *** Statistics *)

Module StatsSpec.
(** The number of emails of a user in a status. *)
Definition emailCount (userId : string) (s : EmailStatus.t) (w : World.t) : Z :=
  Z.of_nat (List.length
    (List.filter (fun e => bool_decide (Email.status e = s))
       (List.filter (fun e => String.eqb (Email.userId e) userId)
          (World.rows (World.emails (World.db w)))))).

Definition sumZ (l : list Z) : Z := fold_right Z.add 0 l.

(** The keys of the object [getEmailStats] returns. *)
Definition reportedKeys : gset string :=
  list_to_set ["total"; "draft"; "sent"; "delivered"; "opened"; "clicked"; "bounced"; "failed"].
End StatsSpec.

(** *** Delivery *)

Module DeliverySpec.
(** The email [e] is stored under [options.emailId], belongs to the caller,
    and its contact row is [c]. *)
Definition stored (options : SendEmailOptions.t) (e : Email.t) (c : Contact.t)
    (w : World.t) : Prop :=
  World.emails (World.db w) !! SendEmailOptions.emailId options = Some e
  ∧ Email.userId e = SendEmailOptions.userId options
  ∧ World.contacts (World.db w) !! Email.contactId e = Some c.

(** The error classes of a failed send, as the route handler tells them
    apart. *)
Definition alreadySentError (r : SendEmailResponse.t) : bool :=
  negb (SendEmailResponse.success r)
  && match SendEmailResponse.error r with
     | Some m => JsString.includes m "already been sent"
     | None => false
     end.

Definition missingRecipientError (r : SendEmailResponse.t) : bool :=
  negb (SendEmailResponse.success r)
  && bool_decide (SendEmailResponse.error r = Some "Contact does not have an email address").

Definition terminalSent : list EmailStatus.t :=
  [EmailStatus.sent; EmailStatus.delivered; EmailStatus.opened;
   EmailStatus.clicked; EmailStatus.bounced].

Definition sendable : list EmailStatus.t :=
  [EmailStatus.draft; EmailStatus.queued; EmailStatus.failed].

(** Test fixtures: a contact, an email of that contact in a given status, and
    a world that holds the two. *)
Definition contact0 (email : string) : Contact.t :=
  Contact.mk "c1" "u1" email (Some "Ada") None None None None None None ResearchStatus.na.
Definition email0 (s : EmailStatus.t) : Email.t :=
  Email.mk "e1" "u1" "c1" "Hello" "Hi there" None s
           (if bool_decide (s ∈ terminalSent) then Some "sg-1" else None)
           (if bool_decide (s ∈ terminalSent) then Some 7 else None).
Definition mailbox (s : EmailStatus.t) (recipient : string) : World.t :=
  World.with_db
    (fun _ => World.mkDb {["c1" := contact0 recipient]} [] {["e1" := email0 s]})
    Fixtures.world0.
Definition options0 : SendEmailOptions.t := SendEmailOptions.mk "e1" "u1".
End DeliverySpec.

(** *** Research *)

Module ResearchSpec.
Import JsString.

(** [domain.toLowerCase().trim()] *)
Definition normalize (domain : string) : string := trim (toLowerCase domain).

(** The domains of the rows of the CompanyResearch table. *)
Definition cachedDomains (w : World.t) : list string :=
  CompanyResearch.domain <$> World.companyResearch (World.db w).

(** The effects of the enrichment client: it writes no table and takes no
    database fault. *)
Definition client_frame (w w' : World.t) : Prop :=
  World.db w' = World.db w
  ∧ World.faults (World.oracle w') = World.faults (World.oracle w)
  ∧ World.tasks w' = World.tasks w.

(** A call of [researchCompany] served from the cache: the stored row comes
    back, no table is written, no request goes to the provider, and all that
    happens is the cache-hit log line. *)
Definition servedFromCache (env : Env.t) (domain : string) (w : World.t) : Prop :=
  ∃ row w',
    World.findResearch (normalize domain) (World.companyResearch (World.db w)) = Some row
    ∧ run (ResearchService.researchCompany env domain) w
      = (Fulfilled (ResearchResult.mk true (normalize domain) ResearchStatus.complete
                      (Some row) None), w')
    ∧ World.db w' = World.db w
    ∧ World.wire (World.oracle w') = World.wire (World.oracle w)
    ∧ World.events w'
      = World.events w
        ++ [World.Logged LOG ("[Research] Cache hit for domain: " +:+ normalize domain)].

(** The status of a contact, if the contact exists. *)
Definition statusOf (id : string) (w : World.t) : option ResearchStatus.t :=
  Contact.researchStatus <$> World.contacts (World.db w) !! id.

(** The log line [console.log(line)] leaves in a world. *)
Definition log (line : string) : World.t → World.t := World.emit (World.Logged LOG line).


Definition onError (contactId domain : string) (error : exn) : Prog ResearchResult.t :=
  let* _ := ResearchService.updateContactResearchStatus contactId ResearchStatus.failed in
  Ret (ResearchResult.mk false domain ResearchStatus.failed None
         (Some ("Research failed: " +:+ exn_message error))).

(** Test fixtures: a pending business contact, and a world whose database is
    about to fail once. *)
Definition pendingContact : Contact.t :=
  Contact.mk "c1" "u1" "ceo@stripe.com" None None None None None None
             (Some "stripe.com") ResearchStatus.pending.

End ResearchSpec.

Module PipelineSpec.
(** Every cached row is about a domain the enrichment client accepts. The
    rows the core writes are: it only stores what the client returned. *)
Definition cacheValid (w : World.t) : Prop :=
  Forall (fun d => ClearbitClient.isValidDomain d = true) (ResearchSpec.cachedDomains w).

(** The mock reports the domain as not found. *)
Definition mockNotFound (domain : string) : bool :=
  existsb (fun d => JsString.includes (JsString.toLowerCase domain) d)
          ClearbitClient.notFoundDomains.
End PipelineSpec.

(** *** Batch research *)

Module BatchSpec.
(** A program that, as long as every world it meets satisfies [I], ends with
    a value satisfying [Q] or throws an exception satisfying [E]. *)
Fixpoint safe {A : Type} (I : World.t → Prop) (Q : A → Prop) (E : exn → Prop)
    (p : Prog A) : Prop :=
  match p with
  | Ret a => Q a
  | Throw e => E e
  | Vis o k => ∀ w, I w → safe I Q E (k (World.handle o w).1)
  end.

(** The database answers, and the contacts of the batch exist. *)
Definition ready (ids : list string) (w : World.t) : Prop :=
  calm w ∧ ∀ id, id ∈ ids → is_Some (World.contacts (World.db w) !! id).

(** The outcome of the research of one contact of the batch. *)
Definition outcomeOf (c : BatchContact.t) (r : ResearchResult.t) : Prop :=
  ResearchResult.domain r = ResearchSpec.normalize (BatchContact.companyDomain c)
  ∧ ResearchResult.status r
    = (if ResearchResult.success r then ResearchStatus.complete else ResearchStatus.failed).

(** Every window but the last has [n] elements, and the last has at most [n]
    and at least one. *)
Fixpoint fixedSize {A : Type} (n : nat) (ws : list (list A)) : Prop :=
  match ws with
  | [] => True
  | [last] => (0 < List.length last ≤ n)%nat
  | win :: ws' => List.length win = n ∧ fixedSize n ws'
  end.
End BatchSpec.

(** *** Examples *)

Module Examples.
Import Fixtures DeliverySpec ResearchSpec.

Definition nobody : ContactWithResearchInfo.t :=
  ContactWithResearchInfo.mk
    (Contact.mk "" "" "" None None None None None None None ResearchStatus.na) false.
Definition john : CreateContactInput.t :=
  CreateContactInput.mk "john@gmail.com" (Some "John") None None None None None.
Definition odd : CreateContactInput.t :=
  CreateContactInput.mk "user@company.c0" None None None None None None.
Definition ghost : CreateContactInput.t :=
  CreateContactInput.mk "ceo@unknown-domain.com" None None None None None None.
(** A user with a queued and two sent emails, and an email of someone else. *)
Definition outbox : World.t :=
  World.with_db
    (fun _ => World.mkDb {["c1" := contact0 "ada@acme.com"]} []
        (list_to_map
           [("1", Email.mk "1" "u1" "c1" "A" "a" None EmailStatus.queued None None);
            ("2", Email.mk "2" "u1" "c1" "B" "b" None EmailStatus.sent (Some "m2") (Some 2));
            ("3", Email.mk "3" "u1" "c1" "C" "c" None EmailStatus.sent (Some "m3") (Some 3));
            ("4", Email.mk "4" "u2" "c1" "D" "d" None EmailStatus.draft None None)]))
    world0.
Definition team : list BatchContact.t :=
  [BatchContact.mk "c1" "stripe.com"; BatchContact.mk "c2" "Unknown-Domain.com";
   BatchContact.mk "c3" "acme.io"; BatchContact.mk "c4" "stripe.com"].
Definition office : World.t :=
  World.with_db
    (fun _ => World.mkDb
        (list_to_map ((fun c => (BatchContact.id c,
                                 Contact.mk (BatchContact.id c) "u1" "x@y.zz" None None None None
                                            None None (Some (BatchContact.companyDomain c))
                                            ResearchStatus.pending)) <$> team))
        [] ∅)
    world0.
End Examples.


(** ** What a run leaves behind *)

Module Trace.
(** The domains asked of the Clearbit endpoint, oldest first. *)
Definition requests (w : World.t) : list string :=
  omap (fun e => match e with World.HttpGet d => Some d | _ => None end) (World.events w).

(** The messages handed to the mail client, oldest first. *)
Definition mailsOut (w : World.t) : list SgMail.msg :=
  omap (fun e => match e with World.MailOut m => Some m | _ => None end) (World.events w).

(** The pauses taken, oldest first. *)
Definition pauses (w : World.t) : list Z :=
  omap (fun e => match e with World.Slept ms => Some ms | _ => None end) (World.events w).
End Trace.

Module EnrichmentSpec.
(** An optional text column that is either [null] or a non-empty string. *)
Definition filled (x : option string) : Prop := x ≠ Some "".

(** [error.response?.status] *)
Definition httpStatus (e : exn) : option Z :=
  match e with
  | AxiosError status _ => status
  | _ => None
  end.
End EnrichmentSpec.

(** ** services/research.service.ts, the cache lookup *)

Module ResearchCache.
Import JsString.

(** Get company research by domain (cache lookup only, no API call). *)
Definition getCompanyResearch (domain : string) : Prog (option CompanyResearch.t) :=
  let normalizedDomain := trim (toLowerCase domain) in
  await (companyResearch_findUnique normalizedDomain).

End ResearchCache.

Module OrchestratorSpec.
(** The world after a status write that succeeds. *)
Definition written (id : string) (st : ResearchStatus.t) (c : Contact.t) (w : World.t)
  : World.t :=
  World.with_db
    (World.set_contacts (<[id := Contact.with_researchStatus st c]> (World.contacts (World.db w))))
    (World.next_query w).

End OrchestratorSpec.

Module MailSpec.
(** The text of the failure the mail client reported: the first error of the
    response body when it has one, the message of the exception otherwise. *)
Definition reported (e : exn) : string :=
  match e with
  | ResponseError _ (Some m) => if String.eqb m "" then exn_message e else m
  | _ => exn_message e
  end.

(** What leaves the database, the faults to come and the pending work as
    they were. *)
Definition quiet (w w' : World.t) : Prop :=
  World.db w' = World.db w
  ∧ World.faults (World.oracle w') = World.faults (World.oracle w)
  ∧ World.tasks w' = World.tasks w.
End MailSpec.

(** The two halves of [sendSavedEmail] that its properties are stated about:
    what it does once the guards have passed, and the handler of its
    [catch]. *)
Module DeliverySteps.
Import JsString EmailService.

(** The recipient line handed to the mail client. *)
Definition recipient (email : Email.t) (contact : Contact.t) : SendEmailParams.t :=
  SendEmailParams.mk (Contact.email contact)
    (truthy (Some (join " " (omap truthy [Contact.firstName contact;
                                          Contact.lastName contact]))))
    (Email.subject email) (Email.bodyText email) (truthy (Email.bodyHtml email)).

Definition deliver (env : Env.t) (emailId : string) (email : Email.t) (contact : Contact.t)
  : Prog SendEmailResponse.t :=
  (* Update status to queued before sending *)
  let* _ := await (email_update emailId (status_only EmailStatus.queued)) in
  (* Send the email *)
  let* sendResult := SendGrid.sendEmail env (recipient email contact) in
  if SendEmailResult.success sendResult then
    (* Update email as sent *)
    let* now := await Date_now in
    let* updatedEmail :=
      await (email_update emailId
               (Email.mkPatch (Some EmailStatus.sent) (Some now)
                  (Some (truthy (SendEmailResult.messageId sendResult))))) in
    Ret (SendEmailResponse.mk true
           (Some (SentInfo.mk (Email.id updatedEmail) (Email.status updatedEmail)
                    (Email.sentAt updatedEmail)
                    (Email.sendgridMessageId updatedEmail)))
           None
           (SendEmailResult.mockMode sendResult))
  else
    (* Update email as failed *)
    let* _ := await (email_update emailId (status_only EmailStatus.failed)) in
    Ret (SendEmailResponse.failure
           (default "Failed to send email" (truthy (SendEmailResult.error sendResult)))).

Definition recover (emailId : string) (error : exn) : Prog SendEmailResponse.t :=
  let* _ := console_error ("[EmailService] Error sending email: " +:+ exn_message error) in
  (* Try to update status to failed *)
  let* _ :=
    try_catch
      (let* _ := await (email_update emailId (status_only EmailStatus.failed)) in Ret tt)
      (fun _ => Ret tt (* Ignore update errors *)) in
  Ret (SendEmailResponse.failure (exn_message error)).

(** The guards of [sendSavedEmail], in their order: the message of the first
    one that refuses the email. *)
Definition refusal (email : Email.t) (contact : Contact.t) : option string :=
  let status := Email.status email in
  if bool_decide (status = EmailStatus.sent) || bool_decide (status = EmailStatus.delivered)
  then Some "Email has already been sent"
  else if bool_decide (status ≠ EmailStatus.draft)
          && bool_decide (status ≠ EmailStatus.queued)
          && bool_decide (status ≠ EmailStatus.failed)
  then Some ("Cannot send email with status: " +:+ EmailStatus.name status)
  else if String.eqb (Contact.email contact) ""
  then Some "Contact does not have an email address"
  else None.

(** What the response tells of a row. *)
Definition info (row : Email.t) : SentInfo.t :=
  SentInfo.mk (Email.id row) (Email.status row) (Email.sentAt row)
              (Email.sendgridMessageId row).

(** The row of an email with the columns of [data] overwritten, in the
    table. *)
Definition updated (id : string) (data : Email.patch) (e : Email.t) (w : World.t) : World.t :=
  World.with_db (World.set_emails (<[id := Email.apply data e]> (World.emails (World.db w))))
                (World.next_query w).

Definition unreachable : exn := Error "Can't reach database server".

(** What every call of [sendSavedEmail] guarantees of its response and of
    the world it leaves: no table but the emails is written, and there only
    the row of the email; at most one message goes to the mail client; a
    database that answers keeps answering; the response is a failure with
    an error, or a success, and then the email is stored as [sent]. *)
Definition settled (options : SendEmailOptions.t) (w : World.t)
    (r : SendEmailResponse.t) (w' : World.t) : Prop :=
  World.contacts (World.db w') = World.contacts (World.db w)
  ∧ World.companyResearch (World.db w') = World.companyResearch (World.db w)
  ∧ (∀ j, j ≠ SendEmailOptions.emailId options →
          World.emails (World.db w') !! j = World.emails (World.db w) !! j)
  ∧ (∃ ms, Trace.mailsOut w' = Trace.mailsOut w ++ ms ∧ (List.length ms ≤ 1)%nat)
  ∧ (calm w → calm w')
  ∧ ((SendEmailResponse.success r = false
      ∧ SendEmailResponse.email r = None
      ∧ is_Some (SendEmailResponse.error r))
     ∨ (SendEmailResponse.success r = true
        ∧ SendEmailResponse.error r = None
        ∧ ∃ row c, DeliverySpec.stored options row c w'
                   ∧ Email.status row = EmailStatus.sent
                   ∧ is_Some (Email.sentAt row)
                   ∧ SendEmailResponse.email r = Some (info row))).
End DeliverySteps.

(** ** services/email.service.ts, the batch *)

Module BatchItem.
Record t : Type := mk { emailId : string; success : bool; error : option string }.
End BatchItem.

Module BatchReport.
Record t : Type := mk { success : Z; failed : Z; results : list BatchItem.t }.
End BatchReport.

Module EmailBatch.
Section WithEnv.
Context (env : Env.t).

(** The loop [for (const emailId of emailIds)], with [results], [success]
    and [failed] as they stand when it is entered. *)
Fixpoint sendEach (emailIds : list string) (userId : string)
    (results : list BatchItem.t) (success failed : Z) : Prog BatchReport.t :=
  match emailIds with
  | [] => Ret (BatchReport.mk success failed results)
  | emailId :: emailIds' =>
      let* result := EmailService.sendSavedEmail env (SendEmailOptions.mk emailId userId) in
      let results :=
        results ++ [BatchItem.mk emailId (SendEmailResponse.success result)
                                 (SendEmailResponse.error result)] in
      if SendEmailResponse.success result
      then sendEach emailIds' userId results (success + 1) failed
      else sendEach emailIds' userId results success (failed + 1)
  end.

(** Send multiple emails (batch operation). *)
Definition sendBatchEmails (emailIds : list string) (userId : string) : Prog BatchReport.t :=
  sendEach emailIds userId [] 0 0.

End WithEnv.
End EmailBatch.

Module EmailBatchSpec.
(** The number of items of a report that succeeded, and that failed. *)
Definition succeeded (items : list BatchItem.t) : Z :=
  Z.of_nat (List.length (List.filter BatchItem.success items)).
Definition failures (items : list BatchItem.t) : Z :=
  Z.of_nat (List.length (List.filter (fun i => negb (BatchItem.success i)) items)).

(** The item of an email that was refused because it had been sent. *)
Definition refused (i : BatchItem.t) : Prop :=
  BatchItem.success i = false ∧ BatchItem.error i = Some "Email has already been sent".

(** The emails of [ids] are stored as [sent], and belong to the user. *)
Definition sentRows (userId : string) (ids : list string) (w : World.t) : Prop :=
  ∀ id, id ∈ ids →
    ∃ row c, DeliverySpec.stored (SendEmailOptions.mk id userId) row c w
             ∧ Email.status row = EmailStatus.sent.

(** Every item about an email of [sent], or about an email an earlier item
    reports as sent, is a refusal. *)
Fixpoint once (sent : list string) (items : list BatchItem.t) : Prop :=
  match items with
  | [] => True
  | i :: items' =>
      (BatchItem.emailId i ∈ sent → refused i)
      ∧ once (if BatchItem.success i then BatchItem.emailId i :: sent else sent) items'
  end.
End EmailBatchSpec.

(** ** Requests

    A request handler awaits its calls one after the other: it is a function
    from the world to an outcome and the world it leaves, and [run] makes a
    program one. *)

Definition Async (A : Type) : Type := World.t → Outcome A * World.t.

Module Async.
Definition ret {A : Type} (a : A) : Async A := fun w => (Fulfilled a, w).

Definition throw {A : Type} (e : exn) : Async A := fun w => (Rejected e, w).

Definition bind {A B : Type} (m : Async A) (f : A → Async B) : Async B :=
  fun w =>
    match m w with
    | (Fulfilled a, w') => f a w'
    | (Rejected e, w') => (Rejected e, w')
    end.

(** [try { m } catch (e) { h e }] *)
Definition try_catch {A : Type} (m : Async A) (h : exn → Async A) : Async A :=
  fun w =>
    match m w with
    | (Fulfilled a, w') => (Fulfilled a, w')
    | (Rejected e, w') => h e w'
    end.

(** One awaited call on the Prisma client. *)
Definition query {R : Type} (q : World.t → (exn + R) * World.t) : Async R :=
  fun w =>
    match World.prisma w q with
    | (inr r, w') => (Fulfilled r, w')
    | (inl e, w') => (Rejected e, w')
    end.
End Async.

Notation "'let!' x ':=' m 'in' f" := (Async.bind m (fun x => f))
  (at level 10, x name, m at level 100, f at level 200,
   format "'[v' 'let!'  x  ':='  m  'in' '/' f ']'").

(** ** services/contacts.service.ts, reading and changing contacts *)

Module UpdateContactInput.
(** Each field is [None] when the input leaves it [undefined]. *)
Record t : Type := mk {
  firstName : option string;
  lastName : option string;
  title : option string;
  company : option string;
  phone : option string;
  notes : option string
}.
End UpdateContactInput.

Module ContactData.
(** The [data] argument of [prisma.contact.update] in [updateContact]. *)
Record t : Type := mk {
  firstName : option string;
  lastName : option string;
  title : option string;
  company : option string;
  phone : option string;
  notes : option string
}.

Definition apply (data : t) (c : Contact.t) : Contact.t :=
  Contact.mk (Contact.id c) (Contact.userId c) (Contact.email c)
    (firstName data) (lastName data) (title data) (company data) (phone data) (notes data)
    (Contact.companyDomain c) (Contact.researchStatus c).
End ContactData.

(** The queries of the contacts service, on a database that answers. *)
Module ContactQueries.

(** [contact.findFirst({ where: { id, userId } })] *)
Definition findFirst (id userId : string) (w : World.t) : (exn + option Contact.t) * World.t :=
  (inr match World.contacts (World.db w) !! id with
       | Some c => if String.eqb (Contact.userId c) userId then Some c else None
       | None => None
       end, w).

(** [contact.update({ where: { id }, data })] *)
Definition update (id : string) (data : ContactData.t) (w : World.t)
  : (exn + Contact.t) * World.t :=
  match World.contacts (World.db w) !! id with
  | None => (inl (Error "Record to update not found."), w)
  | Some c =>
      let row := ContactData.apply data c in
      (inr row, World.with_db (World.set_contacts (<[id := row]> (World.contacts (World.db w)))) w)
  end.

(** [contact.delete({ where: { id } })]. The emails of the contact go with
    it: their foreign key is declared ON DELETE CASCADE. *)
Definition delete (id : string) (w : World.t) : (exn + Contact.t) * World.t :=
  match World.contacts (World.db w) !! id with
  | None => (inl (Error "Record to delete does not exist."), w)
  | Some c =>
      (inr c,
       World.with_db
         (fun d => World.mkDb (base.delete id (World.contacts d)) (World.companyResearch d)
                     (filter (fun kv => Email.contactId kv.2 ≠ id) (World.emails d)))
         w)
  end.

(** [contact.count({ where: { userId } })] *)
Definition count (userId : string) (w : World.t) : (exn + Z) * World.t :=
  (inr (Z.of_nat (List.length
          (List.filter (fun c => String.eqb (Contact.userId c) userId)
                       (World.rows (World.contacts (World.db w)))))), w).

End ContactQueries.

Module ContactsCrud.
Import JsString ContactsService.

(** Get a single contact by ID (must belong to user). *)
Definition getContactById (userId contactId : string) : Async (option Contact.t) :=
  Async.query (ContactQueries.findFirst contactId userId).

(** [input.field !== undefined ? input.field?.trim() || null : existing.field] *)
Definition changed (field existing : option string) : option string :=
  match field with
  | Some v => trimmedOrNull (Some v)
  | None => existing
  end.

(** Update a contact (only non-email fields - email is immutable). *)
Definition updateContact (userId contactId : string) (input : UpdateContactInput.t)
  : Async (option Contact.t) :=
  (* First verify contact belongs to user *)
  let! existing := getContactById userId contactId in
  match existing with
  | None => Async.ret None
  | Some existing =>
      let! row :=
        Async.query
          (ContactQueries.update contactId
             (ContactData.mk
                (changed (UpdateContactInput.firstName input) (Contact.firstName existing))
                (changed (UpdateContactInput.lastName input) (Contact.lastName existing))
                (changed (UpdateContactInput.title input) (Contact.title existing))
                (changed (UpdateContactInput.company input) (Contact.company existing))
                (changed (UpdateContactInput.phone input) (Contact.phone existing))
                (changed (UpdateContactInput.notes input) (Contact.notes existing)))) in
      Async.ret (Some row)
  end.

(** Delete a contact (must belong to user). *)
Definition deleteContact (userId contactId : string) : Async bool :=
  (* First verify contact belongs to user *)
  let! existing := getContactById userId contactId in
  match existing with
  | None => Async.ret false
  | Some _ =>
      let! _ := Async.query (ContactQueries.delete contactId) in
      Async.ret true
  end.

(** Get contacts count for a user. *)
Definition getContactsCount (userId : string) : Async Z :=
  Async.query (ContactQueries.count userId).

End ContactsCrud.

Module CrudSpec.
(** The contact [id] exists and belongs to [userId]. *)
Definition owns (userId id : string) (c : Contact.t) (w : World.t) : Prop :=
  World.contacts (World.db w) !! id = Some c ∧ Contact.userId c = userId.

(** No contact [id] exists, or it belongs to someone else. *)
Definition foreign (userId id : string) (w : World.t) : Prop :=
  ∀ c, World.contacts (World.db w) !! id = Some c → Contact.userId c ≠ userId.

(** A text field after an update: kept when the input leaves it undefined,
    trimmed when the input gives it, and [null] when nothing is left. *)
Definition keptOrTrimmed (given existing result : option string) : Prop :=
  match given with
  | None => result = existing
  | Some v =>
      result = if String.eqb (JsString.trim v) "" then None else Some (JsString.trim v)
  end.

(** The number of contacts of a user. *)
Definition contactCount (userId : string) (w : World.t) : Z :=
  Z.of_nat (List.length
    (List.filter (fun c => String.eqb (Contact.userId c) userId)
                 (World.rows (World.contacts (World.db w))))).
End CrudSpec.

(** ** HTTP responses *)

Module Http.
(** What a handler hands to [res.json]. *)
Inductive Body : Type :=
| ErrorCode (message code : string)            (* { error: { message, code } } *)
| ErrorText (error : option string)            (* { error } *)
| ContactCreated (message : string) (contact : ContactWithResearchInfo.t)
| ContactFound (contact : Contact.t)
| ContactUpdated (message : string) (contact : Contact.t)
| Message (message : string)
| EmailSent (message : string) (email : option SentInfo.t) (mockMode : bool)
| BatchSent (message : string) (success failed : Z) (results : list BatchItem.t).

(** [res.status(status).json(body)]; [res.json(body)] answers 200. *)
Record Response : Type := mk { status : Z; body : Body }.

Definition json (body : Body) : Response := mk 200 body.
End Http.

(** ** controllers/contacts.controller.ts *)

Module ContactsController.
Import ContactsService ContactsCrud.

(** [res.status(status).json({ error: { message, code } })] *)
Definition fail (status : Z) (message code : string) : Async Http.Response :=
  Async.ret (Http.mk status (Http.ErrorCode message code)).

(** POST /contacts: create a new contact. An [email] that is missing from
    the body and an empty one are the same to [!input.email]. Whatever is
    thrown here is an [Error], so [message] is its message. *)
Definition createContactHandler (userId : string) (input : CreateContactInput.t)
  : Async Http.Response :=
  Async.try_catch
    ((* Validate required field *)
     if String.eqb (CreateContactInput.email input) "" then
       fail 400 "Email is required" "VALIDATION_ERROR"
     else
       let! contact := run (createContact userId input) in
       Async.ret (Http.mk 201 (Http.ContactCreated "Contact created successfully" contact)))
    (fun error =>
       let message := exn_message error in
       (* Handle specific errors *)
       if String.eqb message "Invalid email address" then fail 400 message "INVALID_EMAIL"
       else if String.eqb message "Contact with this email already exists"
       then fail 400 message "DUPLICATE_EMAIL"
       else
         let! _ := run (console_error ("Create contact error: " +:+ exn_message error)) in
         fail 500 "Failed to create contact" "INTERNAL_ERROR").

(** GET /contacts/:id: get a single contact by ID. *)
Definition getContactHandler (userId id : string) : Async Http.Response :=
  Async.try_catch
    (let! contact := getContactById userId id in
     match contact with
     | None => fail 404 "Contact not found" "NOT_FOUND"
     | Some contact => Async.ret (Http.json (Http.ContactFound contact))
     end)
    (fun error =>
       let! _ := run (console_error ("Get contact error: " +:+ exn_message error)) in
       fail 500 "Failed to get contact" "INTERNAL_ERROR").

(** PUT /contacts/:id: update a contact (email cannot be changed).
    [hasEmail] is ['email' in req.body]. *)
Definition updateContactHandler (userId id : string) (hasEmail : bool)
    (input : UpdateContactInput.t) : Async Http.Response :=
  Async.try_catch
    ((* Check if trying to update email (not allowed) *)
     if hasEmail then
       fail 400 "Email cannot be changed. Delete and create a new contact instead."
            "EMAIL_IMMUTABLE"
     else
       let! contact := updateContact userId id input in
       match contact with
       | None => fail 404 "Contact not found" "NOT_FOUND"
       | Some contact =>
           Async.ret (Http.json (Http.ContactUpdated "Contact updated successfully" contact))
       end)
    (fun error =>
       let! _ := run (console_error ("Update contact error: " +:+ exn_message error)) in
       fail 500 "Failed to update contact" "INTERNAL_ERROR").

(** DELETE /contacts/:id: delete a contact. *)
Definition deleteContactHandler (userId id : string) : Async Http.Response :=
  Async.try_catch
    (let! deleted := deleteContact userId id in
     if negb deleted then fail 404 "Contact not found" "NOT_FOUND"
     else Async.ret (Http.json (Http.Message "Contact deleted successfully")))
    (fun error =>
       let! _ := run (console_error ("Delete contact error: " +:+ exn_message error)) in
       fail 500 "Failed to delete contact" "INTERNAL_ERROR").

End ContactsController.

(** ** routes/emails.routes.ts, sending *)

Module EmailRoutes.
Import JsString.
Section WithEnv.
Context (env : Env.t).

(** [result.error?.includes(text)] *)
Definition mentions (error : option string) (text : string) : bool :=
  match error with
  | Some m => includes m text
  | None => false
  end.

(** POST /api/emails/:emailId/send: send a saved email to its contact. A
    rejection is what the handler passes to [next]. *)
Definition send (userId : option string) (emailId : string) : Async Http.Response :=
  match truthy userId with
  | None => Async.ret (Http.mk 401 (Http.ErrorText (Some "Authentication required")))
  | Some userId =>
      let! result := run (EmailService.sendSavedEmail env (SendEmailOptions.mk emailId userId)) in
      if negb (SendEmailResponse.success result) then
        let error := SendEmailResponse.error result in
        let statusCode :=
          if mentions error "not found" || mentions error "access denied" then 404
          else if mentions error "already been sent" then 409
          else 500 in
        Async.ret (Http.mk statusCode (Http.ErrorText error))
      else
        Async.ret
          (Http.json
             (Http.EmailSent
                (if bool_decide (SendEmailResponse.mockMode result = Some true)
                 then "Email sent successfully (mock mode - SendGrid not configured)"
                 else "Email sent successfully")
                (SendEmailResponse.email result)
                (bool_decide (SendEmailResponse.mockMode result = Some true))))
  end.

(** POST /api/emails/send-batch: send multiple emails at once. [emailIds]
    is [None] when the body has no array under that name. *)
Definition sendBatch (userId : option string) (emailIds : option (list string))
  : Async Http.Response :=
  match truthy userId with
  | None => Async.ret (Http.mk 401 (Http.ErrorText (Some "Authentication required")))
  | Some userId =>
      match emailIds with
      | None | Some [] =>
          Async.ret (Http.mk 400 (Http.ErrorText
                       (Some "emailIds array is required and must not be empty")))
      | Some emailIds =>
          (* Limit batch size *)
          if 50 <? Z.of_nat (List.length emailIds) then
            Async.ret (Http.mk 400 (Http.ErrorText
                         (Some "Maximum 50 emails can be sent in a single batch")))
          else
            let! result := run (EmailBatch.sendBatchEmails env emailIds userId) in
            Async.ret
              (Http.json
                 (Http.BatchSent
                    ("Sent " +:+ ofZ (BatchReport.success result) +:+ " emails, "
                     +:+ ofZ (BatchReport.failed result) +:+ " failed")
                    (BatchReport.success result) (BatchReport.failed result)
                    (BatchReport.results result)))
      end
  end.

End WithEnv.
End EmailRoutes.

(** *** Addresses *)

Module AddressSpec.
Import JsString Regex EmailUtils.

(** Lower-casing takes the strings of [r] to strings of [r']. *)
Definition lowers (r r' : regex) : Prop :=
  ∀ s, Matches r s → Matches r' (toLowerCase s).

(** The part of [emailRegex] after the [@]. *)
Definition hostPart : regex := Cat hostLabel (Plus (Cat (Class isDot) hostLabel)).

(** Neither white space nor [@]. *)
Definition plainChar (c : ascii) : bool := negb (isWhiteSpace c) && negb (Ascii.eqb c "@").
End AddressSpec.


(** * Properties *)

(** ** Regular expressions *)


Module RegexFacts.
Import JsString Regex RegexSpec.

Lemma nullable_sound r : nullable r = true → Matches r "".
Proof.
  induction r as [| |p|r1 IH1 r2 IH2|r1 IH1 r2 IH2|r1 IH1]; simpl; intros H;
    try discriminate.
  - constructor.
  - apply andb_true_iff in H as [H1 H2].
    change "" with ("" +:+ ""). constructor; auto.
  - apply orb_true_iff in H as [H|H]; [apply MAltL|apply MAltR]; auto.
  - constructor.
Qed.

Lemma deriv_sound r : ∀ c s, Matches (deriv c r) s → Matches r (String c s).
Proof.
  induction r as [| |p|r1 IH1 r2 IH2|r1 IH1 r2 IH2|r1 IH1]; intros c s H; simpl in H.
  - inversion H.
  - inversion H.
  - destruct (p c) eqn:Hp; inversion H; subst. by constructor.
  - assert (∀ s, Matches (Cat (deriv c r1) r2) s → Matches (Cat r1 r2) (String c s)) as Hcat.
    { intros s0 H0. inversion H0 as [| |? ? s1 s2 Ha Hb| | | |]; subst.
      change (String c (s1 +:+ s2)) with (String c s1 +:+ s2).
      constructor; auto. }
    destruct (nullable r1) eqn:Hn; [|by apply Hcat].
    inversion H; subst; [by apply Hcat|].
    change (String c s) with ("" +:+ String c s).
    constructor; [by apply nullable_sound|auto].
  - inversion H; subst; [apply MAltL|apply MAltR]; auto.
  - inversion H as [| |? ? s1 s2 Ha Hb| | | |]; subst.
    change (String c (s1 +:+ s2)) with (String c s1 +:+ s2).
    constructor; auto.
Qed.

(** A string accepted by the matcher is in the language of the expression. *)
Lemma test_sound r s : test r s = true → Matches r s.
Proof.
  revert r. induction s as [|c s IH]; intros r H; simpl in H.
  - by apply nullable_sound.
  - apply deriv_sound. by apply IH.
Qed.

Lemma append_empty_inv (s1 s2 : string) : s1 +:+ s2 = "" → s1 = "" ∧ s2 = "".
Proof. destruct s1; simpl; [done|discriminate]. Qed.

Lemma nullable_complete r s : Matches r s → s = "" → nullable r = true.
Proof.
  induction 1 as [|p c Hp|r1 r2 s1 s2 _ IH1 _ IH2|r1 r2 s _ IH|r1 r2 s _ IH
                  |r|r s1 s2 _ IH1 _ IH2]; simpl; intros Hs; try done.
  - apply append_empty_inv in Hs as [-> ->]. by rewrite IH1, IH2.
  - by rewrite IH.
  - rewrite IH by done. apply orb_true_r.
Qed.

Lemma deriv_complete r s0 :
  Matches r s0 → ∀ c s, s0 = String c s → Matches (deriv c r) s.
Proof.
  induction 1 as [|p a Hp|r1 r2 s1 s2 H1 IH1 H2 IH2|r1 r2 s' _ IH|r1 r2 s' _ IH
                  |r|r s1 s2 H1 IH1 H2 IH2]; intros c s Hs; simpl.
  - discriminate.
  - injection Hs as <- <-. rewrite Hp. constructor.
  - destruct s1 as [|a s1'].
    + simpl in Hs. rewrite (nullable_complete r1 "" H1 eq_refl).
      apply MAltR. by apply IH2.
    + simpl in Hs. injection Hs as -> <-.
      assert (Matches (Cat (deriv c r1) r2) (s1' +:+ s2)) as Hcat.
      { constructor; [by apply IH1|done]. }
      destruct (nullable r1); [by apply MAltL|done].
  - apply MAltL. by apply IH.
  - apply MAltR. by apply IH.
  - discriminate.
  - destruct s1 as [|a s1'].
    + simpl in Hs. by apply IH2.
    + simpl in Hs. injection Hs as -> <-.
      constructor; [by apply IH1|done].
Qed.

(** The matcher accepts every string of the language. *)
Lemma test_complete r s : Matches r s → test r s = true.
Proof.
  revert r. induction s as [|c s IH]; intros r H; simpl.
  - by apply (nullable_complete r "").
  - apply IH. by apply (deriv_complete r (String c s)).
Qed.

(** [test] decides the language of the expression. *)
Lemma test_Matches r s : test r s = true ↔ Matches r s.
Proof. split; [apply test_sound|apply test_complete]. Qed.

Lemma allChars_app ok s1 s2 :
  allChars ok (s1 +:+ s2) = allChars ok s1 && allChars ok s2.
Proof. induction s1 as [|c s1 IH]; simpl; [done|]. by rewrite IH, andb_assoc. Qed.

Lemma Matches_alphabet ok r s :
  Matches r s → classesWithin ok r → allChars ok s = true.
Proof.
  induction 1 as [|p c Hp|r1 r2 s1 s2 _ IH1 _ IH2|r1 r2 s _ IH|r1 r2 s _ IH
                  |r|r s1 s2 _ IH1 _ IH2]; simpl; intros Hr.
  - done.
  - by rewrite (Hr c Hp).
  - rewrite allChars_app, IH1, IH2; tauto.
  - apply IH; tauto.
  - apply IH; tauto.
  - done.
  - rewrite allChars_app, IH1, IH2; tauto.
Qed.

Lemma trimStart_head c s : isWhiteSpace c = false → trimStart (String c s) = String c s.
Proof. intros H. simpl. by rewrite H. Qed.

Lemma trimEnd_no_space s :
  allChars (fun c => negb (isWhiteSpace c)) s = true → trimEnd s = s.
Proof.
  induction s as [|c s IH]; simpl; [done|].
  intros [Hc Hs]%andb_true_iff. rewrite (IH Hs).
  destruct s; [|done]. by destruct (isWhiteSpace c).
Qed.

Lemma trimStart_no_space s :
  allChars (fun c => negb (isWhiteSpace c)) s = true → trimStart s = s.
Proof.
  destruct s as [|c s]; [done|]. simpl.
  intros [Hc _]%andb_true_iff. by destruct (isWhiteSpace c).
Qed.

Lemma trim_no_space s :
  allChars (fun c => negb (isWhiteSpace c)) s = true → trim s = s.
Proof.
  intros H. unfold trim. rewrite trimEnd_no_space by done.
  destruct s as [|c s]; [done|]. simpl in *.
  apply andb_true_iff in H as [Hc _]. by destruct (isWhiteSpace c).
Qed.

Lemma toLowerCase_fixed s :
  allChars (fun c => Ascii.eqb (lowerChar c) c) s = true → toLowerCase s = s.
Proof.
  induction s as [|c s IH]; simpl; [done|].
  intros [Hc%Ascii.eqb_eq Hs]%andb_true_iff. by rewrite Hc, IH.
Qed.

Lemma allChars_impl (ok ok' : ascii → bool) s :
  (∀ c, ok c = true → ok' c = true) → allChars ok s = true → allChars ok' s = true.
Proof.
  intros Himp. induction s as [|c s IH]; simpl; [done|].
  intros [Hc Hs]%andb_true_iff. by rewrite (Himp c Hc), IH.
Qed.

End RegexFacts.

Module NormalFacts.
Import JsString Regex RegexSpec RegexFacts EmailUtils.

Lemma domainRegex_alphabet : classesWithin domainChar domainRegex.
Proof.
  simpl. repeat split; intros c Hc; unfold domainChar, lowerAlnumDash in *;
    rewrite ?Hc, ?orb_true_r; reflexivity.
Qed.

Lemma domainChar_plain c :
  domainChar c = true → isWhiteSpace c = false ∧ lowerChar c = c.
Proof. destruct c as [[] [] [] [] [] [] [] []]; vm_compute; intros; split; congruence. Qed.

(** A domain accepted by [domainRegex] has no white space. *)
Lemma domainRegex_no_space d :
  test domainRegex d = true → allChars (fun c => negb (isWhiteSpace c)) d = true.
Proof.
  intros H. apply test_sound in H.
  apply (Matches_alphabet domainChar) in H; [|apply domainRegex_alphabet].
  revert H. apply allChars_impl.
  intros c Hc. by destruct (domainChar_plain c Hc) as [-> _].
Qed.

(** A domain accepted by [domainRegex] is its own normal form. *)
Lemma domainRegex_normal d : test domainRegex d = true → trim (toLowerCase d) = d.
Proof.
  intros H. pose proof (domainRegex_no_space d H) as Hns. apply test_sound in H.
  apply (Matches_alphabet domainChar) in H; [|apply domainRegex_alphabet].
  rewrite toLowerCase_fixed.
  - by apply trim_no_space.
  - revert H. apply allChars_impl.
    intros c Hc. destruct (domainChar_plain c Hc) as [_ ->]. apply Ascii.eqb_refl.
Qed.

End NormalFacts.

(** ** The domain classifier *)

Module ClassifierFacts.
Import JsString Regex EmailUtils ClassifierSpec RegexFacts NormalFacts.


Lemma lastIndexOf_from_afterLast c s : ∀ i f,
  match afterLast c s with
  | None => lastIndexOf_from s c i f = f
  | Some r =>
      ∃ n : nat, lastIndexOf_from s c i f = i + Z.of_nat n ∧ drop (S n) s = r
                 ∧ (n < String.length s)%nat
  end.
Proof.
  induction s as [|a s IH]; intros i f; simpl; [done|].
  specialize (IH (i + 1) (if Ascii.eqb a c then i else f)).
  destruct (afterLast c s) as [r|].
  - destruct IH as (n & -> & Hd & Hn). exists (S n). split_and!; [lia|done|lia].
  - rewrite IH. destruct (Ascii.eqb a c); [|done].
    exists 0%nat. split_and!; [lia|done|lia].
Qed.

Lemma lowerChar_at c : Ascii.eqb (lowerChar c) "@" = Ascii.eqb c "@".
Proof. destruct c as [[] [] [] [] [] [] [] []]; reflexivity. Qed.

Lemma isWhiteSpace_lowerChar c : isWhiteSpace (lowerChar c) = isWhiteSpace c.
Proof. destruct c as [[] [] [] [] [] [] [] []]; reflexivity. Qed.

Lemma afterLast_toLowerCase s :
  afterLast "@" (toLowerCase s) = toLowerCase <$> afterLast "@" s.
Proof.
  induction s as [|a s IH]; simpl; [done|].
  rewrite IH. destruct (afterLast "@" s); simpl; [done|].
  rewrite lowerChar_at. by destruct (Ascii.eqb a "@").
Qed.

Lemma toLowerCase_trimStart s : toLowerCase (trimStart s) = trimStart (toLowerCase s).
Proof.
  induction s as [|a s IH]; simpl; [done|].
  rewrite isWhiteSpace_lowerChar. by destruct (isWhiteSpace a).
Qed.

Lemma afterLast_trimStart c s :
  isWhiteSpace c = false → afterLast c (trimStart s) = afterLast c s.
Proof.
  intros Hc. induction s as [|a s IH]; simpl; [done|].
  destruct (isWhiteSpace a) eqn:Ha; [|done].
  rewrite IH. destruct (afterLast c s); [done|].
  destruct (Ascii.eqb_spec a c); [congruence|done].
Qed.

Lemma afterLast_trimEnd c s :
  isWhiteSpace c = false → afterLast c (trimEnd s) = trimEnd <$> afterLast c s.
Proof.
  intros Hc. induction s as [|a s IH]; simpl; [done|].
  destruct (trimEnd s) as [|b t] eqn:Ht.
  - simpl in IH. destruct (afterLast c s) as [r|] eqn:Hr; simpl in *.
    + done.
    + destruct (isWhiteSpace a) eqn:Ha; simpl.
      * destruct (Ascii.eqb_spec a c); [congruence|done].
      * destruct (Ascii.eqb a c); simpl; by rewrite ?Ht.
  - simpl. simpl in IH. rewrite IH.
    destruct (afterLast c s) as [r|] eqn:Hr; simpl; [done|].
    destruct (Ascii.eqb a c); simpl; by rewrite ?Ht.
Qed.

Lemma extractDomain_unfold e :
  extractDomain e =
    let t := toLowerCase (trim e) in
    let i := lastIndexOf t "@" in
    if (i =? -1) || (i =? 0) || (i =? JsString.length t - 1) then None
    else if negb (includes (substring t (i + 1)) ".") then None
    else if negb (test domainRegex (substring t (i + 1))) then None
    else Some (substring t (i + 1)).
Proof.
  unfold extractDomain. destruct (String.eqb_spec e ""); [subst; reflexivity|done].
Qed.

Lemma extractDomain_malformed e : malformed e ↔ extractDomain e = None.
Proof.
  rewrite extractDomain_unfold. unfold malformed. cbv zeta.
  set (t := toLowerCase (trim e)). set (i := lastIndexOf t "@").
  destruct (Z.eqb_spec i (-1)); simpl; [tauto|].
  destruct (Z.eqb_spec i 0); simpl; [tauto|].
  destruct (Z.eqb_spec i (JsString.length t - 1)); simpl; [tauto|].
  destruct (includes (substring t (i + 1)) "."); simpl; [|tauto].
  destruct (test domainRegex (substring t (i + 1))); simpl; [|tauto].
  split; [|done]. intros [?|[?|[?|[?|?]]]]; done.
Qed.

Lemma extractDomain_Some e d :
  extractDomain e = Some d → includes d "." = true ∧ test domainRegex d = true.
Proof.
  rewrite extractDomain_unfold. cbv zeta.
  destruct (_ || _); [done|].
  destruct (includes _ _) eqn:Hi; simpl; [|done].
  destruct (test domainRegex _) eqn:Hre; simpl; [|done].
  by intros [= <-].
Qed.

Lemma extractDomain_domainPart e d : extractDomain e = Some d → d = domainPart e.
Proof.
  rewrite extractDomain_unfold. cbv zeta.
  set (t := toLowerCase (trim e)). set (i := lastIndexOf t "@").
  destruct (Z.eqb_spec i (-1)) as [|Hi]; simpl; [done|].
  destruct (_ || _); [done|].
  destruct (includes _ _); simpl; [|done].
  destruct (test domainRegex _) eqn:Hre; simpl; [|done].
  intros [= Hd]. rewrite Hd in Hre.
  pose proof (lastIndexOf_from_afterLast "@" t 0 (-1)) as Hl.
  fold (lastIndexOf t "@") in Hl. fold i in Hl.
  assert (afterLast "@" t = toLowerCase <$> (trimEnd <$> afterLast "@" e)) as Ht.
  { unfold t, trim. rewrite afterLast_toLowerCase, afterLast_trimStart, afterLast_trimEnd; done. }
  rewrite Ht in Hl. unfold domainPart.
  destruct (afterLast "@" e) as [r|]; [|done].
  destruct Hl as (n & Hn & Hdrop & _).
  assert (d = toLowerCase (trimEnd r)) as Hsub.
  { rewrite <- Hd. unfold substring. rewrite Hn.
    replace (Z.to_nat (0 + Z.of_nat n + 1)) with (S n) by lia. done. }
  change (default "" (Some r)) with r.
  unfold trim. rewrite toLowerCase_trimStart, <- Hsub.
  symmetry. apply trimStart_no_space. by apply domainRegex_no_space.
Qed.

Lemma isBusinessEmail_unfold e :
  isBusinessEmail e =
    match extractDomain e with
    | Some d => negb (nonBusinessDomain d)
    | None => false
    end.
Proof.
  unfold isBusinessEmail, nonBusinessDomain.
  destruct (extractDomain e) as [d|] eqn:He; [|done].
  apply extractDomain_Some in He as [Hdot _].
  destruct d as [|c d']; [done|].
  destruct (has _ _); simpl; [done|].
  destruct (_ || _ || _); simpl; [done|].
  destruct (_ || _ || _); simpl; done.
Qed.

(** C6. For every address that is not malformed, [extractDomain] returns the
    lower-cased, trimmed text after the last [@], and [isBusinessEmail] is
    true when that domain is neither on the personal denylist nor under an
    educational or government suffix. For every address whose domain is on
    the denylist or under such a suffix, [isBusinessEmail] is false. For a
    malformed address (no [@], [@] at position 0 or at the end, no dot in the
    domain, or a domain failing the domain-character expression)
    [extractDomain] returns null and [isBusinessEmail] is false. *)
Theorem classify_correct :
  (∀ e, ¬ malformed e →
        extractDomain e = Some (domainPart e)
        ∧ (nonBusinessDomain (domainPart e) = false → isBusinessEmail e = true))
  ∧ (∀ e, nonBusinessDomain (domainPart e) = true → isBusinessEmail e = false)
  ∧ (∀ e, malformed e → extractDomain e = None ∧ isBusinessEmail e = false).
Proof.
  split_and!.
  - intros e Hwf. rewrite extractDomain_malformed in Hwf.
    destruct (extractDomain e) as [d|] eqn:He; [|done].
    pose proof (extractDomain_domainPart _ _ He) as ->. split; [done|].
    intros Hb. by rewrite isBusinessEmail_unfold, He, Hb.
  - intros e Hb. rewrite isBusinessEmail_unfold.
    destruct (extractDomain e) as [d|] eqn:He; [|done].
    pose proof (extractDomain_domainPart _ _ He) as ->. by rewrite Hb.
  - intros e Hm. rewrite extractDomain_malformed in Hm.
    by rewrite isBusinessEmail_unfold, Hm.
Qed.

End ClassifierFacts.

(** ** Running programs *)

Module RunFacts.

Lemma run_bind {A B} (p : Prog A) (f : A → Prog B) w :
  run (bind p f) w =
    match run p w with
    | (Fulfilled a, w') => run (f a) w'
    | (Rejected e, w') => (Rejected e, w')
    end.
Proof.
  revert w. induction p as [a|e|R o k IH]; intros w; simpl; [done|done|].
  destruct (World.handle o w) as [r w']. apply IH.
Qed.

Lemma run_try_catch {A} (p : Prog A) (h : exn → Prog A) w :
  run (try_catch p h) w =
    match run p w with
    | (Fulfilled a, w') => (Fulfilled a, w')
    | (Rejected e, w') => run (h e) w'
    end.
Proof.
  revert w. induction p as [a|e|R o k IH]; intros w; simpl; [done|done|].
  destruct (World.handle o w) as [r w']. apply IH.
Qed.

Lemma run_await {R} (o : Op R) w :
  run (await o) w =
    match World.handle o w with
    | (inr v, w') => (Fulfilled v, w')
    | (inl e, w') => (Rejected e, w')
    end.
Proof. simpl. by destruct (World.handle o w) as [[e|v] w']. Qed.

(** A database call that is answered runs its query. *)
Lemma prisma_answers {R} (w : World.t) (q : World.t → (exn + R) * World.t) :
  answers w → World.prisma w q = q (World.next_query w).
Proof. intros H. unfold World.prisma. by rewrite bool_decide_false. Qed.

Lemma next_query_db w : World.db (World.next_query w) = World.db w.
Proof. done. Qed.

Lemma calm_answers w : calm w → answers w.
Proof.
  unfold calm, answers. destruct (World.faults (World.oracle w)) as [|b l]; [done|].
  intros H. inversion H; subst. done.
Qed.

Lemma calm_next_query w : calm w → calm (World.next_query w).
Proof.
  unfold calm. simpl. destruct (World.faults (World.oracle w)) as [|b l]; [done|].
  intros H. by inversion H.
Qed.

End RunFacts.

Module ContactFacts.
Import JsString Regex EmailUtils ContactsService RunFacts.

Lemma contact_create_fulfilled data w c w' :
  run (await (contact_create data)) w = (Fulfilled c, w') →
  c = Contact.create (Contact.id c) data
  ∧ World.contacts (World.db w') !! Contact.id c = Some c.
Proof.
  rewrite run_await. cbn [World.handle].
  unfold World.prisma. case_bool_decide; [done|].
  unfold World.do_contact_create. cbv zeta. destruct (_ || _); [done|].
  intros [= <- <-]. simpl. split; [done|]. apply lookup_insert_eq.
Qed.

Lemma toLowerCase_nonempty s : s ≠ "" → toLowerCase s ≠ "".
Proof. by destruct s. Qed.

Lemma normalizeEmail_nonempty e ne : normalizeEmail e = Some ne → ne ≠ "".
Proof.
  unfold normalizeEmail, isValidEmail.
  destruct (String.eqb e ""); [done|].
  destruct (test emailRegex (trim e)) eqn:Ht; [|done].
  intros [= <-]. apply toLowerCase_nonempty. intros Hnil. by rewrite Hnil in Ht.
Qed.

Lemma rows_elem_of {A} (m : gmap string A) x : x ∈ World.rows m → ∃ i, m !! i = Some x.
Proof.
  unfold World.rows. intros ([i y] & -> & Hin)%list_elem_of_fmap.
  exists i. by apply elem_of_map_to_list.
Qed.

Lemma find_rows_none {A} (f : A → bool) (m : gmap string A) :
  (∀ i x, m !! i = Some x → f x = false) → List.find f (World.rows m) = None.
Proof.
  intros Hf. destruct (List.find f (World.rows m)) as [x|] eqn:Hfind; [|done].
  apply find_some in Hfind as [Hin Hx]. apply list_elem_of_In, rows_elem_of in Hin as [i Hi].
  by rewrite (Hf i x Hi) in Hx.
Qed.

Lemma existsb_rows_false {A} (f : A → bool) (m : gmap string A) :
  (∀ i x, m !! i = Some x → f x = false) → existsb f (World.rows m) = false.
Proof.
  intros Hf. destruct (existsb f (World.rows m)) eqn:Hex; [|done].
  apply existsb_exists in Hex as (x & Hin & Hx).
  apply list_elem_of_In, rows_elem_of in Hin as [i Hi]. by rewrite (Hf i x Hi) in Hx.
Qed.

(** [createContact] goes through for an address [normalizeEmail] accepts
    that the caller does not hold yet, when the database answers its two
    calls and the generated id is fresh. *)
Lemma createContact_succeeds userId input w ne :
  normalizeEmail (CreateContactInput.email input) = Some ne →
  calm w →
  (∀ id c, World.contacts (World.db w) !! id = Some c →
           Contact.userId c = userId → Contact.email c ≠ ne) →
  World.contacts (World.db w) !! ("c" +:+ JsString.ofZ (World.nextId w)) = None →
  ∃ r w', run (createContact userId input) w = (Fulfilled r, w').
Proof.
  intros Hne Hcalm Hnew Hfresh. unfold createContact. rewrite Hne.
  pose proof (normalizeEmail_nonempty _ _ Hne) as Hnonempty.
  destruct ne as [|a ne']; [done|]. cbn [truthy]. set (ne := String a ne') in *.
  assert (∀ i c, World.contacts (World.db w) !! i = Some c →
                 String.eqb (Contact.userId c) userId && String.eqb (Contact.email c) ne
                 = false) as Hfree.
  { intros i c Hc. destruct (String.eqb_spec (Contact.userId c) userId) as [Hu|]; [|done].
    cbn [andb]. apply String.eqb_neq. by apply (Hnew i c). }
  rewrite run_bind, run_await. cbn [World.handle].
  rewrite prisma_answers by (by apply calm_answers).
  unfold World.do_contact_findUnique. rewrite next_query_db, (find_rows_none _ _ Hfree).
  cbn [run]. rewrite run_bind, run_await. cbn [World.handle].
  rewrite prisma_answers by (by apply calm_answers, calm_next_query).
  unfold World.do_contact_create. cbv zeta.
  cbn [World.nextId World.next_query World.with_oracle World.with_nextId World.db
       World.contacts Contact.userId Contact.email].
  rewrite bool_decide_false by (rewrite Hfresh; by intros [? ?]).
  rewrite (existsb_rows_false _ _ Hfree). cbn [orb]. rewrite run_bind.
  destruct (isBusinessEmail ne), (truthy (extractDomain ne)); by eexists _, _.
Qed.

(** C4. A contact that [createContact] returns carries the normalized
    address; its research status is [na] exactly when that address is not
    classified business, and its company domain is set exactly when the
    address is classified business with an extracted domain. A business
    contact starts [pending] with the extracted domain; a personal one has
    no company domain and status [na]. The row is stored as returned. And
    contacts are created: for an address [normalizeEmail] accepts that the
    caller does not hold yet, business or personal, [createContact] returns
    a contact when the database answers and the generated id is fresh. *)
Theorem createContact_classification userId input w :
  (∀ r w',
     run (createContact userId input) w = (Fulfilled r, w') →
     let c := ContactWithResearchInfo.contact r in
     let business := isBusinessEmail (Contact.email c) in
     normalizeEmail (CreateContactInput.email input) = Some (Contact.email c)
     ∧ ContactWithResearchInfo.isBusinessContact r = business
     ∧ (Contact.researchStatus c = ResearchStatus.na ↔ business = false)
     ∧ (is_Some (Contact.companyDomain c)
        ↔ business = true ∧ is_Some (extractDomain (Contact.email c)))
     ∧ (business = true →
        Contact.researchStatus c = ResearchStatus.pending
        ∧ Contact.companyDomain c = extractDomain (Contact.email c))
     ∧ (business = false →
        Contact.companyDomain c = None
        ∧ Contact.researchStatus c = ResearchStatus.na)
     ∧ World.contacts (World.db w') !! Contact.id c = Some c)
  ∧ (∀ ne,
       normalizeEmail (CreateContactInput.email input) = Some ne →
       calm w →
       (∀ id c, World.contacts (World.db w) !! id = Some c →
                Contact.userId c = userId → Contact.email c ≠ ne) →
       World.contacts (World.db w) !! ("c" +:+ JsString.ofZ (World.nextId w)) = None →
       ∃ r w', run (createContact userId input) w = (Fulfilled r, w')
               ∧ Contact.userId (ContactWithResearchInfo.contact r) = userId
               ∧ Contact.email (ContactWithResearchInfo.contact r) = ne).
Proof.
  assert (∀ r w',
     run (createContact userId input) w = (Fulfilled r, w') →
     let c := ContactWithResearchInfo.contact r in
     let business := isBusinessEmail (Contact.email c) in
     (normalizeEmail (CreateContactInput.email input) = Some (Contact.email c)
      ∧ ContactWithResearchInfo.isBusinessContact r = business
      ∧ (Contact.researchStatus c = ResearchStatus.na ↔ business = false)
      ∧ (is_Some (Contact.companyDomain c)
         ↔ business = true ∧ is_Some (extractDomain (Contact.email c)))
      ∧ (business = true →
         Contact.researchStatus c = ResearchStatus.pending
         ∧ Contact.companyDomain c = extractDomain (Contact.email c))
      ∧ (business = false →
         Contact.companyDomain c = None
         ∧ Contact.researchStatus c = ResearchStatus.na)
      ∧ World.contacts (World.db w') !! Contact.id c = Some c)
     ∧ Contact.userId c = userId) as Hreturned.
  { intros r w'. unfold createContact.
    destruct (normalizeEmail (CreateContactInput.email input)) as [ne|] eqn:Hne;
      [|done].
    destruct ne as [|a ne']; [done|]. cbn [truthy].
    set (ne := String a ne') in *.
    rewrite run_bind.
    destruct (run (await (contact_findUnique userId ne)) w) as [[[dup|]|e] w1]; [done| |done].
    rewrite run_bind.
    match goal with |- context [run (await (contact_create ?d)) w1] => set (data := d) end.
    destruct (run (await (contact_create data)) w1) as [[c|e] w2] eqn:Hc; [|done].
    apply contact_create_fulfilled in Hc as [Hc Hstored].
    rewrite run_bind.
    assert (∃ w3, World.db w3 = World.db w2 ∧
       run match isBusinessEmail ne, truthy (extractDomain ne) with
          | true, Some domain => await (detach (AutoResearch (Contact.id c) domain ne))
          | _, _ => Ret tt
          end w2 = (Fulfilled tt, w3)) as (w3 & Hdb & ->).
    { destruct (isBusinessEmail ne), (truthy (extractDomain ne)); simpl;
        (eexists; split; [|reflexivity]; done). }
    simpl. intros [= <- <-]. simpl. rewrite Hdb.
    rewrite Hc in *. unfold Contact.create, data in *. simpl in *.
    assert (isBusinessEmail ne = true → is_Some (extractDomain ne)) as Hdom.
    { unfold isBusinessEmail. destruct (extractDomain ne); [eauto|done]. }
    destruct (isBusinessEmail ne) eqn:Hb; simpl.
    - split; [|done]. split_and!; try done; try tauto.
    - split; [|done]. split_and!; try done. split; [intros []; done|]. intros [? _]; done. }
  split.
  - intros r w' Hrun. by destruct (Hreturned r w' Hrun).
  - intros ne Hne Hcalm Hnew Hfresh.
    destruct (createContact_succeeds userId input w ne Hne Hcalm Hnew Hfresh)
      as (r & w' & Hrun).
    exists r, w'. split; [done|].
    destruct (Hreturned r w' Hrun) as [(Hne' & _) Hu]. split; [done|].
    rewrite Hne in Hne'. by injection Hne'.
Qed.
End ContactFacts.

(** ** Email statistics *)

Module StatsFacts.
Import EmailService RunFacts StatsSpec.

Lemma name_inj s1 s2 : EmailStatus.name s1 = EmailStatus.name s2 → s1 = s2.
Proof. destruct s1, s2; simpl; intros H; try reflexivity; discriminate H. Qed.

Lemma name_not_total s : EmailStatus.name s ≠ "total".
Proof. destruct s; discriminate. Qed.

(** One turn of the loop: [total] grows by the count; the key of the group is
    overwritten if it is there; no key appears or disappears. *)
Lemma countGroup_lookup (acc : gmap string Z) g :
  is_Some (acc !! EmailStatus.name g.1) →
  countGroup acc g !! "total" = Some (default 0 (acc !! "total") + g.2)
  ∧ (∀ s, countGroup acc g !! EmailStatus.name s =
          if decide (s = g.1) then Some g.2 else acc !! EmailStatus.name s)
  ∧ (is_Some (acc !! "total") → dom (countGroup acc g) = dom acc).
Proof.
  intros Hk. unfold countGroup. cbv zeta.
  rewrite bool_decide_true.
  2:{ rewrite lookup_insert_ne; [done|]. intros H. by apply (name_not_total g.1). }
  split_and!.
  - rewrite lookup_insert_ne by apply name_not_total. by rewrite lookup_insert_eq.
  - intros s. destruct (decide (s = g.1)) as [->|Hne].
    + by rewrite lookup_insert_eq.
    + rewrite lookup_insert_ne by (intros H; apply Hne; symmetry; by apply name_inj).
      rewrite lookup_insert_ne; [done|]. intros H. by apply (name_not_total s).
  - intros Ht. rewrite !dom_insert_L.
    apply elem_of_dom in Hk, Ht.
    apply set_eq. intros k. rewrite !elem_of_union, !elem_of_singleton.
    split; [intros [->|[->|?]]; done|tauto].
Qed.

Lemma fold_countGroup gs : ∀ acc : gmap string Z,
  (∀ s, is_Some (acc !! EmailStatus.name s)) → is_Some (acc !! "total") →
  let r := fold_left countGroup gs acc in
  r !! "total" = Some (default 0 (acc !! "total") + sumZ gs.*2)
  ∧ (∀ s, r !! EmailStatus.name s =
          fold_left (fun v g => if decide (s = g.1) then Some g.2 else v) gs
                    (acc !! EmailStatus.name s))
  ∧ dom r = dom acc.
Proof.
  induction gs as [|g gs IH]; intros acc Hkeys Ht; cbn [fold_left].
  - cbv zeta. split_and!; [|done|done]. destruct Ht as [t ->]. simpl. f_equal. lia.
  - destruct (countGroup_lookup acc g (Hkeys _)) as (Htot & Hs & Hdom).
    specialize (Hdom Ht).
    destruct (IH (countGroup acc g)) as (IHt & IHs & IHd).
    { intros s. rewrite Hs. destruct (decide _); [eauto|apply Hkeys]. }
    { rewrite Htot. eauto. }
    cbv zeta. split_and!.
    + rewrite IHt, Htot. simpl. f_equal. unfold sumZ. simpl.
      rewrite Z.add_assoc. reflexivity.
    + intros s. rewrite IHs, Hs. done.
    + by rewrite IHd.
Qed.

Lemma fold_groups (s : EmailStatus.t) (cnt : EmailStatus.t → Z) (l : list EmailStatus.t) :
  ∀ v,
  fold_left (fun v g => if decide (s = g.1) then Some g.2 else v)
    (omap (fun s' => if 0 <? cnt s' then Some (s', cnt s') else None) l) v
  = if bool_decide (s ∈ l) && (0 <? cnt s) then Some (cnt s) else v.
Proof.
  induction l as [|a l IH]; intros v; [done|].
  assert (s ≠ a → bool_decide (s ∈ a :: l) = bool_decide (s ∈ l)) as Hother.
  { intros Hne. apply bool_decide_ext. rewrite elem_of_cons. tauto. }
  assert (bool_decide (a ∈ a :: l) = true) as Hhere.
  { apply bool_decide_eq_true. apply elem_of_cons. by left. }
  cbn [omap list_omap]. destruct (0 <? cnt a) eqn:Ha; cbn [fold_left].
  - rewrite IH. simpl. destruct (decide (s = a)) as [->|Hne].
    + rewrite Ha, Hhere. simpl. by destruct (bool_decide _).
    + by rewrite Hother.
  - rewrite IH. destruct (decide (s = a)) as [->|Hne].
    + rewrite Ha, !andb_false_r. done.
    + by rewrite Hother.
Qed.

Lemma sum_groups (cnt : EmailStatus.t → Z) (l : list EmailStatus.t) :
  (∀ s, 0 ≤ cnt s) →
  sumZ (omap (fun s' => if 0 <? cnt s' then Some (s', cnt s') else None) l).*2
  = sumZ (cnt <$> l).
Proof.
  intros Hpos. induction l as [|a l IH]; [done|].
  cbn [omap list_omap]. rewrite fmap_cons. unfold sumZ in *.
  destruct (Z.ltb_spec 0 (cnt a)).
  - rewrite fmap_cons. cbn [fold_right]. by rewrite IH.
  - cbn [fold_right]. rewrite IH. specialize (Hpos a). lia.
Qed.

Lemma all_complete s : s ∈ EmailStatus.all.
Proof.
  destruct s; unfold EmailStatus.all;
    repeat first [apply list_elem_of_here | apply list_elem_of_further].
Qed.

Lemma emailCount_nonneg userId s w : 0 ≤ emailCount userId s w.
Proof. unfold emailCount. lia. Qed.

Lemma initialStats_keys :
  (∀ s, initialStats !! EmailStatus.name s = Some 0)
  ∧ initialStats !! "total" = Some 0.
Proof. split; [intros []|]; reflexivity. Qed.

Lemma dom_initialStats : dom initialStats ∖ {["queued"]} = reportedKeys.
Proof. vm_compute. reflexivity. Qed.

(** C3, as the code has it. The result of [getEmailStats] has exactly the keys
    [total], [draft], [sent], [delivered], [opened], [clicked], [bounced] and
    [failed]: each status other than [queued] maps to the number of the
    user's emails in it (0 when there is none), [total] counts every email
    of the user, the queued ones included, and there is no [queued] key. *)
Theorem getEmailStats_keys userId w stats w' :
  run (getEmailStats userId) w = (Fulfilled stats, w') →
  (∀ s, s ≠ EmailStatus.queued →
        stats !! EmailStatus.name s = Some (emailCount userId s w))
  ∧ stats !! "queued" = None
  ∧ stats !! "total" = Some (sumZ ((fun s => emailCount userId s w) <$> EmailStatus.all))
  ∧ dom stats = reportedKeys
  ∧ World.db w' = World.db w.
Proof.
  unfold getEmailStats. rewrite run_bind, run_await. cbn [World.handle].
  unfold World.prisma. case_bool_decide; [done|].
  unfold World.do_email_groupBy_status. cbn [run]. intros [= <- <-].
  rewrite next_query_db.
  destruct initialStats_keys as [Hinit Htot].
  destruct (fold_countGroup (World.groupByStatus userId (World.emails (World.db w))) initialStats)
    as (Ht & Hs & Hd).
  { intros s. rewrite Hinit. eauto. }
  { rewrite Htot. eauto. }
  split_and!; [| | | |done].
  - intros s Hq. rewrite lookup_delete_ne by (by destruct s).
    rewrite Hs, Hinit. unfold World.groupByStatus.
    rewrite (fold_groups s (fun s => emailCount userId s w)).
    rewrite bool_decide_true by apply all_complete. simpl.
    fold (emailCount userId s w).
    pose proof (emailCount_nonneg userId s w).
    destruct (Z.ltb_spec 0 (emailCount userId s w)); f_equal; lia.
  - apply lookup_delete_eq.
  - rewrite lookup_delete_ne by done. rewrite Ht, Htot. simpl. f_equal.
    unfold World.groupByStatus.
    apply (sum_groups (fun s => emailCount userId s w)).
    intros s. apply emailCount_nonneg.
  - rewrite dom_delete_L, Hd. apply dom_initialStats.
Qed.

(** C3, as stated, fails: for a user without emails the result has no
    [queued] key. *)
Lemma getEmailStats_queued_missing :
  ¬ (∀ userId w stats w',
       run (getEmailStats userId) w = (Fulfilled stats, w') →
       ∀ s, is_Some (stats !! EmailStatus.name s)).
Proof.
  intros H.
  specialize (H "u1" Fixtures.world0
                _ _ eq_refl EmailStatus.queued).
  vm_compute in H. destruct H as [x H]. discriminate H.
Qed.

End StatsFacts.

(** ** Delivery *)


Module DeliveryFacts.
Import JsString EmailService RunFacts DeliverySpec.

(** The lookup of a stored email of the caller. *)
Lemma findFirst_stored options e c w :
  stored options e c w → answers w →
  run (await (email_findFirst (SendEmailOptions.emailId options)
                              (SendEmailOptions.userId options))) w
  = (Fulfilled (Some (e, c)), World.next_query w).
Proof.
  intros (He & Hu & Hc) Hans. rewrite run_await. cbn [World.handle].
  rewrite prisma_answers by done.
  unfold World.do_email_findFirst.
  rewrite next_query_db, He, Hu, String.eqb_refl. simpl. by rewrite Hc.
Qed.

(** What [sendSavedEmail] does before it writes anything. *)
Lemma sendSavedEmail_guards env options e c w :
  stored options e c w → answers w →
  let status := Email.status e in
  ∀ msg,
  (if bool_decide (status = EmailStatus.sent) || bool_decide (status = EmailStatus.delivered)
   then Some "Email has already been sent"
   else if bool_decide (status ≠ EmailStatus.draft)
           && bool_decide (status ≠ EmailStatus.queued)
           && bool_decide (status ≠ EmailStatus.failed)
   then Some ("Cannot send email with status: " +:+ EmailStatus.name status)
   else if String.eqb (Contact.email c) ""
   then Some "Contact does not have an email address"
   else None) = Some msg →
  run (sendSavedEmail env options) w
  = (Fulfilled (SendEmailResponse.failure msg), World.next_query w).
Proof.
  intros Hst Hans status msg Hmsg.
  unfold sendSavedEmail.
  rewrite run_try_catch, run_bind, (findFirst_stored options e c w Hst Hans).
  fold status.
  destruct (bool_decide (status = EmailStatus.sent) || bool_decide (status = EmailStatus.delivered)).
  { injection Hmsg as <-. done. }
  destruct (bool_decide (status ≠ EmailStatus.draft)
           && bool_decide (status ≠ EmailStatus.queued)
           && bool_decide (status ≠ EmailStatus.failed)).
  { injection Hmsg as <-. done. }
  destruct (String.eqb (Contact.email c) ""); [|done].
  injection Hmsg as <-. done.
Qed.

(** C1, as the code has it. Sending a stored email whose status is [sent] or
    [delivered] fails with "Email has already been sent"; for [opened],
    [clicked] and [bounced] it fails with "Cannot send email with status: ..."
    instead. In all five cases nothing is written: the email keeps its
    status, [sentAt] and provider message id. *)
Theorem sendSavedEmail_after_sent env options e c w :
  stored options e c w → answers w →
  Email.status e ∈ terminalSent →
  ∃ w',
    run (sendSavedEmail env options) w
    = (Fulfilled (SendEmailResponse.failure
         (if bool_decide (Email.status e ∈ [EmailStatus.sent; EmailStatus.delivered])
          then "Email has already been sent"
          else "Cannot send email with status: " +:+ EmailStatus.name (Email.status e))),
       w')
    ∧ World.db w' = World.db w
    ∧ World.emails (World.db w') !! SendEmailOptions.emailId options = Some e.
Proof.
  intros Hst Hans Hterm. exists (World.next_query w).
  split; [|split; [done|apply Hst]].
  apply (sendSavedEmail_guards env options e c w Hst Hans).
  unfold terminalSent in Hterm. rewrite !elem_of_cons, elem_of_nil in Hterm.
  destruct Hterm as [->|[->|[->|[->|[->|[]]]]]]; reflexivity.
Qed.

(** C1, as stated, fails: an [opened] email is refused with the invalid-state
    message, not with the already-sent one. *)
Lemma sendSavedEmail_opened_is_invalid_state :
  ¬ (∀ env options e c w,
       stored options e c w → answers w → Email.status e ∈ terminalSent →
       ∃ r w', run (sendSavedEmail env options) w = (Fulfilled r, w')
               ∧ alreadySentError r = true).
Proof.
  intros H.
  destruct (H Fixtures.env0 options0 (email0 EmailStatus.opened) (contact0 "ada@acme.com")
              (mailbox EmailStatus.opened "ada@acme.com")) as (r & w' & Hrun & Herr).
  - split_and!; reflexivity.
  - vm_compute. discriminate.
  - unfold terminalSent. rewrite !elem_of_cons. tauto.
  - vm_compute in Hrun. injection Hrun as <- _. vm_compute in Herr. discriminate Herr.
Qed.

(** C7, as the code has it. Sending a stored email whose contact has an empty
    address always fails and writes nothing; when the email is in a sendable
    state ([draft], [queued], [failed]) the error is "Contact does not have an
    email address", and the status is not advanced to [queued]. *)
Theorem sendSavedEmail_missing_recipient env options e c w :
  stored options e c w → answers w →
  Contact.email c = "" →
  (∃ r w', run (sendSavedEmail env options) w = (Fulfilled r, w')
           ∧ SendEmailResponse.success r = false
           ∧ World.db w' = World.db w)
  ∧ (Email.status e ∈ sendable →
     ∃ w', run (sendSavedEmail env options) w
           = (Fulfilled (SendEmailResponse.failure "Contact does not have an email address"), w')
           ∧ World.db w' = World.db w
           ∧ World.emails (World.db w') !! SendEmailOptions.emailId options = Some e).
Proof.
  intros Hst Hans Hemp.
  pose proof (sendSavedEmail_guards env options e c w Hst Hans) as Hg.
  cbv zeta in Hg. rewrite Hemp in Hg. split.
  - destruct (Email.status e);
      (eexists _, (World.next_query w); split; [apply Hg; reflexivity|done]).
  - intros Hs. exists (World.next_query w). split; [|split; [done|apply Hst]].
    apply Hg. unfold sendable in Hs. rewrite !elem_of_cons, elem_of_nil in Hs.
    destruct Hs as [->|[->|[->|[]]]]; reflexivity.
Qed.

(** C7, as stated, fails: a [sent] email whose contact has an empty address is
    refused with the already-sent message. *)
Lemma sendSavedEmail_sent_without_recipient :
  ¬ (∀ env options e c w,
       stored options e c w → answers w → Contact.email c = "" →
       ∃ r w', run (sendSavedEmail env options) w = (Fulfilled r, w')
               ∧ missingRecipientError r = true).
Proof.
  intros H.
  destruct (H Fixtures.env0 options0 (email0 EmailStatus.sent) (contact0 "")
              (mailbox EmailStatus.sent "")) as (r & w' & Hrun & Herr).
  - split_and!; reflexivity.
  - vm_compute. discriminate.
  - reflexivity.
  - vm_compute in Hrun. injection Hrun as <- _. vm_compute in Herr. discriminate Herr.
Qed.

End DeliveryFacts.

(** ** The enrichment client and the research orchestrator *)

Module ClearbitFacts.
Import JsString ClearbitClient RunFacts ResearchSpec.

Lemma enrichCompany_invalid this domain :
  isValidDomain domain = false →
  enrichCompany this domain
  = Ret (failure EnrichmentError.INVALID_DOMAIN ("Invalid domain format: " +:+ domain)).
Proof. intros H. unfold enrichCompany. by rewrite H. Qed.

Lemma enrichCompany_mock this domain :
  isValidDomain domain = true → useMock this = true →
  enrichCompany this domain = Ret (getMockData domain).
Proof. intros H Hm. unfold enrichCompany. by rewrite H, Hm. Qed.

Lemma getMockData_domain domain data :
  getMockData domain = EnrichmentSuccess data → CompanyData.domain data = domain.
Proof.
  unfold getMockData. destruct (existsb _ _); [done|]. by intros [= <-].
Qed.

Lemma callClearbitApi_run this domain w :
  ∃ r w', run (callClearbitApi this domain) w = (Fulfilled r, w')
          ∧ client_frame w w'
          ∧ ∀ data, r = EnrichmentSuccess data → CompanyData.domain data = domain.
Proof.
  unfold callClearbitApi. rewrite run_try_catch, run_bind, run_await.
  cbn [World.handle]. cbv zeta.
  destruct (World.wire (World.oracle (World.emit (World.HttpGet domain) w)))
    as [|[e|resp] rest] eqn:Hw.
  - eexists _, _. split; [reflexivity|]. split; [done|]. done.
  - cbn [run]. set (status := match e with AxiosError st _ => st | _ => None end).
    repeat (case_bool_decide || destruct (_ || _));
      (eexists _, _; split; [reflexivity|]; split; done).
  - eexists _, _. split; [reflexivity|]. split; [done|].
    by intros data [= <-].
Qed.

(** The enrichment client never throws; a success carries the domain it was
    asked about, and that domain passed [isValidDomain]. *)
Lemma enrichCompany_run this domain w :
  ∃ r w', run (enrichCompany this domain) w = (Fulfilled r, w')
          ∧ client_frame w w'
          ∧ ∀ data, r = EnrichmentSuccess data →
                    CompanyData.domain data = domain ∧ isValidDomain domain = true.
Proof.
  unfold enrichCompany. destruct (isValidDomain domain) eqn:Hv; simpl.
  - destruct (useMock this).
    + eexists _, w. split; [reflexivity|]. split; [done|].
      intros data Hd. split; [|done]. by apply getMockData_domain.
    + destruct (callClearbitApi_run this domain w) as (r & w' & Hrun & Hf & Hd).
      exists r, w'. split_and!; [done|done|]. intros data ->. split; [|done]. by apply Hd.
  - eexists _, w. split; [reflexivity|]. split; [done|]. done.
Qed.

End ClearbitFacts.

Module ResearchFacts.
Import JsString ClearbitClient ResearchService RunFacts ResearchSpec ClearbitFacts.



Lemma run_console_log line w : run (console_log line) w = (Fulfilled tt, log line w).
Proof. reflexivity. Qed.

(** [researchCompany], step by step. *)
Lemma researchCompany_run env domain w :
  let nd := normalize domain in
  run (researchCompany env domain) w =
    if bool_decide (head (World.faults (World.oracle w)) = Some true)
    then (Rejected (Error "Can't reach database server"), World.next_query w)
    else
      match World.findResearch nd (World.companyResearch (World.db w)) with
      | Some row =>
          (Fulfilled (ResearchResult.mk true nd ResearchStatus.complete (Some row) None),
           log ("[Research] Cache hit for domain: " +:+ nd) (World.next_query w))
      | None =>
          match run (enrichCompany (clearbitClient env) nd)
                    (log ("[Research] Fetching enrichment data for domain: " +:+ nd)
                         (World.next_query w)) with
          | (Fulfilled (EnrichmentFailure error), w1) =>
              (Fulfilled (ResearchResult.mk false nd ResearchStatus.failed None
                            (Some (EnrichmentError.message error))),
               log ("[Research] Enrichment failed for " +:+ nd +:+ ": "
                    +:+ EnrichmentError.message error) w1)
          | (Fulfilled (EnrichmentSuccess data), w1) =>
              match run (saveCompanyResearch data) w1 with
              | (Fulfilled row, w2) =>
                  (Fulfilled (ResearchResult.mk true nd ResearchStatus.complete (Some row) None),
                   log ("[Research] Successfully enriched domain: " +:+ nd) w2)
              | (Rejected e, w2) => (Rejected e, w2)
              end
          | (Rejected e, w1) => (Rejected e, w1)
          end
      end.
Proof.
  cbv zeta. unfold researchCompany. fold (normalize domain).
  rewrite run_bind, run_await. cbn [World.handle]. unfold World.prisma.
  case_bool_decide; [done|].
  unfold World.do_companyResearch_findUnique. rewrite next_query_db.
  destruct (World.findResearch _ _) as [row|]; [done|].
  rewrite run_bind, run_console_log, run_bind.
  destruct (run (enrichCompany _ _) _) as [[[data|error]|e] w1]; [| |done].
  - rewrite run_bind. destruct (run (saveCompanyResearch data) w1) as [[row|e] w2]; done.
  - done.
Qed.

Lemma saveCompanyResearch_run data w :
  run (saveCompanyResearch data) w =
    if bool_decide (head (World.faults (World.oracle w)) = Some true)
    then (Rejected (Error "Can't reach database server"), World.next_query w)
    else
      let '(row, table) :=
        World.upsertResearch (World.clock w) data (World.companyResearch (World.db w)) in
      (Fulfilled row,
       World.with_db (World.set_companyResearch table) (World.next_query w)).
Proof.
  unfold saveCompanyResearch. rewrite run_await. cbn [World.handle]. unfold World.prisma.
  case_bool_decide; [done|]. unfold World.do_companyResearch_upsert. simpl.
  by destruct (World.upsertResearch _ _ _).
Qed.

(** The upsert writes one row for the domain of the data: it replaces the row
    of that domain if there is one, and adds a row otherwise. *)
Lemma upsertResearch_spec now data table :
  let '(row, table') := World.upsertResearch now data table in
  CompanyResearch.domain row = CompanyData.domain data
  ∧ World.findResearch (CompanyData.domain data) table' = Some row
  ∧ CompanyResearch.domain <$> table'
    = if bool_decide (CompanyData.domain data ∈ CompanyResearch.domain <$> table)
      then CompanyResearch.domain <$> table
      else (CompanyResearch.domain <$> table) ++ [CompanyData.domain data].
Proof.
  induction table as [|r table IH]; cbn [World.upsertResearch].
  - unfold World.findResearch, CompanyResearch.domain. simpl.
    rewrite String.eqb_refl. split_and!; done.
  - destruct (String.eqb_spec (CompanyResearch.domain r) (CompanyData.domain data)) as [Heq|Hne].
    + unfold World.findResearch. cbn [List.find]. unfold CompanyResearch.domain at 1 2.
      cbn [CompanyResearch.data]. rewrite String.eqb_refl. split_and!; [done|done|].
      rewrite !fmap_cons.
      rewrite bool_decide_true by (rewrite Heq; apply list_elem_of_here).
      unfold CompanyResearch.domain at 1. cbn [CompanyResearch.data]. by rewrite Heq.
    + destruct (World.upsertResearch now data table) as [row table'].
      destruct IH as (Hd & Hf & Hdom). split_and!; [done| |].
      * unfold World.findResearch in *. cbn [List.find].
        destruct (String.eqb_spec (CompanyResearch.domain r) (CompanyData.domain data)); done.
      * rewrite !fmap_cons, Hdom.
        assert (bool_decide (CompanyData.domain data ∈ CompanyResearch.domain r :: (CompanyResearch.domain <$> table))
                = bool_decide (CompanyData.domain data ∈ CompanyResearch.domain <$> table)) as ->.
        { apply bool_decide_ext. rewrite elem_of_cons.
          split; [intros [?|?]; [congruence|done]|tauto]. }
        by destruct (bool_decide _).
Qed.

Lemma upsertResearch_NoDup now data table :
  NoDup (CompanyResearch.domain <$> table) →
  NoDup (CompanyResearch.domain <$> (World.upsertResearch now data table).2).
Proof.
  intros Hnd. pose proof (upsertResearch_spec now data table) as H.
  destruct (World.upsertResearch now data table) as [row table']. simpl.
  destruct H as (_ & _ & ->). case_bool_decide; [done|].
  apply NoDup_app. split_and!; [done| |apply NoDup_singleton].
  intros x Hx ->%list_elem_of_singleton. done.
Qed.


(** C5, as the code has it. [researchCompany] keeps the table at one row per
    domain, and when a call succeeds the next call for the same domain (with
    the database answering) is served from the cache: it returns the stored
    row, writes nothing and sends nothing to the provider. A call that
    returns a failure has written nothing, so nothing is cached for the next
    call. *)
Theorem researchCompany_idempotent env domain w o w1 :
  run (researchCompany env domain) w = (o, w1) →
  (NoDup (cachedDomains w) → NoDup (cachedDomains w1))
  ∧ (∀ r, o = Fulfilled r → ResearchResult.success r = true → answers w1 →
          servedFromCache env domain w1)
  ∧ (∀ r, o = Fulfilled r → ResearchResult.success r = false →
          World.db w1 = World.db w).
Proof.
  rewrite researchCompany_run. cbv zeta. set (nd := normalize domain).
  assert (∀ row w0, answers (log ("[Research] Cache hit for domain: " +:+ nd) w0) →
     World.findResearch nd (World.companyResearch (World.db w0)) = Some row →
     ∀ line, servedFromCache env domain (log line w0)) as Hserved.
  { intros row w0 Hans Hfind line. exists row. eexists.
    split; [exact Hfind|]. split.
    { rewrite researchCompany_run. cbv zeta. fold nd.
      rewrite bool_decide_false by exact Hans. simpl. rewrite Hfind. reflexivity. }
    done. }
  case_bool_decide as Hfault.
  { intros [= <- <-]. split; [done|]. split; intros r [=]. }
  destruct (World.findResearch nd _) as [row|] eqn:Hfind.
  { intros [= <- <-]. split; [done|]. split.
    - intros r _ _ Hans. by apply (Hserved row).
    - intros r [= <-] [=]. }
  destruct (enrichCompany_run (clearbitClient env) nd
    (log ("[Research] Fetching enrichment data for domain: " +:+ nd) (World.next_query w)))
    as (er & wa & -> & (Hdb & Hfaults & _) & Hdata).
  destruct er as [data|error].
  2:{ intros [= <- <-]. split; [unfold cachedDomains; simpl; by rewrite Hdb|].
      split; [intros r [= <-] [=]|]. intros r _ _. exact Hdb. }
  destruct (Hdata data eq_refl) as [Hdom _].
  rewrite saveCompanyResearch_run.
  case_bool_decide as Hfault2.
  { intros [= <- <-]. split; [unfold cachedDomains; simpl; by rewrite Hdb|].
    split; intros r [=]. }
  pose proof (upsertResearch_spec (World.clock wa) data (World.companyResearch (World.db wa))) as Hup.
  pose proof (upsertResearch_NoDup (World.clock wa) data (World.companyResearch (World.db wa))) as Hnd.
  destruct (World.upsertResearch _ _ _) as [row table]. destruct Hup as (_ & Hfind' & _).
  intros [= <- <-]. split; [|split].
  - unfold cachedDomains. simpl in *. rewrite Hdb in Hnd. exact Hnd.
  - intros r _ _ Hans. apply (Hserved row); [exact Hans|]. simpl. by rewrite <- Hdom.
  - intros r [= <-] [=].
Qed.

(** C5, as stated, fails: in mock mode the domain unknown-domain.com is not
    found, so nothing is cached and a second call is not served from the
    cache. *)
Lemma researchCompany_failure_not_cached :
  ¬ (∀ env domain w, calm w →
       servedFromCache env domain (run (researchCompany env domain) w).2).
Proof.
  intros H.
  destruct (H Fixtures.env0 "unknown-domain.com"
              Fixtures.world0)
    as (row & w' & Hfind & _).
  - constructor.
  - vm_compute in Hfind. discriminate Hfind.
Qed.

End ResearchFacts.

Module OrchestratorFacts.
Import JsString ClearbitClient ResearchService ContactsService RunFacts ResearchSpec
       ClearbitFacts ResearchFacts.

(** The status write, step by step. *)
Lemma updateContactResearchStatus_run id st w :
  run (updateContactResearchStatus id st) w =
    if bool_decide (head (World.faults (World.oracle w)) = Some true)
    then (Rejected (Error "Can't reach database server"), World.next_query w)
    else
      match World.contacts (World.db w) !! id with
      | None => (Rejected (Error "Record to update not found."), World.next_query w)
      | Some c =>
          (Fulfilled tt,
           World.with_db
             (World.set_contacts
                (<[id := Contact.with_researchStatus st c]> (World.contacts (World.db w))))
             (World.next_query w))
      end.
Proof.
  unfold updateContactResearchStatus. rewrite run_bind, run_await.
  cbn [World.handle]. unfold World.prisma. case_bool_decide; [done|].
  unfold World.do_contact_update. rewrite next_query_db.
  by destruct (World.contacts (World.db w) !! id).
Qed.




(** [researchContactCompany], step by step. *)
Lemma researchContactCompany_run env contactId domain w :
  run (researchContactCompany env contactId domain) w =
    match run (updateContactResearchStatus contactId ResearchStatus.processing) w with
    | (Rejected e, w1) => (Rejected e, w1)
    | (Fulfilled _, w1) =>
        match run (researchCompany env domain) w1 with
        | (Rejected e, w2) => run (onError contactId domain e) w2
        | (Fulfilled result, w2) =>
            match run (updateContactResearchStatus contactId
                         (if ResearchResult.success result then ResearchStatus.complete
                          else ResearchStatus.failed)) w2 with
            | (Rejected e, w3) => run (onError contactId domain e) w3
            | (Fulfilled _, w3) => (Fulfilled result, w3)
            end
        end
    end.
Proof.
  unfold researchContactCompany. rewrite run_bind.
  destruct (run (updateContactResearchStatus _ _) w) as [[[]|e] w1]; [|done].
  rewrite run_try_catch, run_bind.
  destruct (run (researchCompany env domain) w1) as [[result|e] w2]; [|done].
  rewrite run_bind.
  destruct (run (updateContactResearchStatus _ _) w2) as [[[]|e] w3]; done.
Qed.






(** When the cache has no row for the domain and enrichment fails, the
    contact ends [failed]. *)
Lemma researchContactCompany_enrichment_failure env contactId domain w c error :
  calm w →
  World.contacts (World.db w) !! contactId = Some c →
  World.findResearch (normalize domain) (World.companyResearch (World.db w)) = None →
  enrichCompany (clearbitClient env) (normalize domain) = Ret (EnrichmentFailure error) →
  ∃ w',
    run (researchContactCompany env contactId domain) w
    = (Fulfilled (ResearchResult.mk false (normalize domain) ResearchStatus.failed None
                    (Some (EnrichmentError.message error))), w')
    ∧ statusOf contactId w' = Some ResearchStatus.failed
    ∧ World.companyResearch (World.db w') = World.companyResearch (World.db w)
    ∧ World.tasks w' = World.tasks w.
Proof.
  intros Hcalm Hc Hfind Henrich.
  rewrite researchContactCompany_run, updateContactResearchStatus_run.
  rewrite bool_decide_false by (by apply calm_answers). rewrite Hc.
  set (w1 := World.with_db _ _).
  assert (calm w1) as Hcalm1 by (by apply calm_next_query).
  rewrite researchCompany_run. cbv zeta.
  rewrite bool_decide_false by (by apply calm_answers).
  change (World.companyResearch (World.db w1)) with (World.companyResearch (World.db w)).
  rewrite Hfind, Henrich. cbn [run].
  cbn [ResearchResult.success].
  rewrite updateContactResearchStatus_run.
  rewrite bool_decide_false
    by (apply calm_answers; exact (calm_next_query _ Hcalm1)).
  unfold log at 1 2. cbn [World.db World.emit]. unfold w1 at 1.
  rewrite next_query_db.
  cbn [World.db World.with_db World.contacts World.set_contacts].
  rewrite lookup_insert_eq.
  eexists. split; [reflexivity|]. unfold statusOf.
  cbn [World.db World.with_db World.contacts World.set_contacts].
  rewrite lookup_insert_eq. done.
Qed.

End OrchestratorFacts.



Module PipelineFacts.
Import JsString EmailUtils ClearbitClient ResearchService ContactsService RunFacts
       ResearchSpec ClearbitFacts ResearchFacts OrchestratorFacts PipelineSpec.
Import ClassifierFacts NormalFacts.

(** A successful [createContact], step by step. *)
Lemma createContact_fulfilled userId input w r w1 :
  run (createContact userId input) w = (Fulfilled r, w1) →
  let c := ContactWithResearchInfo.contact r in
  let ne := Contact.email c in
  normalizeEmail (CreateContactInput.email input) = Some ne
  ∧ ContactWithResearchInfo.isBusinessContact r = isBusinessEmail ne
  ∧ Contact.companyDomain c = (if isBusinessEmail ne then extractDomain ne else None)
  ∧ Contact.researchStatus c
    = (if isBusinessEmail ne then ResearchStatus.pending else ResearchStatus.na)
  ∧ World.contacts (World.db w1) !! Contact.id c = Some c
  ∧ World.companyResearch (World.db w1) = World.companyResearch (World.db w)
  ∧ World.tasks w1
    = World.tasks w
      ++ match isBusinessEmail ne, extractDomain ne with
         | true, Some d => [AutoResearch (Contact.id c) d ne]
         | _, _ => []
         end
  ∧ (calm w → calm w1).
Proof.
  unfold createContact.
  destruct (normalizeEmail (CreateContactInput.email input)) as [ne|] eqn:Hne;
    [|done].
  destruct ne as [|a ne']; [done|]. cbn [truthy].
  set (ne := String a ne') in *.
  rewrite run_bind, run_await. cbn [World.handle]. unfold World.prisma.
  case_bool_decide as Hf1; [done|]. unfold World.do_contact_findUnique.
  destruct (List.find _ _); [done|]. cbn [run].
  rewrite run_bind, run_await. cbn [World.handle]. unfold World.prisma.
  case_bool_decide as Hf2; [done|]. unfold World.do_contact_create. cbv zeta.
  destruct (_ || _); [done|].
  set (c := Contact.create _ _). set (w2 := World.with_db _ _).
  rewrite run_bind.
  assert (extractDomain ne ≠ Some "") as Hnonempty.
  { intros H. by apply extractDomain_Some in H as [? _]. }
  assert (run match isBusinessEmail ne, truthy (extractDomain ne) with
              | true, Some domain => await (detach (AutoResearch (Contact.id c) domain ne))
              | _, _ => Ret tt
              end w2
          = (Fulfilled tt,
             World.with_tasks
               (World.tasks w2 ++ match isBusinessEmail ne, extractDomain ne with
                                  | true, Some d => [AutoResearch (Contact.id c) d ne]
                                  | _, _ => []
                                  end) w2)) as ->.
  { destruct (isBusinessEmail ne), (extractDomain ne) as [[|x d]|]; try done;
      cbn [truthy run]; rewrite ?app_nil_r; by destruct w2. }
  cbn [run]. intros [= <- <-]. cbn.
  split_and!; try done.
  - apply lookup_insert_eq.
  - intros Hcalm. by do 2 apply calm_next_query.
Qed.


Lemma findResearch_domain d table row :
  World.findResearch d table = Some row → CompanyResearch.domain row = d ∧ row ∈ table.
Proof.
  unfold World.findResearch. induction table as [|r table IH]; cbn [List.find]; [done|].
  destruct (String.eqb_spec (CompanyResearch.domain r) d) as [Heq|Hne].
  - intros [= <-]. split; [done|]. apply list_elem_of_here.
  - intros H. destruct (IH H) as [? ?]. split; [done|]. by apply list_elem_of_further.
Qed.

(** A domain the client rejects has no row in a valid cache. *)
Lemma cacheValid_miss w d :
  cacheValid w → isValidDomain d = false →
  World.findResearch d (World.companyResearch (World.db w)) = None.
Proof.
  intros Hvalid Hd.
  destruct (World.findResearch d _) as [row|] eqn:Hfind; [|done].
  apply findResearch_domain in Hfind as [Hdom Hin].
  unfold cacheValid, cachedDomains in Hvalid. rewrite Forall_forall in Hvalid.
  specialize (Hvalid d). rewrite Hd in Hvalid. discriminate Hvalid.
  rewrite <- Hdom. by apply list_elem_of_fmap_2.
Qed.

(** [researchCompany] keeps the cache valid. *)
Lemma researchCompany_cacheValid env domain w o w1 :
  run (researchCompany env domain) w = (o, w1) → cacheValid w → cacheValid w1.
Proof.
  rewrite researchCompany_run. cbv zeta. set (nd := normalize domain).
  case_bool_decide; [by intros [= <- <-]|].
  destruct (World.findResearch nd _); [by intros [= <- <-]|].
  destruct (enrichCompany_run (clearbitClient env) nd
    (log ("[Research] Fetching enrichment data for domain: " +:+ nd) (World.next_query w)))
    as (er & wa & -> & (Hdb & _) & Hdata).
  assert (cacheValid w → cacheValid wa) as Hwa.
  { unfold cacheValid, cachedDomains. by rewrite Hdb. }
  destruct er as [data|error]; [|intros [= <- <-]; exact Hwa].
  destruct (Hdata data eq_refl) as [Hdom Hv].
  rewrite saveCompanyResearch_run.
  case_bool_decide; [intros [= <- <-]; exact Hwa|].
  pose proof (upsertResearch_spec (World.clock wa) data (World.companyResearch (World.db wa))) as Hup.
  destruct (World.upsertResearch _ _ _) as [row table]. destruct Hup as (_ & _ & Hdoms).
  intros [= <- <-] Hvalid%Hwa. unfold cacheValid, cachedDomains in *.
  cbn [World.db World.emit log World.with_db World.set_companyResearch World.companyResearch].
  rewrite Hdoms. case_bool_decide; [done|].
  apply Forall_app. split; [done|]. apply Forall_singleton. by rewrite Hdom.
Qed.

(** A business contact whose enrichment fails on a cache miss ends [failed]
    once the detached research has run. *)
Lemma business_contact_fails env userId input w r w1 d error :
  run (createContact userId input) w = (Fulfilled r, w1) →
  let c := ContactWithResearchInfo.contact r in
  isBusinessEmail (Contact.email c) = true →
  extractDomain (Contact.email c) = Some d →
  calm w → World.tasks w = [] →
  World.findResearch d (World.companyResearch (World.db w)) = None →
  enrichCompany (clearbitClient env) d = Ret (EnrichmentFailure error) →
  statusOf (Contact.id c) (settle env w1) = Some ResearchStatus.failed.
Proof.
  intros Hrun c Hb Hd Hcalm Htasks Hfind Henrich.
  apply createContact_fulfilled in Hrun as (_ & _ & _ & _ & Hc & Hcr & Ht & Hcalm1).
  fold c in Hc, Ht. rewrite Hb, Hd, Htasks in Ht. cbn [app] in Ht.
  unfold settle. rewrite Ht. cbn [fold_left run_task].
  assert (normalize d = d) as Hn.
  { apply domainRegex_normal. by apply extractDomain_Some in Hd as [_ ?]. }
  unfold autoResearch. rewrite run_try_catch, run_bind.
  edestruct (researchContactCompany_enrichment_failure env (Contact.id c) d
               (World.with_tasks [] w1) c error) as (w2 & -> & Hst & _).
  - by apply Hcalm1.
  - exact Hc.
  - rewrite Hn. cbn [World.db World.with_tasks]. by rewrite Hcr.
  - by rewrite Hn.
  - cbn [ResearchResult.success run console_log await]. cbn. exact Hst.
Qed.

(** C9, as the code has it. [getMockData] answers NOT_FOUND for every domain
    whose lower-cased form contains one of the three substrings. When the
    domain fails [isValidDomain], [enrichCompany] answers INVALID_DOMAIN
    without asking the mock. When it passes, [enrichCompany] in mock mode
    passes the NOT_FOUND on, and a business contact with such a domain ends
    [failed] when the cache has no row for it and the database answers. *)
Theorem mock_not_found domain :
  mockNotFound domain = true →
  getMockData domain
  = failure EnrichmentError.NOT_FOUND ("[MOCK] No company data found for domain: " +:+ domain)
  ∧ (isValidDomain domain = false →
     ∀ this w,
       run (enrichCompany this domain) w
       = (Fulfilled (failure EnrichmentError.INVALID_DOMAIN
                       ("Invalid domain format: " +:+ domain)), w))
  ∧ (isValidDomain domain = true →
     (∀ this w, useMock this = true →
        run (enrichCompany this domain) w
        = (Fulfilled (failure EnrichmentError.NOT_FOUND
                        ("[MOCK] No company data found for domain: " +:+ domain)), w))
     ∧ (∀ env userId input w r w1,
          useMock (clearbitClient env) = true →
          run (createContact userId input) w = (Fulfilled r, w1) →
          let c := ContactWithResearchInfo.contact r in
          isBusinessEmail (Contact.email c) = true →
          extractDomain (Contact.email c) = Some domain →
          calm w → World.tasks w = [] →
          World.findResearch domain (World.companyResearch (World.db w)) = None →
          statusOf (Contact.id c) (settle env w1) = Some ResearchStatus.failed)).
Proof.
  intros Hnf.
  assert (getMockData domain
          = failure EnrichmentError.NOT_FOUND
              ("[MOCK] No company data found for domain: " +:+ domain)) as Hmock.
  { unfold getMockData. unfold mockNotFound in Hnf. by rewrite Hnf. }
  split; [exact Hmock|]. split.
  { intros Hv this w. by rewrite enrichCompany_invalid. }
  intros Hv. split.
  - intros this w Hm. by rewrite enrichCompany_mock, Hmock.
  - intros env userId input w r w1 Hm Hrun c Hb Hd Hcalm Ht Hfind.
    eapply business_contact_fails; try eassumption.
    by rewrite enrichCompany_mock, Hmock.
Qed.

(** C9, as stated, fails: test123.net1 contains test123.net, but in mock mode
    [enrichCompany] rejects it as an invalid domain before the mock is
    asked. *)
Lemma mock_invalid_domain_not_found :
  ¬ (∀ this domain w,
       useMock this = true → mockNotFound domain = true →
       ∃ m, run (enrichCompany this domain) w
            = (Fulfilled (failure EnrichmentError.NOT_FOUND m), w)).
Proof.
  intros H.
  destruct (H (ClearbitClient.mk None true) "test123.net1"
              Fixtures.world0
              eq_refl eq_refl) as [m Hrun].
  vm_compute in Hrun. discriminate Hrun.
Qed.

(** C10. The two expressions disagree on user@company.c0: [extractDomain]
    returns company.c0 and the address is classified business, while
    [isValidDomain] rejects company.c0. [enrichCompany] answers INVALID_DOMAIN
    for every domain [isValidDomain] rejects, so a contact created with such a
    domain starts [pending], has its research triggered, and ends [failed]
    (the database answering, on a cache that holds only rows the client
    accepted). *)
Theorem regex_disagreement :
  (extractDomain "user@company.c0" = Some "company.c0"
   ∧ isBusinessEmail "user@company.c0" = true
   ∧ isValidDomain "company.c0" = false)
  ∧ (∀ this domain w,
       isValidDomain domain = false →
       run (enrichCompany this domain) w
       = (Fulfilled (failure EnrichmentError.INVALID_DOMAIN
                       ("Invalid domain format: " +:+ domain)), w))
  ∧ (∀ env userId input w r w1 domain,
       run (createContact userId input) w = (Fulfilled r, w1) →
       let c := ContactWithResearchInfo.contact r in
       isBusinessEmail (Contact.email c) = true →
       extractDomain (Contact.email c) = Some domain →
       isValidDomain domain = false →
       calm w → World.tasks w = [] → cacheValid w →
       Contact.researchStatus c = ResearchStatus.pending
       ∧ World.tasks w1 = [AutoResearch (Contact.id c) domain (Contact.email c)]
       ∧ statusOf (Contact.id c) (settle env w1) = Some ResearchStatus.failed).
Proof.
  split; [|split].
  - split_and!; vm_compute; reflexivity.
  - intros this domain w Hv. by rewrite enrichCompany_invalid.
  - intros env userId input w r w1 domain Hrun c Hb Hd Hv Hcalm Ht Hvalid.
    pose proof (createContact_fulfilled _ _ _ _ _ Hrun) as (_ & _ & _ & Hst & _ & _ & Htasks & _).
    fold c in Hst, Htasks. rewrite Hb in Hst. rewrite Hb, Hd, Ht in Htasks.
    split_and!; [exact Hst|exact Htasks|].
    eapply business_contact_fails; try eassumption.
    + by apply cacheValid_miss.
    + by apply enrichCompany_invalid.
Qed.

End PipelineFacts.

(** ** Batch research *)


Module SafeFacts.
Import RunFacts BatchSpec.

Section Safe.
Context (I : World.t → Prop).
Hypothesis I_handle : ∀ R (o : Op R) w, I w → I (World.handle o w).2.

Lemma safe_mono {A} (Q Q' : A → Prop) (E E' : exn → Prop) (p : Prog A) :
  (∀ a, Q a → Q' a) → (∀ e, E e → E' e) → safe I Q E p → safe I Q' E' p.
Proof.
  intros HQ HE. induction p as [a|e|R o k IH]; simpl; [apply HQ|apply HE|].
  intros H w Hw. apply IH. by apply H.
Qed.

Lemma safe_bind {A B} (Q : B → Prop) (E : exn → Prop) (p : Prog A) (f : A → Prog B) :
  safe I (fun a => safe I Q E (f a)) E p → safe I Q E (bind p f).
Proof.
  induction p as [a|e|R o k IH]; simpl; [done|done|].
  intros H w Hw. apply IH. by apply H.
Qed.

Lemma safe_try_catch {A} (Q : A → Prop) (E : exn → Prop) (p : Prog A) (h : exn → Prog A) :
  safe I Q (fun e => safe I Q E (h e)) p → safe I Q E (try_catch p h).
Proof.
  induction p as [a|e|R o k IH]; simpl; [done|done|].
  intros H w Hw. apply IH. by apply H.
Qed.

Lemma safe_await {R} (Q : R → Prop) (E : exn → Prop) (o : Op R) :
  (∀ w, I w → match (World.handle o w).1 with inr v => Q v | inl e => E e end) →
  safe I Q E (await o).
Proof.
  intros H. simpl. intros w Hw. specialize (H w Hw).
  by destruct (World.handle o w).1.
Qed.

Lemma safe_step {A} (Q : A → Prop) (E : exn → Prop) (p : Prog A) w :
  safe I Q E p → I w → safe I Q E (step p w).1 ∧ I (step p w).2.
Proof.
  destruct p as [a|e|R o k]; simpl; [done|done|].
  intros H Hw. specialize (H w Hw). pose proof (I_handle R o w Hw).
  by destruct (World.handle o w).
Qed.

Lemma safe_run {A} (Q : A → Prop) (p : Prog A) : ∀ w,
  safe I Q (fun _ => False) p → I w →
  ∃ a w', run p w = (Fulfilled a, w') ∧ Q a ∧ I w'.
Proof.
  induction p as [a|e|R o k IH]; simpl; intros w H Hw; [by eauto|done|].
  specialize (H w Hw). pose proof (I_handle R o w Hw).
  destruct (World.handle o w) as [r w1]. by apply IH.
Qed.

(** Programs that are safe one by one stay so however they interleave, and
    [Promise.all] returns their values in order. *)
Lemma safe_interleave {A B} (Q : B → A → Prop) (bs : list B) schedule :
  ∀ (ps : list (Prog A)) w,
  Forall2 (fun b p => safe I (Q b) (fun _ => False) p) bs ps → I w →
  Forall2 (fun b p => safe I (Q b) (fun _ => False) p) bs (interleave schedule ps w).1
  ∧ I (interleave schedule ps w).2.
Proof.
  induction schedule as [|i schedule IH]; intros ps w Hps Hw; simpl; [done|].
  destruct (ps !! i) as [p|] eqn:Hp; [|by apply IH].
  destruct (Forall2_lookup_r _ _ _ _ _ Hps Hp) as (b & Hb & Hsafe).
  destruct (safe_step _ _ p w Hsafe Hw) as [Hs' Hw'].
  destruct (step p w) as [p' w']. apply IH; [|done].
  replace bs with (<[i := b]> bs) by (by apply list_insert_id).
  by apply Forall2_insert.
Qed.

Lemma safe_finish {A B} (Q : B → A → Prop) (bs : list B) :
  ∀ (ps : list (Prog A)) w,
  Forall2 (fun b p => safe I (Q b) (fun _ => False) p) bs ps → I w →
  ∃ rs, gather (finish ps w).1 = Fulfilled rs ∧ Forall2 Q bs rs ∧ I (finish ps w).2.
Proof.
  induction bs as [|b bs IH]; intros ps w Hps Hw.
  - apply Forall2_nil_inv_l in Hps as ->. exists []. simpl. by split_and!.
  - apply Forall2_cons_inv_l in Hps as (p & ps' & Hp & Hps' & ->). simpl.
    destruct (safe_run _ p w Hp Hw) as (a & w1 & -> & Ha & Hw1).
    destruct (IH ps' w1 Hps' Hw1) as (rs & Hg & Hrs & Hw2).
    destruct (finish ps' w1) as [os w2]. simpl in *. rewrite Hg.
    exists (a :: rs). split_and!; [done| |done]. by constructor.
Qed.

Lemma safe_Promise_all {A B} (Q : B → A → Prop) (bs : list B) schedule
    (ps : list (Prog A)) w :
  Forall2 (fun b p => safe I (Q b) (fun _ => False) p) bs ps → I w →
  ∃ rs w', Promise_all schedule ps w = (Fulfilled rs, w') ∧ Forall2 Q bs rs ∧ I w'.
Proof.
  intros Hps Hw. unfold Promise_all.
  destruct (safe_interleave Q bs schedule ps w Hps Hw) as [Hps' Hw'].
  destruct (interleave schedule ps w) as [ps' w'].
  destruct (safe_finish Q bs ps' w' Hps' Hw') as (rs & Hg & Hrs & Hw'').
  destruct (finish ps' w') as [os w'']. simpl in *. rewrite Hg. eauto.
Qed.

End Safe.
End SafeFacts.

Module BatchFacts.
Import ClearbitClient ResearchService RunFacts ResearchSpec BatchSpec SafeFacts Batch.

Lemma ready_next_query ids w : ready ids w → ready ids (World.next_query w).
Proof. intros [Hc Hk]. split; [by apply calm_next_query|done]. Qed.

Lemma ready_insert ids w id (c : Contact.t) :
  ready ids w →
  ready ids (World.with_db (World.set_contacts (<[id := c]> (World.contacts (World.db w)))) w).
Proof.
  intros [Hc Hk]. split; [done|]. intros id' Hin. cbn.
  destruct (decide (id = id')) as [->|Hne].
  - rewrite lookup_insert_eq. eauto.
  - rewrite lookup_insert_ne by done. by apply Hk.
Qed.

(** No operation breaks [ready]: faults are only consumed, and contacts are
    never deleted. *)
Lemma ready_handle ids R (o : Op R) w : ready ids w → ready ids (World.handle o w).2.
Proof.
  intros Hr. pose proof (ready_next_query ids w Hr) as Hn.
  destruct o; cbn [World.handle]; unfold World.prisma;
    try (case_bool_decide; [exact Hn|]).
  - exact Hn.
  - unfold World.do_contact_create. cbv zeta. destruct (_ || _).
    + destruct Hn as [? ?]. split; done.
    + apply (ready_insert ids (World.with_nextId _ (World.next_query w))).
      destruct Hn as [? ?]. split; done.
  - unfold World.do_contact_update.
    destruct (World.contacts _ !! id); [|exact Hn]. by apply ready_insert.
  - exact Hn.
  - unfold World.do_companyResearch_upsert.
    destruct (World.upsertResearch _ _ _). destruct Hn as [? ?]. split; done.
  - unfold World.do_email_findFirst.
    destruct (World.emails _ !! id) as [e|]; [|exact Hn].
    destruct (negb _); [exact Hn|]. by destruct (World.contacts _ !! _).
  - unfold World.do_email_update.
    destruct (World.emails _ !! id) as [e|]; [|exact Hn].
    destruct Hn as [? ?]. split; done.
  - exact Hn.
  - cbv zeta. destruct (World.wire _) as [|reply rest]; destruct Hr as [? ?]; split; done.
  - cbv zeta. destruct (World.mailer _) as [|reply rest]; destruct Hr as [? ?]; split; done.
  - destruct Hr as [? ?]; split; done.
  - destruct (World.entropy _); destruct Hr as [? ?]; split; done.
  - destruct Hr as [? ?]; split; done.
  - destruct Hr as [? ?]; split; done.
  - destruct Hr as [? ?]; split; done.
Qed.

Section Research.
Context (env : Env.t) (ids : list string).

Lemma safe_console_log {A} (Q : A → Prop) E line (p : Prog A) :
  safe (ready ids) Q E p → safe (ready ids) Q E (let* _ := console_log line in p).
Proof. intros H. apply safe_bind. simpl. intros w _. exact H. Qed.

Lemma safe_updateContactResearchStatus id st :
  id ∈ ids → safe (ready ids) (fun _ => True) (fun _ => False) (updateContactResearchStatus id st).
Proof.
  intros Hin. unfold updateContactResearchStatus. apply safe_bind, safe_await.
  intros w [Hcalm Hk]. cbn [World.handle]. rewrite prisma_answers by (by apply calm_answers).
  unfold World.do_contact_update. rewrite next_query_db.
  destruct (Hk id Hin) as [c ->]. done.
Qed.

Lemma safe_enrichCompany this domain :
  safe (ready ids) (fun _ => True) (fun _ => False) (enrichCompany this domain).
Proof.
  unfold enrichCompany. destruct (negb _); [done|]. destruct (useMock this); [done|].
  unfold callClearbitApi. apply safe_try_catch, safe_bind, safe_await.
  intros w _. destruct (World.handle _ w).1 as [e|data]; [|done].
  cbn [safe]. repeat (case_bool_decide || destruct (_ || _)); done.
Qed.

Lemma safe_researchCompany domain :
  safe (ready ids) (fun r => ResearchResult.domain r = normalize domain
                  ∧ ResearchResult.status r
                    = (if ResearchResult.success r then ResearchStatus.complete
                       else ResearchStatus.failed))
        (fun _ => False) (researchCompany env domain).
Proof.
  unfold researchCompany. fold (normalize domain). apply safe_bind, safe_await.
  intros w [Hcalm _]. cbn [World.handle]. rewrite prisma_answers by (by apply calm_answers).
  unfold World.do_companyResearch_findUnique. cbn [fst].
  destruct (World.findResearch _ _) as [row|].
  { by apply safe_console_log. }
  apply safe_console_log, safe_bind.
  eapply safe_mono; [| |apply safe_enrichCompany]; [|done].
  intros [data|error] _.
  - apply safe_bind. unfold saveCompanyResearch. apply safe_await.
    intros w' [Hcalm' _]. cbn [World.handle].
    rewrite prisma_answers by (by apply calm_answers).
    unfold World.do_companyResearch_upsert. destruct (World.upsertResearch _ _ _).
    by apply safe_console_log.
  - by apply safe_console_log.
Qed.

(** The research of a contact of the batch returns its outcome, whatever else
    runs in between. *)
Lemma safe_research c :
  BatchContact.id c ∈ ids →
  safe (ready ids) (outcomeOf c) (fun _ => False) (research env c).
Proof.
  intros Hin. unfold research, researchContactCompany.
  apply safe_bind.
  eapply safe_mono; [| |by apply safe_updateContactResearchStatus]; [|done].
  intros _ _. apply safe_try_catch, safe_bind.
  eapply safe_mono; [| |apply safe_researchCompany]; [|done].
  intros result Hres. apply safe_bind.
  eapply safe_mono; [| |by apply safe_updateContactResearchStatus]; [|done].
  intros _ _. exact Hres.
Qed.

End Research.

Section Windows.
Context {A : Type} (n : nat) (Hn : (0 < n)%nat).

Lemma windows_aux_fuel : ∀ fuel1 fuel2 (l : list A),
  (List.length l ≤ fuel1)%nat → (List.length l ≤ fuel2)%nat →
  windows_aux fuel1 n l = windows_aux fuel2 n l.
Proof.
  induction fuel1 as [|fuel1 IH]; intros fuel2 l H1 H2.
  - destruct l; [|simpl in H1; lia]. by destruct fuel2.
  - destruct l as [|x l]; [by destruct fuel2|].
    destruct fuel2 as [|fuel2]; [simpl in H2; lia|].
    cbn [windows_aux]. f_equal. apply IH.
    + rewrite length_drop. simpl in *. lia.
    + rewrite length_drop. simpl in *. lia.
Qed.

Lemma windows_cons (x : A) l :
  windows n (x :: l) = take n (x :: l) :: windows n (drop n (x :: l)).
Proof.
  unfold windows. cbn [List.length windows_aux]. f_equal.
  apply windows_aux_fuel; rewrite length_drop; simpl; lia.
Qed.

Lemma windows_concat : ∀ (l : list A), concat (windows n l) = l.
Proof.
  intros l. remember (List.length l) as m eqn:Hm.
  revert l Hm. induction (lt_wf m) as [m _ IH]. intros l ->.
  destruct l as [|x l]; [done|].
  rewrite windows_cons. cbn [concat].
  rewrite (IH (List.length (drop n (x :: l)))); [apply take_drop| |done].
  rewrite length_drop. simpl. lia.
Qed.

Lemma windows_fixedSize : ∀ (l : list A), fixedSize n (windows n l).
Proof.
  intros l. remember (List.length l) as m eqn:Hm.
  revert l Hm. induction (lt_wf m) as [m _ IH]. intros l ->.
  destruct l as [|x l]; [done|].
  rewrite windows_cons.
  specialize (IH (List.length (drop n (x :: l)))).
  assert (fixedSize n (windows n (drop n (x :: l)))) as Hrest.
  { apply IH; [|done]. rewrite length_drop. simpl. lia. }
  destruct (drop n (x :: l)) as [|y rest] eqn:Hd.
  - cbn. rewrite length_take. simpl.
    assert (List.length (drop n (x :: l)) = 0)%nat as H0 by (by rewrite Hd).
    rewrite length_drop in H0. simpl in H0. lia.
  - rewrite windows_cons in *. cbn [fixedSize]. split; [|exact Hrest].
    rewrite length_take.
    assert (List.length (drop n (x :: l)) ≠ 0)%nat as H0 by (by rewrite Hd).
    rewrite length_drop in H0. lia.
Qed.

End Windows.

Lemma slice_window {A} (l : list A) (i c : Z) :
  0 ≤ i → 0 < c →
  slice l i (i + c) = take (Z.to_nat c) (drop (Z.to_nat i) l).
Proof.
  intros Hi Hc. unfold slice. cbv zeta.
  rewrite !(proj2 (Z.ltb_ge _ _)) by lia.
  set (len := Z.of_nat (List.length l)).
  destruct (Z.le_gt_cases len i) as [Hbig|Hsmall].
  - rewrite !drop_ge by lia. by rewrite !take_nil.
  - rewrite (Z.min_l i len) by lia.
    destruct (Z.le_gt_cases (i + c) len).
    + rewrite Z.min_l by lia. f_equal. lia.
    + rewrite Z.min_r by lia.
      rewrite (take_ge _ (Z.to_nat c)) by (rewrite length_drop; lia).
      apply take_ge. rewrite length_drop. lia.
Qed.

Section Loop.
Context (env : Env.t).

(** The loop is the processing of the windows, one after the other. *)
Lemma batchLoop_windows (contacts : list BatchContact.t) (c : Z) : 0 < c →
  ∀ fuel schedules i results w,
  0 ≤ i → (List.length (drop (Z.to_nat i) contacts) < fuel)%nat →
  batchLoop env fuel schedules contacts c i results w
  = Some (processWindows env schedules
            (windows (Z.to_nat c) (drop (Z.to_nat i) contacts)) results w).
Proof.
  intros Hc. induction fuel as [|fuel IH]; intros schedules i results w Hi Hfuel; [lia|].
  cbn [batchLoop]. rewrite length_drop in Hfuel.
  destruct (Z.ltb_spec i (Z.of_nat (List.length contacts))) as [Hlt|Hge].
  2:{ rewrite drop_ge by lia. done. }
  rewrite slice_window by lia.
  destruct (drop (Z.to_nat i) contacts) as [|x rest] eqn:Hd.
  { assert (List.length (drop (Z.to_nat i) contacts) = 0)%nat as H0 by (by rewrite Hd).
    rewrite length_drop in H0. lia. }
  rewrite windows_cons by lia. cbn [processWindows].
  destruct (Promise_all _ _ w) as [[rs|e] w1]; [|done].
  assert (drop (Z.to_nat c) (x :: rest) = drop (Z.to_nat (i + c)) contacts) as Hrest.
  { rewrite <- Hd, drop_drop. f_equal. lia. }
  rewrite Hrest.
  rewrite IH; [|lia|rewrite length_drop; lia]. f_equal.
  destruct (Z.ltb_spec (i + c) (Z.of_nat (List.length contacts))) as [Hmore|Hlast].
  - destruct (drop (Z.to_nat (i + c)) contacts) as [|y rest'] eqn:Hd'.
    { assert (List.length (drop (Z.to_nat (i + c)) contacts) = 0)%nat as H0 by (by rewrite Hd').
      rewrite length_drop in H0. lia. }
    rewrite windows_cons by lia. done.
  - rewrite drop_ge by lia. done.
Qed.

Lemma processWindows_ready ids : ∀ ws schedules results w,
  ready ids w →
  Forall (Forall (fun c => BatchContact.id c ∈ ids)) ws →
  ∃ rs w', processWindows env schedules ws results w = (Fulfilled (results ++ rs), w')
           ∧ Forall2 outcomeOf (concat ws) rs ∧ ready ids w'.
Proof.
  induction ws as [|win ws IH]; intros schedules results w Hw Hids.
  - exists [], w. rewrite app_nil_r. by split_and!.
  - apply Forall_cons in Hids as [Hwin Hws]. cbn [processWindows].
    destruct (safe_Promise_all (ready ids) (ready_handle ids) outcomeOf win
                (hd [] schedules) (List.map (research env) win) w) as (rs & w1 & -> & Hrs & Hw1).
    { clear -Hwin. induction win as [|c win IH]; [constructor|].
      apply Forall_cons in Hwin as [Hc Hwin]. constructor; [by apply safe_research|by apply IH]. }
    { exact Hw. }
    set (w2 := match ws with [] => w1 | _ :: _ => _ end).
    assert (ready ids w2) as Hw2.
    { unfold w2. destruct ws; [done|]. destruct Hw1. split; done. }
    destruct (IH (tl schedules) (results ++ rs) w2 Hw2 Hws) as (rs' & w' & -> & Hrs' & Hw').
    exists (rs ++ rs'), w'. rewrite app_assoc. split_and!; [done| |done].
    cbn [concat]. by apply Forall2_app.
Qed.

End Loop.

(** C8, as the code has it. For a positive limit (3 by default) and enough
    fuel, [batchResearchContacts] is the processing of the windows of the
    list: consecutive pieces of [limit] contacts (the last one may be
    shorter), each under [Promise.all], with a pause of 1000 ms between a
    window and the next. When the database answers and the contacts exist it
    returns, under every schedule, one outcome per contact in the order of
    the input, about the domain of that contact; an outcome may be a failure,
    and the contacts after it are processed all the same. *)
Theorem batchResearchContacts_windows env contacts (concurrency : option Z)
    schedules fuel w :
  let limit := default 3 concurrency in
  let ws := windows (Z.to_nat limit) contacts in
  0 < limit → (List.length contacts < fuel)%nat →
  batchResearchContacts env fuel schedules contacts concurrency w
  = Some (processWindows env schedules ws [] w)
  ∧ concat ws = contacts
  ∧ fixedSize (Z.to_nat limit) ws
  ∧ (ready (BatchContact.id <$> contacts) w →
     ∃ results w',
       batchResearchContacts env fuel schedules contacts concurrency w
       = Some (Fulfilled results, w')
       ∧ Forall2 outcomeOf contacts results).
Proof.
  intros limit ws Hlimit Hfuel.
  assert (batchResearchContacts env fuel schedules contacts concurrency w
          = Some (processWindows env schedules ws [] w)) as Hloop.
  { unfold batchResearchContacts. fold limit.
    rewrite batchLoop_windows; [done|exact Hlimit|lia|]. 
    change (Z.to_nat 0) with 0%nat. rewrite drop_0. exact Hfuel. }
  assert (concat ws = contacts) as Hconcat by (apply windows_concat; lia).
  split_and!; [exact Hloop|exact Hconcat|apply windows_fixedSize; lia|].
  intros Hready.
  destruct (processWindows_ready env (BatchContact.id <$> contacts) ws schedules [] w Hready)
    as (rs & w' & Hrun & Hrs & _).
  { assert (Forall (fun c => BatchContact.id c ∈ BatchContact.id <$> contacts) (concat ws)) as H.
    { rewrite Hconcat. apply Forall_forall. intros c Hc. by apply list_elem_of_fmap_2. }
    clear -H. induction ws as [|win ws IH]; [constructor|].
    cbn [concat] in H. apply Forall_app in H as [? ?]. constructor; [done|by apply IH]. }
  exists rs, w'. rewrite Hloop, Hrun, Hconcat in *. done.
Qed.


Lemma interleave_nil {A} schedule w : interleave schedule (@nil (Prog A)) w = ([], w).
Proof. induction schedule as [|i schedule IH]; simpl; [done|exact IH]. Qed.

(** With a limit of 0 the loop never advances: no amount of fuel lets it
    return. *)
Lemma batchLoop_zero_limit env contacts : contacts ≠ [] →
  ∀ fuel schedules results w, batchLoop env fuel schedules contacts 0 0 results w = None.
Proof.
  intros Hne. induction fuel as [|fuel IH]; intros schedules results w; [done|].
  cbn [batchLoop].
  destruct (Z.ltb_spec 0 (Z.of_nat (List.length contacts))) as [_|Hlen].
  2:{ destruct contacts; [done|simpl in Hlen; lia]. }
  assert (slice contacts 0 (0 + 0) = []) as ->.
  { unfold slice. cbv zeta. simpl. rewrite Z.sub_diag. done. }
  unfold Promise_all. cbn [List.map]. rewrite interleave_nil. cbn [finish gather].
  apply IH.
Qed.

(** C8, as stated, fails: with a limit of 0 the batch never returns. *)
Lemma batchResearchContacts_zero_limit :
  ¬ (∀ env contacts concurrency w,
       ready (BatchContact.id <$> contacts) w →
       ∃ fuel schedules results w',
         batchResearchContacts env fuel schedules contacts concurrency w
         = Some (Fulfilled results, w')
         ∧ Forall2 outcomeOf contacts results).
Proof.
  intros H.
  destruct (H Fixtures.env0 [BatchContact.mk "c1" "stripe.com"] (Some 0)
              (World.mk (World.mkDb {["c1" := pendingContact]} [] ∅)
                        (World.mkOracle [] [] [] []) 0 1 [] []))
    as (fuel & schedules & results & w' & Hrun & _).
  - split; [constructor|]. intros id ->%list_elem_of_singleton. by eexists.
  - unfold batchResearchContacts in Hrun. cbn [default] in Hrun.
    rewrite batchLoop_zero_limit in Hrun; done.
Qed.
End BatchFacts.

(** ** The properties at concrete inputs *)

Module Witnesses.
Import JsString EmailUtils ClearbitClient ResearchService ContactsService EmailService Batch.
Import ClassifierSpec StatsSpec DeliverySpec ResearchSpec PipelineSpec BatchSpec Fixtures Examples.
Import ClassifierFacts ContactFacts StatsFacts DeliveryFacts ResearchFacts OrchestratorFacts
       PipelineFacts BatchFacts.

Lemma sendSavedEmail_after_sent_witness :
  ∃ w', run (sendSavedEmail env0 options0) (mailbox EmailStatus.sent "ada@acme.com")
        = (Fulfilled (SendEmailResponse.failure "Email has already been sent"), w')
        ∧ World.db w' = World.db (mailbox EmailStatus.sent "ada@acme.com").
Proof.
  destruct (sendSavedEmail_after_sent env0 options0 (email0 EmailStatus.sent)
              (contact0 "ada@acme.com") (mailbox EmailStatus.sent "ada@acme.com"))
    as (w' & Hrun & Hdb & _).
  - split_and!; reflexivity.
  - vm_compute. discriminate.
  - apply list_elem_of_here.
  - exists w'. split; [exact Hrun|exact Hdb].
Defined.

Lemma sendSavedEmail_missing_recipient_witness :
  ∃ w', run (sendSavedEmail env0 options0) (mailbox EmailStatus.draft "")
        = (Fulfilled (SendEmailResponse.failure "Contact does not have an email address"), w')
        ∧ World.emails (World.db w') !! "e1" = Some (email0 EmailStatus.draft).
Proof.
  destruct (sendSavedEmail_missing_recipient env0 options0 (email0 EmailStatus.draft)
              (contact0 "") (mailbox EmailStatus.draft "")) as [_ H].
  - split_and!; reflexivity.
  - vm_compute. discriminate.
  - reflexivity.
  - destruct H as (w' & Hrun & _ & He); [apply list_elem_of_here|].
    exists w'. split; [exact Hrun|exact He].
Defined.

Lemma getEmailStats_keys_witness :
  let stats := value ∅ (run (getEmailStats "u1") outbox) in
  stats !! "sent" = Some 2 ∧ stats !! "draft" = Some 0 ∧ stats !! "opened" = Some 0
  ∧ stats !! "queued" = None ∧ stats !! "total" = Some 3.
Proof.
  intros stats.
  assert (run (getEmailStats "u1") outbox = (Fulfilled stats, (run (getEmailStats "u1") outbox).2))
    as Hrun by (vm_compute; reflexivity).
  destruct (getEmailStats_keys _ _ _ _ Hrun) as (Hs & Hq & Ht & _).
  split_and!.
  - transitivity (Some (emailCount "u1" EmailStatus.sent outbox));
      [exact (Hs EmailStatus.sent ltac:(discriminate))|vm_compute; reflexivity].
  - transitivity (Some (emailCount "u1" EmailStatus.draft outbox));
      [exact (Hs EmailStatus.draft ltac:(discriminate))|vm_compute; reflexivity].
  - transitivity (Some (emailCount "u1" EmailStatus.opened outbox));
      [exact (Hs EmailStatus.opened ltac:(discriminate))|vm_compute; reflexivity].
  - exact Hq.
  - etransitivity; [exact Ht|vm_compute; reflexivity].
Defined.

Lemma createContact_classification_witness :
  (let c := ContactWithResearchInfo.contact
              (value nobody (run (createContact "u1" john) world0)) in
   Contact.email c = "john@gmail.com"
   ∧ Contact.companyDomain c = None
   ∧ Contact.researchStatus c = ResearchStatus.na)
  ∧ (∃ r w',
       run (createContact "u1"
              (CreateContactInput.mk " CEO@Stripe.com " (Some "Ada") None None None None None))
           world0
       = (Fulfilled r, w')
       ∧ ContactWithResearchInfo.isBusinessContact r = true
       ∧ Contact.email (ContactWithResearchInfo.contact r) = "ceo@stripe.com"
       ∧ Contact.companyDomain (ContactWithResearchInfo.contact r) = Some "stripe.com"
       ∧ Contact.researchStatus (ContactWithResearchInfo.contact r) = ResearchStatus.pending
       ∧ World.contacts (World.db w') !! Contact.id (ContactWithResearchInfo.contact r)
         = Some (ContactWithResearchInfo.contact r)).
Proof.
  split.
  - intros c.
    assert (run (createContact "u1" john) world0
            = (Fulfilled (value nobody (run (createContact "u1" john) world0)),
               (run (createContact "u1" john) world0).2))
      as Hrun by (vm_compute; reflexivity).
    destruct (createContact_classification "u1" john world0) as [Hreturned _].
    destruct (Hreturned _ _ Hrun) as (_ & _ & _ & _ & _ & Hp & _).
    split; [vm_compute; reflexivity|]. apply Hp. vm_compute. reflexivity.
  - destruct (createContact_classification "u1"
                (CreateContactInput.mk " CEO@Stripe.com " (Some "Ada") None None None None None)
                world0) as [Hreturned Hcreated].
    destruct (Hcreated "ceo@stripe.com") as (r & w' & Hrun & _ & Hemail).
    + vm_compute. reflexivity.
    + constructor.
    + intros id c Hc. change ((∅ : gmap string Contact.t) !! id = Some c) in Hc.
      by rewrite lookup_empty in Hc.
    + apply (lookup_empty (M := gmap string)).
    + exists r, w'. split; [exact Hrun|].
      destruct (Hreturned r w' Hrun) as (_ & Hb & _ & _ & Hbusiness & _ & Hstored).
      rewrite Hemail in Hb, Hbusiness.
      assert (isBusinessEmail "ceo@stripe.com" = true) as Hbiz by (vm_compute; reflexivity).
      destruct (Hbusiness Hbiz) as [Hst Hd].
      split; [by rewrite Hb|]. split; [exact Hemail|].
      split; [rewrite Hd; vm_compute; reflexivity|]. split; [exact Hst|exact Hstored].
Defined.

Lemma classify_correct_witness :
  extractDomain " CEO@Stripe.com " = Some "stripe.com"
  ∧ isBusinessEmail " CEO@Stripe.com " = true
  ∧ isBusinessEmail "john@gmail.com" = false
  ∧ isBusinessEmail "dean@mit.edu" = false
  ∧ extractDomain "not-an-email" = None.
Proof.
  destruct classify_correct as (Hvalid & Hpersonal & Hmalformed).
  destruct (Hvalid " CEO@Stripe.com ") as [Hd Hb].
  { unfold malformed. vm_compute. intros [H|[H|[H|[H|H]]]]; discriminate H. }
  split_and!.
  - exact Hd.
  - apply Hb. vm_compute. reflexivity.
  - apply Hpersonal. vm_compute. reflexivity.
  - apply Hpersonal. vm_compute. reflexivity.
  - apply Hmalformed. left. vm_compute. reflexivity.
Defined.

Lemma researchCompany_idempotent_witness :
  let w1 := (run (researchCompany env0 "Stripe.com") world0).2 in
  NoDup (cachedDomains w1) ∧ servedFromCache env0 "Stripe.com" w1.
Proof.
  intros w1.
  assert (run (researchCompany env0 "Stripe.com") world0
          = (Fulfilled (value (ResearchResult.mk false "" ResearchStatus.failed None None)
                          (run (researchCompany env0 "Stripe.com") world0)), w1))
    as Hrun by (vm_compute; reflexivity).
  destruct (researchCompany_idempotent _ _ _ _ _ Hrun) as (Hnd & Hcache & _). split.
  - apply Hnd. constructor.
  - eapply Hcache; [reflexivity|vm_compute; reflexivity|]. vm_compute. discriminate.
Defined.


Lemma mock_not_found_witness :
  let out := run (createContact "u1" ghost) world0 in
  Contact.companyDomain (ContactWithResearchInfo.contact (value nobody out))
  = Some "unknown-domain.com"
  ∧ statusOf (Contact.id (ContactWithResearchInfo.contact (value nobody out)))
             (settle env0 out.2)
    = Some ResearchStatus.failed.
Proof.
  intros out.
  assert (run (createContact "u1" ghost) world0 = (Fulfilled (value nobody out), out.2))
    as Hrun by (vm_compute; reflexivity).
  destruct (mock_not_found "unknown-domain.com") as (_ & _ & H); [vm_compute; reflexivity|].
  destruct H as [_ H]; [vm_compute; reflexivity|].
  split; [vm_compute; reflexivity|].
  apply (H env0 "u1" ghost world0 _ _ eq_refl Hrun); try (vm_compute; reflexivity).
  constructor.
Defined.

Lemma regex_disagreement_witness :
  let out := run (createContact "u1" odd) world0 in
  Contact.companyDomain (ContactWithResearchInfo.contact (value nobody out))
  = Some "company.c0"
  ∧ statusOf (Contact.id (ContactWithResearchInfo.contact (value nobody out)))
             (settle env0 out.2)
    = Some ResearchStatus.failed.
Proof.
  intros out.
  assert (run (createContact "u1" odd) world0 = (Fulfilled (value nobody out), out.2))
    as Hrun by (vm_compute; reflexivity).
  destruct regex_disagreement as (_ & _ & H).
  split; [vm_compute; reflexivity|].
  destruct (H env0 "u1" odd world0 _ _ "company.c0" Hrun) as (_ & _ & Hfailed);
    [vm_compute; reflexivity ..|constructor|reflexivity|constructor|exact Hfailed].
Defined.

Lemma batchResearchContacts_windows_witness :
  windows 3 team = [firstn 3 team; skipn 3 team]
  ∧ ∃ results w',
      batchResearchContacts env0 5 [[0; 1; 2; 0; 1; 2; 2; 1]; [0]]%nat team None office
      = Some (Fulfilled results, w')
      ∧ Forall2 outcomeOf team results.
Proof.
  destruct (batchResearchContacts_windows env0 team None
              [[0; 1; 2; 0; 1; 2; 2; 1]; [0]]%nat 5 office) as (_ & _ & _ & H).
  - reflexivity.
  - simpl. lia.
  - split; [reflexivity|]. apply H.
    split; [constructor|]. intros id Hid.
    repeat (apply elem_of_cons in Hid as [->|Hid]; [by eexists|]).
    by apply elem_of_nil in Hid.
Defined.

End Witnesses.


Module EnrichmentFacts.
Import JsString ClearbitClient RunFacts ResearchSpec ClearbitFacts Trace EnrichmentSpec.

Lemma requests_emit e w :
  requests (World.emit e w)
  = requests w ++ match e with World.HttpGet d => [d] | _ => [] end.
Proof.
  unfold requests, World.emit. cbn [World.events]. rewrite omap_app.
  destruct e; cbn; by rewrite ?app_nil_r.
Qed.

Lemma toInt32_range z : -2147483648 ≤ toInt32 z < 2147483648.
Proof. unfold toInt32. pose proof (Z.mod_pos_bound (z + 2147483648) 4294967296). lia. Qed.

Lemma simpleHash_from_range str : ∀ h,
  -2147483648 ≤ h < 2147483648 →
  -2147483648 ≤ simpleHash_from str h < 2147483648.
Proof.
  induction str as [|c str IH]; intros h Hh; [done|].
  cbn [simpleHash_from]. cbv zeta. apply IH, toInt32_range.
Qed.

Lemma simpleHash_range str : 0 ≤ simpleHash str ≤ 2147483648.
Proof.
  unfold simpleHash. pose proof (simpleHash_from_range str 0). lia.
Qed.

Lemma pick_elem_of {A} (d : A) (table : list A) (hash : Z) :
  table ≠ [] → 0 ≤ hash → pick d table hash ∈ table.
Proof.
  intros Ht Hh. unfold pick. apply list_elem_of_In, nth_In.
  assert (0 < Z.of_nat (List.length table)) by (destruct table; [done|cbn; lia]).
  pose proof (Z.rem_bound_pos hash (Z.of_nat (List.length table))). lia.
Qed.

(** X1. The hash of [simpleHash] is a non-negative number of at most 2^31, so
    every table lookup [table[hash % table.length]] of the mock is within
    bounds: a mock company has its industry, size, location and technology
    stack drawn from the mock's tables, never [undefined], and it is about
    the domain asked. *)
Theorem getMockData_tables domain data :
  getMockData domain = EnrichmentSuccess data →
  0 ≤ simpleHash domain ≤ 2147483648
  ∧ CompanyData.domain data = domain
  ∧ (∃ i, CompanyData.industry data = Some i ∧ i ∈ industries)
  ∧ (∃ n, CompanyData.employeeCount data = Some n ∧ n ∈ employeeRanges)
  ∧ (∃ c, CompanyData.location data = Some c ∧ c ∈ cities)
  ∧ CompanyData.technologies data ∈ techStacks
  ∧ CompanyData.rawData data = Some (RawMock domain).
Proof.
  unfold getMockData. destruct (existsb _ _); [done|]. intros [= <-]. cbn -[pick simpleHash industries employeeRanges cities techStacks].
  pose proof (simpleHash_range domain) as [H0 H1].
  split; [done|]. split; [done|].
  split_and!; try (eexists; split; [reflexivity|]); try done; by apply pick_elem_of.
Qed.

Lemma getMockData_tables_witness :
  ∃ data, getMockData "stripe.com" = EnrichmentSuccess data
          ∧ CompanyData.technologies data ∈ techStacks.
Proof.
  eexists. split; [reflexivity|].
  apply (getMockData_tables "stripe.com" _ eq_refl).
Defined.


(** The requests of the client, whatever it returns. *)
Lemma callClearbitApi_requests this domain w :
  requests (run (callClearbitApi this domain) w).2 = requests w ++ [domain].
Proof.
  unfold callClearbitApi. rewrite run_try_catch, run_bind, run_await.
  cbn [World.handle]. cbv zeta.
  change (World.wire (World.oracle (World.emit (World.HttpGet domain) w)))
    with (World.wire (World.oracle w)).
  destruct (World.wire (World.oracle w)) as [|[e|resp] rest];
    cbn [run]; repeat case_bool_decide; cbn [orb run snd];
    unfold requests; cbn; by rewrite omap_app.
Qed.

Lemma enrichCompany_trace this domain w :
  requests (run (enrichCompany this domain) w).2
  = requests w ++ (if isValidDomain domain && negb (useMock this) then [domain] else []).
Proof.
  unfold enrichCompany.
  destruct (isValidDomain domain); cbn [negb andb]; [|by rewrite app_nil_r].
  destruct (useMock this); cbn [negb]; [by rewrite app_nil_r|].
  apply callClearbitApi_requests.
Qed.

(** X2. [callClearbitApi] never throws and sends exactly one request. A reply
    becomes a success through [transformClearbitResponse]; a failure is mapped
    by its HTTP status: 404 to NOT_FOUND, 429 to RATE_LIMITED, 401 and 403 to
    API_ERROR (invalid key); any other failure, a timeout included, to
    API_ERROR with the message of the exception. No table is written. *)
Theorem callClearbitApi_reply this domain w :
  ∃ r w',
    run (callClearbitApi this domain) w = (Fulfilled r, w')
    ∧ World.db w' = World.db w
    ∧ requests w' = requests w ++ [domain]
    ∧ match World.wire (World.oracle w) with
      | inr data :: _ => r = EnrichmentSuccess (transformClearbitResponse domain data)
      | inl e :: _ =>
          (httpStatus e = Some 404 →
           r = failure EnrichmentError.NOT_FOUND
                 ("No company data found for domain: " +:+ domain))
          ∧ (httpStatus e = Some 429 →
             r = failure EnrichmentError.RATE_LIMITED
                   "Clearbit API rate limit exceeded. Please try again later.")
          ∧ (httpStatus e = Some 401 ∨ httpStatus e = Some 403 →
             r = failure EnrichmentError.API_ERROR "Invalid or expired Clearbit API key")
          ∧ (httpStatus e ∉ [Some 404; Some 429; Some 401; Some 403] →
             r = failure EnrichmentError.API_ERROR
                   ("Clearbit API error: " +:+ exn_message e))
      | [] => r = failure EnrichmentError.API_ERROR
                    "Clearbit API error: timeout of 10000ms exceeded"
      end.
Proof.
  unfold callClearbitApi. rewrite run_try_catch, run_bind, run_await.
  cbn [World.handle]. cbv zeta.
  change (World.wire (World.oracle (World.emit (World.HttpGet domain) w)))
    with (World.wire (World.oracle w)).
  destruct (World.wire (World.oracle w)) as [|[e|resp] rest] eqn:Hw.
  - eexists _, _. split; [reflexivity|]. split; [done|].
    split; [by rewrite requests_emit|]. done.
  - cbn [run]. fold (httpStatus e).
    assert (Hreq : ∀ r : EnrichmentResult, ∃ w',
      (Fulfilled r, World.with_oracle (World.set_wire rest) (World.emit (World.HttpGet domain) w))
      = (Fulfilled r, w')
      ∧ World.db w' = World.db w ∧ requests w' = requests w ++ [domain]).
    { intros r. eexists. split; [reflexivity|]. split; [done|].
      unfold requests. cbn. by rewrite omap_app. }
    repeat case_bool_decide; cbn [orb run];
      match goal with
      | |- ∃ r w', (Fulfilled ?r0, _) = _ ∧ _ =>
          destruct (Hreq r0) as (w' & Heq & Hdb & Hrq); exists r0, w'
      end;
      (split; [done|]; split; [done|]; split; [done|]);
      (split_and!; [intros; congruence|intros; congruence|intros [?|?]; congruence|]);
      intros Hn; try done; exfalso; apply Hn; set_solver.
  - eexists _, _. split; [reflexivity|]. split; [done|].
    split; [|done]. unfold requests. cbn. by rewrite omap_app.
Qed.

(** X3. [enrichCompany] never throws and writes no table. It sends one request
    when the client is live and the domain passes [isValidDomain], and none
    otherwise: an invalid domain is refused, and the mock answers, without a
    single effect. *)
Theorem enrichCompany_requests this domain w :
  ∃ r w',
    run (enrichCompany this domain) w = (Fulfilled r, w')
    ∧ World.db w' = World.db w
    ∧ requests w'
      = requests w ++ (if isValidDomain domain && negb (useMock this) then [domain] else [])
    ∧ (isValidDomain domain = false →
       w' = w
       ∧ r = failure EnrichmentError.INVALID_DOMAIN ("Invalid domain format: " +:+ domain))
    ∧ (isValidDomain domain = true → useMock this = true →
       w' = w ∧ r = getMockData domain).
Proof.
  unfold enrichCompany.
  destruct (isValidDomain domain) eqn:Hv; cbn [negb andb].
  - destruct (useMock this) eqn:Hm; cbn [negb].
    + exists (getMockData domain), w. rewrite app_nil_r. by split_and!.
    + destruct (callClearbitApi_run this domain w) as (r & w' & Hrun & (Hdb & _) & _).
      exists r, w'. split_and!; [done|done| |done..].
      pose proof (callClearbitApi_requests this domain w) as Hrq.
      by rewrite Hrun in Hrq.
  - eexists _, w. rewrite app_nil_r. by split_and!.
Qed.

Lemma requests_log line w : requests (log line w) = requests w.
Proof. unfold log. by rewrite requests_emit, app_nil_r. Qed.

Lemma requests_next_query w : requests (World.next_query w) = requests w.
Proof. done. Qed.

(** X4. Without a usable API key the service stays offline: when
    CLEARBIT_API_KEY is missing, empty, a placeholder or shorter than 20
    characters, or when USE_MOCK_ENRICHMENT is 'true', [researchCompany] sends
    no request to the provider, whatever the domain and the state of the
    database. *)
Theorem mock_mode_offline env domain w :
  Env.USE_MOCK_ENRICHMENT env = Some "true"
  ∨ isPlaceholderKey (Env.CLEARBIT_API_KEY env) = true →
  useMock (ResearchService.clearbitClient env) = true
  ∧ requests (run (ResearchService.researchCompany env domain) w).2 = requests w.
Proof.
  intros Hm.
  assert (Hmock : useMock (ResearchService.clearbitClient env) = true).
  { unfold ResearchService.clearbitClient, new. cbn [useMock].
    destruct Hm as [-> | Hp].
    - rewrite (bool_decide_eq_true_2 (Some "true" = Some "true")) by done.
      by rewrite orb_true_r.
    - replace (isPlaceholderKey (truthy (Env.CLEARBIT_API_KEY env))) with true.
      + by rewrite orb_true_r.
      + rewrite <- Hp. unfold isPlaceholderKey.
        by destruct (Env.CLEARBIT_API_KEY env) as [[|]|]. }
  split; [done|].
  rewrite ResearchFacts.researchCompany_run. cbv zeta.
  case_bool_decide; [done|].
  destruct (World.findResearch _ _); [cbn [snd]; by rewrite requests_log|].
  pose proof (enrichCompany_trace (ResearchService.clearbitClient env) (normalize domain)
                (log ("[Research] Fetching enrichment data for domain: " +:+ normalize domain)
                     (World.next_query w))) as Hrq.
  rewrite Hmock, andb_false_r, app_nil_r, requests_log, requests_next_query in Hrq.
  destruct (run (enrichCompany _ _) _) as [[r|e] w1]; [|done]. cbn [snd] in Hrq.
  destruct r as [data|error].
  - rewrite ResearchFacts.saveCompanyResearch_run. case_bool_decide; [done|].
    destruct (World.upsertResearch _ _ _). cbn [snd]. by rewrite requests_log.
  - cbn [snd]. by rewrite requests_log.
Qed.

Lemma mock_mode_offline_witness :
  requests (run (ResearchService.researchCompany
                   (Env.mk (Some "your-api-key-here") None None None None) "stripe.com")
                Fixtures.world0).2 = [].
Proof.
  apply (mock_mode_offline (Env.mk (Some "your-api-key-here") None None None None)
           "stripe.com" Fixtures.world0).
  right. reflexivity.
Defined.

Lemma truthy_filled x : filled (truthy x).
Proof. by destruct x as [[|]|]. Qed.

Lemma orElse_filled x y : filled y → filled (orElse x y).
Proof. unfold orElse. by destruct x as [[|]|]. Qed.

(** X5. The company data [transformClearbitResponse] builds is about the
    domain asked, keeps the raw reply, and has no empty text: each optional
    column is [null] or a non-empty string, whatever the reply holds. *)
Theorem transformClearbitResponse_filled domain data :
  let r := transformClearbitResponse domain data in
  CompanyData.domain r = domain
  ∧ CompanyData.rawData r = Some (RawClearbit data)
  ∧ filled (CompanyData.companyName r)
  ∧ filled (CompanyData.industry r)
  ∧ filled (CompanyData.description r)
  ∧ filled (CompanyData.employeeCount r)
  ∧ filled (CompanyData.location r)
  ∧ filled (CompanyData.website r)
  ∧ filled (CompanyData.linkedinUrl r)
  ∧ filled (CompanyData.twitterUrl r).
Proof.
  cbv zeta. unfold transformClearbitResponse. cbn [CompanyData.domain CompanyData.rawData
    CompanyData.companyName CompanyData.industry CompanyData.description
    CompanyData.employeeCount CompanyData.location CompanyData.website
    CompanyData.linkedinUrl CompanyData.twitterUrl].
  split; [done|]. split; [done|].
  split; [apply orElse_filled, truthy_filled|].
  split; [do 3 apply orElse_filled; apply truthy_filled|].
  split; [apply truthy_filled|].
  split; [apply truthy_filled|].
  split.
  { apply orElse_filled, truthy_filled. }
  split; [by destruct (String.eqb _ _)|].
  split; by destruct (truthy _).
Qed.

End EnrichmentFacts.

Module LookupFacts.
Import JsString ClearbitClient ResearchService ResearchCache RunFacts ResearchSpec
       ClearbitFacts ResearchFacts OrchestratorFacts PipelineFacts Trace EnrichmentFacts
       OrchestratorSpec.

(** The row of a result is the row the table holds for the domain once the
    call has returned. *)
Lemma researchCompany_lookup env domain w r w' :
  run (researchCompany env domain) w = (Fulfilled r, w') →
  World.findResearch (normalize domain) (World.companyResearch (World.db w'))
  = ResearchResult.companyResearch r.
Proof.
  rewrite researchCompany_run. cbv zeta. set (nd := normalize domain).
  case_bool_decide; [done|].
  destruct (World.findResearch nd _) as [row|] eqn:Hfind; [by intros [= <- <-]|].
  destruct (enrichCompany_run (clearbitClient env) nd
    (log ("[Research] Fetching enrichment data for domain: " +:+ nd) (World.next_query w)))
    as (er & wa & -> & (Hdb & _) & Hdata).
  destruct er as [data|error].
  - destruct (Hdata data eq_refl) as [Hdom _].
    rewrite saveCompanyResearch_run. case_bool_decide; [done|].
    pose proof (upsertResearch_spec (World.clock wa) data
                  (World.companyResearch (World.db wa))) as Hup.
    destruct (World.upsertResearch _ _ _) as [row table].
    destruct Hup as (_ & Hfound & _).
    intros [= <- <-]. cbn. by rewrite <- Hdom.
  - intros [= <- <-]. cbn. by rewrite Hdb.
Qed.

Lemma researchCompany_status env domain w r w' :
  run (researchCompany env domain) w = (Fulfilled r, w') →
  ResearchResult.status r
  = (if ResearchResult.success r then ResearchStatus.complete else ResearchStatus.failed).
Proof.
  rewrite researchCompany_run. cbv zeta.
  case_bool_decide; [done|].
  destruct (World.findResearch _ _); [by intros [= <- _]|].
  destruct (run (enrichCompany _ _) _) as [[[data|error]|e] w1]; [| |done].
  - destruct (run (saveCompanyResearch data) w1) as [[row|e] w2]; [|done].
    by intros [= <- _].
  - by intros [= <- _].
Qed.

Lemma researchCompany_row env domain w r w' :
  run (researchCompany env domain) w = (Fulfilled r, w') →
  ResearchResult.success r = true → is_Some (ResearchResult.companyResearch r).
Proof.
  rewrite researchCompany_run. cbv zeta.
  case_bool_decide; [done|].
  destruct (World.findResearch _ _); [by intros [= <- _]|].
  destruct (run (enrichCompany _ _) _) as [[[data|error]|e] w1]; [| |done].
  - destruct (run (saveCompanyResearch data) w1) as [[row|e] w2]; [|done].
    by intros [= <- _].
  - by intros [= <- _].
Qed.

(** X6. A result of [researchCompany] is well formed. It names the normalized
    domain. A success is [complete], has no error, and carries the row the
    table now holds for that domain; a failure is [failed], has an error
    message and no row, and the call has written nothing. *)
Theorem researchCompany_result env domain w r w' :
  run (researchCompany env domain) w = (Fulfilled r, w') →
  ResearchResult.domain r = normalize domain
  ∧ (ResearchResult.success r = true →
     ResearchResult.status r = ResearchStatus.complete
     ∧ ResearchResult.error r = None
     ∧ ∃ row, ResearchResult.companyResearch r = Some row
              ∧ CompanyResearch.domain row = normalize domain
              ∧ World.findResearch (normalize domain) (World.companyResearch (World.db w'))
                = Some row)
  ∧ (ResearchResult.success r = false →
     ResearchResult.status r = ResearchStatus.failed
     ∧ ResearchResult.companyResearch r = None
     ∧ is_Some (ResearchResult.error r)
     ∧ World.db w' = World.db w).
Proof.
  rewrite researchCompany_run. cbv zeta. set (nd := normalize domain).
  case_bool_decide; [done|].
  destruct (World.findResearch nd _) as [row|] eqn:Hfind.
  { intros [= <- <-]. cbn. split; [done|]. split; [|done]. intros _.
    split_and!; [done..|]. exists row. split; [done|].
    split; [|done]. by apply findResearch_domain in Hfind as [? _]. }
  destruct (enrichCompany_run (clearbitClient env) nd
    (log ("[Research] Fetching enrichment data for domain: " +:+ nd) (World.next_query w)))
    as (er & wa & -> & (Hdb & _) & Hdata).
  destruct er as [data|error].
  - destruct (Hdata data eq_refl) as [Hdom _].
    rewrite saveCompanyResearch_run. case_bool_decide; [done|].
    pose proof (upsertResearch_spec (World.clock wa) data
                  (World.companyResearch (World.db wa))) as Hup.
    destruct (World.upsertResearch _ _ _) as [row table].
    destruct Hup as (Hrow & Hfound & _).
    intros [= <- <-]. cbn. split; [done|]. split; [|done]. intros _.
    split_and!; [done..|]. exists row. by rewrite <- Hdom.
  - intros [= <- <-]. cbn. split; [done|]. split; [done|]. intros _.
    split_and!; [done|done|by eexists|]. by rewrite Hdb.
Qed.

Lemma researchCompany_result_witness :
  let out := run (researchCompany Fixtures.env0 " Stripe.COM ") Fixtures.world0 in
  ∃ row, ResearchResult.companyResearch
           (Fixtures.value (ResearchResult.mk false "" ResearchStatus.na None None) out)
         = Some row
         ∧ CompanyResearch.domain row = "stripe.com".
Proof.
  cbv zeta.
  destruct (researchCompany_result Fixtures.env0 " Stripe.COM " Fixtures.world0
              (Fixtures.value (ResearchResult.mk false "" ResearchStatus.na None None)
                 (run (researchCompany Fixtures.env0 " Stripe.COM ") Fixtures.world0))
              (run (researchCompany Fixtures.env0 " Stripe.COM ") Fixtures.world0).2)
    as (_ & Hok & _).
  - vm_compute. reflexivity.
  - destruct Hok as (_ & _ & row & Hrow & Hdom & _).
    + vm_compute. reflexivity.
    + exists row. split; [exact Hrow|exact Hdom].
Defined.

Lemma getCompanyResearch_run domain w :
  run (getCompanyResearch domain) w =
    if bool_decide (head (World.faults (World.oracle w)) = Some true)
    then (Rejected (Error "Can't reach database server"), World.next_query w)
    else (Fulfilled (World.findResearch (normalize domain)
                       (World.companyResearch (World.db w))),
          World.next_query w).
Proof.
  unfold getCompanyResearch. fold (normalize domain). rewrite run_await.
  cbn [World.handle]. unfold World.prisma. by case_bool_decide.
Qed.

(** X7. [getCompanyResearch] is a pure cache lookup: it sends no request and
    writes nothing, whether it returns or throws. Asked after a call of
    [researchCompany] for the same domain (the database answering), it
    returns exactly the row of that call's result: the stored row after a
    success, [null] after a failure. *)
Theorem getCompanyResearch_round_trip domain w :
  (World.db (run (getCompanyResearch domain) w).2 = World.db w
   ∧ World.events (run (getCompanyResearch domain) w).2 = World.events w)
  ∧ (∀ env w0 r,
       run (researchCompany env domain) w0 = (Fulfilled r, w) → answers w →
       (run (getCompanyResearch domain) w).1
       = Fulfilled (ResearchResult.companyResearch r)).
Proof.
  split.
  - rewrite getCompanyResearch_run. by case_bool_decide.
  - intros env w0 r Hrun Hans.
    rewrite getCompanyResearch_run, bool_decide_false by done. cbn [fst]. f_equal.
    by apply researchCompany_lookup in Hrun.
Qed.

Lemma getCompanyResearch_round_trip_witness :
  let w := (run (researchCompany Fixtures.env0 "Stripe.com") Fixtures.world0).2 in
  (run (getCompanyResearch "Stripe.com") w).1
  = Fulfilled (ResearchResult.companyResearch
                 (Fixtures.value (ResearchResult.mk false "" ResearchStatus.na None None)
                    (run (researchCompany Fixtures.env0 "Stripe.com") Fixtures.world0))).
Proof.
  cbv zeta.
  apply (getCompanyResearch_round_trip "Stripe.com"
           (run (researchCompany Fixtures.env0 "Stripe.com") Fixtures.world0).2)
    with (env := Fixtures.env0) (w0 := Fixtures.world0).
  - vm_compute. reflexivity.
  - vm_compute. discriminate.
Defined.

(** On a database that answers, [researchCompany] returns and leaves the
    contacts, the pending work and the database in order. *)
Lemma researchCompany_calm env domain w :
  calm w →
  ∃ r w', run (researchCompany env domain) w = (Fulfilled r, w')
          ∧ calm w'
          ∧ World.contacts (World.db w') = World.contacts (World.db w)
          ∧ World.tasks w' = World.tasks w.
Proof.
  intros Hcalm. rewrite researchCompany_run. cbv zeta. set (nd := normalize domain).
  rewrite bool_decide_false by (by apply calm_answers).
  pose proof (calm_next_query _ Hcalm) as Hcalm1.
  destruct (World.findResearch nd _) as [row|].
  { eexists _, _. split; [reflexivity|]. by split_and!. }
  destruct (enrichCompany_run (clearbitClient env) nd
    (log ("[Research] Fetching enrichment data for domain: " +:+ nd) (World.next_query w)))
    as (er & wa & -> & (Hdb & Hfaults & Htasks) & _).
  assert (calm wa) as Hcalma by (unfold calm; by rewrite Hfaults).
  destruct er as [data|error].
  - rewrite saveCompanyResearch_run, bool_decide_false by (by apply calm_answers).
    destruct (World.upsertResearch _ _ _) as [row table].
    eexists _, _. split; [reflexivity|]. cbn.
    split_and!; [by apply calm_next_query|by rewrite Hdb|by rewrite Htasks].
  - eexists _, _. split; [reflexivity|]. cbn.
    split_and!; [done|by rewrite Hdb|by rewrite Htasks].
Qed.

(** The research of an existing contact on a database that answers: the
    [processing] write, [researchCompany], and the write of the final
    status. *)
Lemma researchContactCompany_calm env contactId domain w c :
  calm w → World.contacts (World.db w) !! contactId = Some c →
  ∃ r w2,
    run (researchCompany env domain) (written contactId ResearchStatus.processing c w)
    = (Fulfilled r, w2)
    ∧ calm w2
    ∧ World.tasks w2 = World.tasks w
    ∧ run (researchContactCompany env contactId domain) w
      = (Fulfilled r, written contactId (ResearchResult.status r) c w2).
Proof.
  intros Hcalm Hc.
  rewrite researchContactCompany_run, updateContactResearchStatus_run.
  rewrite bool_decide_false by (by apply calm_answers). rewrite Hc.
  fold (written contactId ResearchStatus.processing c w).
  set (w1 := written _ _ _ _).
  assert (calm w1) as Hcalm1 by (by apply calm_next_query).
  destruct (researchCompany_calm env domain w1 Hcalm1) as (r & w2 & Hrun & Hcalm2 & Hcs & Hts).
  exists r, w2. split; [done|]. split; [done|]. split; [by rewrite Hts|].
  rewrite Hrun, updateContactResearchStatus_run.
  rewrite bool_decide_false by (by apply calm_answers).
  rewrite Hcs. unfold w1 at 1, written at 1.
  cbn [World.db World.with_db World.contacts World.set_contacts].
  rewrite lookup_insert_eq.
  rewrite <- (researchCompany_status _ _ _ _ _ Hrun).
  unfold written. rewrite Hcs. reflexivity.
Qed.

(** X8. On a database that answers, the research of an existing contact always
    returns, and it leaves the contact in the status of its result:
    [complete] after a success, [failed] after a failure, never [pending] or
    [processing]. Nothing else of the contact changes. For a contact that
    does not exist the first status write throws: the call is rejected
    before the cache or the provider is asked. *)
Theorem researchContactCompany_settles env contactId domain w :
  calm w →
  (∀ c, World.contacts (World.db w) !! contactId = Some c →
        ∃ r w',
          run (researchContactCompany env contactId domain) w = (Fulfilled r, w')
          ∧ ResearchResult.status r
            = (if ResearchResult.success r then ResearchStatus.complete
               else ResearchStatus.failed)
          ∧ World.contacts (World.db w') !! contactId
            = Some (Contact.with_researchStatus (ResearchResult.status r) c)
          ∧ calm w')
  ∧ (World.contacts (World.db w) !! contactId = None →
     ∃ e w',
       run (researchContactCompany env contactId domain) w = (Rejected e, w')
       ∧ World.db w' = World.db w ∧ World.events w' = World.events w).
Proof.
  intros Hcalm. split.
  - intros c Hc.
    destruct (researchContactCompany_calm env contactId domain w c Hcalm Hc)
      as (r & w2 & Hrun2 & Hcalm2 & _ & Hrun).
    eexists _, _. split; [exact Hrun|].
    split; [by apply researchCompany_status in Hrun2|].
    split; [|by apply calm_next_query].
    unfold written. cbn [World.db World.with_db World.contacts World.set_contacts].
    apply lookup_insert_eq.
  - intros Hc.
    rewrite researchContactCompany_run, updateContactResearchStatus_run.
    rewrite bool_decide_false by (by apply calm_answers). rewrite Hc.
    by eexists _, _.
Qed.

Lemma researchContactCompany_settles_witness :
  ∃ r w',
    run (researchContactCompany Fixtures.env0 "c1" "stripe.com")
        (World.with_db (fun _ => World.mkDb {["c1" := pendingContact]} [] ∅) Fixtures.world0)
    = (Fulfilled r, w')
    ∧ World.contacts (World.db w') !! "c1"
      = Some (Contact.with_researchStatus (ResearchResult.status r) pendingContact).
Proof.
  destruct (researchContactCompany_settles Fixtures.env0 "c1" "stripe.com"
              (World.with_db (fun _ => World.mkDb {["c1" := pendingContact]} [] ∅)
                 Fixtures.world0)) as [H _].
  - constructor.
  - destruct (H pendingContact) as (r & w' & Hrun & _ & Hc & _).
    + vm_compute. reflexivity.
    + exists r, w'. split; [exact Hrun|exact Hc].
Defined.

End LookupFacts.

Module CreationFacts.
Import JsString Regex EmailUtils ClearbitClient ResearchService ContactsService RunFacts
       ResearchSpec PipelineSpec ClearbitFacts ResearchFacts OrchestratorFacts PipelineFacts
       ClassifierFacts NormalFacts ContactFacts Trace EnrichmentFacts OrchestratorSpec
       LookupFacts.

Lemma rows_lookup {A} (m : gmap string A) i x : m !! i = Some x → x ∈ World.rows m.
Proof.
  intros H. unfold World.rows. apply list_elem_of_fmap. exists (i, x).
  split; [done|]. by apply elem_of_map_to_list.
Qed.

Lemma find_elem_of {A} (f : A → bool) (l : list A) x :
  x ∈ l → f x = true → is_Some (List.find f l).
Proof.
  intros Hin Hf. destruct (List.find f l) eqn:Hfind; [by eexists|].
  apply list_elem_of_In in Hin. pose proof (find_none f l Hfind x Hin). congruence.
Qed.

(** [createContact] logs nothing and sends nothing. *)
Lemma createContact_events userId input w :
  World.events (run (createContact userId input) w).2 = World.events w.
Proof.
  unfold createContact.
  destruct (truthy (normalizeEmail (CreateContactInput.email input))) as [ne|]; [|done].
  rewrite run_bind, run_await. cbn [World.handle]. unfold World.prisma.
  case_bool_decide; [done|]. unfold World.do_contact_findUnique.
  destruct (List.find _ _); [done|]. cbn [run].
  rewrite run_bind, run_await. cbn [World.handle]. unfold World.prisma.
  case_bool_decide; [done|]. unfold World.do_contact_create. cbv zeta.
  destruct (_ || _); [done|]. rewrite run_bind.
  destruct (isBusinessEmail ne), (truthy (extractDomain ne)); done.
Qed.

(** The contact a successful [createContact] returns belongs to the caller. *)
Lemma createContact_owner userId input w r w1 :
  run (createContact userId input) w = (Fulfilled r, w1) →
  Contact.userId (ContactWithResearchInfo.contact r) = userId.
Proof.
  unfold createContact.
  destruct (truthy (normalizeEmail (CreateContactInput.email input))) as [ne|]; [|done].
  rewrite run_bind, run_await. cbn [World.handle]. unfold World.prisma.
  case_bool_decide; [done|]. unfold World.do_contact_findUnique.
  destruct (List.find _ _); [done|]. cbn [run].
  rewrite run_bind, run_await. cbn [World.handle]. unfold World.prisma.
  case_bool_decide; [done|]. unfold World.do_contact_create. cbv zeta.
  destruct (_ || _); [done|]. rewrite run_bind.
  destruct (isBusinessEmail ne), (truthy (extractDomain ne)); by intros [= <- _].
Qed.

(** An address the caller already holds is refused, and nothing is
    written. *)
Lemma createContact_existing userId input w ne id existing :
  normalizeEmail (CreateContactInput.email input) = Some ne → answers w →
  World.contacts (World.db w) !! id = Some existing →
  Contact.userId existing = userId → Contact.email existing = ne →
  run (createContact userId input) w
  = (Rejected (Error "Contact with this email already exists"), World.next_query w).
Proof.
  intros Hne Hans Hid Hu He. unfold createContact. rewrite Hne.
  pose proof (normalizeEmail_nonempty _ _ Hne) as Hnonempty.
  destruct ne as [|a ne']; [done|]. cbn [truthy].
  rewrite run_bind, run_await. cbn [World.handle].
  rewrite prisma_answers by done. unfold World.do_contact_findUnique.
  rewrite next_query_db.
  destruct (find_elem_of
              (fun c => String.eqb (Contact.userId c) userId
                        && String.eqb (Contact.email c) (String a ne'))
              (World.rows (World.contacts (World.db w))) existing) as [c ->].
  - by eapply rows_lookup.
  - rewrite Hu, He. by rewrite !String.eqb_refl.
  - done.
Qed.

(** X9. [createContact] refuses an address that [normalizeEmail] rejects with
    'Invalid email address' before any database call: the world is left as
    it was. It refuses an address the caller already holds with 'Contact with
    this email already exists': no row is written, nothing is logged and no
    research is started. *)
Theorem createContact_refusals userId input w :
  (normalizeEmail (CreateContactInput.email input) = None →
   run (createContact userId input) w = (Rejected (Error "Invalid email address"), w))
  ∧ (∀ ne id existing,
       normalizeEmail (CreateContactInput.email input) = Some ne → answers w →
       World.contacts (World.db w) !! id = Some existing →
       Contact.userId existing = userId → Contact.email existing = ne →
       ∃ w', run (createContact userId input) w
             = (Rejected (Error "Contact with this email already exists"), w')
             ∧ World.db w' = World.db w
             ∧ World.tasks w' = World.tasks w
             ∧ World.events w' = World.events w).
Proof.
  split.
  - intros Hne. unfold createContact. by rewrite Hne.
  - intros ne id existing Hne Hans Hid Hu He.
    exists (World.next_query w). split; [|done].
    by eapply createContact_existing.
Qed.

(** X10. A user cannot hold two contacts with one address. Once [createContact]
    has stored a contact, a second call by the same user for any input whose
    address normalizes to the same one (whatever its case and the white
    space around it) is refused as a duplicate, and writes nothing. *)
Theorem createContact_duplicate userId input input' w r w1 :
  run (createContact userId input) w = (Fulfilled r, w1) →
  normalizeEmail (CreateContactInput.email input')
  = normalizeEmail (CreateContactInput.email input) →
  answers w1 →
  ∃ w2, run (createContact userId input') w1
        = (Rejected (Error "Contact with this email already exists"), w2)
        ∧ World.db w2 = World.db w1.
Proof.
  intros Hrun Hsame Hans.
  pose proof (createContact_owner _ _ _ _ _ Hrun) as Hu.
  apply createContact_fulfilled in Hrun as (Hne & _ & _ & _ & Hc & _).
  exists (World.next_query w1). split; [|done].
  eapply createContact_existing; [by rewrite Hsame| done | exact Hc | exact Hu | done].
Qed.

Lemma createContact_duplicate_witness :
  let w1 := (run (createContact "u1" Examples.john) Fixtures.world0).2 in
  ∃ w2,
    run (createContact "u1"
           (CreateContactInput.mk " John@GMAIL.com " None None None None None None)) w1
    = (Rejected (Error "Contact with this email already exists"), w2)
    ∧ World.db w2 = World.db w1.
Proof.
  cbv zeta.
  apply (createContact_duplicate "u1" Examples.john
           (CreateContactInput.mk " John@GMAIL.com " None None None None None None)
           Fixtures.world0
           (Fixtures.value Examples.nobody
              (run (createContact "u1" Examples.john) Fixtures.world0))).
  - vm_compute. reflexivity.
  - vm_compute. reflexivity.
  - vm_compute. discriminate.
Defined.

Lemma isBusinessEmail_domain e :
  isBusinessEmail e = true → ∃ d, extractDomain e = Some d.
Proof.
  rewrite isBusinessEmail_unfold. destruct (extractDomain e) as [d|]; [by exists d|done].
Qed.

Lemma settle_idle env w : World.tasks w = [] → settle env w = w.
Proof. intros H. unfold settle. rewrite H. destruct w; cbn in *. by subst. Qed.

(** The detached research of a contact just created, on a database that
    answers. *)
Lemma settle_research env w c d ne :
  calm w → World.contacts (World.db w) !! Contact.id c = Some c →
  World.tasks w = [AutoResearch (Contact.id c) d ne] →
  ∃ r w2,
    run (researchCompany env d)
        (written (Contact.id c) ResearchStatus.processing c (World.with_tasks [] w))
    = (Fulfilled r, w2)
    ∧ World.tasks w2 = []
    ∧ settle env w
      = log ("[Contact] Auto-research completed for " +:+ ne +:+ ": "
             +:+ (if ResearchResult.success r then "success" else "failed"))
            (written (Contact.id c) (ResearchResult.status r) c w2).
Proof.
  intros Hcalm Hc Ht. unfold settle. rewrite Ht. cbn [fold_left run_task].
  destruct (researchContactCompany_calm env (Contact.id c) d (World.with_tasks [] w) c)
    as (r & w2 & Hrun2 & _ & Hts & Hrun); [done..|].
  exists r, w2. split; [done|]. split; [done|].
  unfold autoResearch. by rewrite run_try_catch, run_bind, Hrun.
Qed.

(** X11. Once the detached research has run, on a database that answers, no
    contact is left [pending] or [processing]: a contact created with a
    business address is [complete] or [failed], with nothing else of its row
    changed and no work left; for a contact created with a personal address
    no research is started, the world does not move, and the contact stays
    [na]. *)
Theorem auto_research_settles env userId input w r w1 :
  run (createContact userId input) w = (Fulfilled r, w1) →
  calm w → World.tasks w = [] →
  let c := ContactWithResearchInfo.contact r in
  World.tasks (settle env w1) = []
  ∧ (ContactWithResearchInfo.isBusinessContact r = true →
     ∃ st, (st = ResearchStatus.complete ∨ st = ResearchStatus.failed)
           ∧ World.contacts (World.db (settle env w1)) !! Contact.id c
             = Some (Contact.with_researchStatus st c))
  ∧ (ContactWithResearchInfo.isBusinessContact r = false →
     settle env w1 = w1
     ∧ World.contacts (World.db w1) !! Contact.id c = Some c
     ∧ Contact.researchStatus c = ResearchStatus.na).
Proof.
  intros Hrun Hcalm Htasks c.
  apply createContact_fulfilled in Hrun as (_ & Hb & _ & Hst & Hc & _ & Ht & Hcalm1).
  fold c in Hb, Hst, Hc, Ht. rewrite Htasks in Ht. cbn [app] in Ht.
  destruct (isBusinessEmail (Contact.email c)) eqn:Hbus.
  - destruct (isBusinessEmail_domain _ Hbus) as [d Hd]. rewrite Hd in Ht.
    destruct (settle_research env w1 c d (Contact.email c)) as (res & w2 & Hrun2 & Hts & ->);
      [by apply Hcalm1|done..|].
    split; [done|]. split; [|by rewrite Hb].
    intros _. exists (ResearchResult.status res). split.
    + rewrite (researchCompany_status _ _ _ _ _ Hrun2).
      destruct (ResearchResult.success res); [by left|by right].
    + unfold written, log. cbn [World.db World.emit World.with_db World.contacts
                                 World.set_contacts].
      apply lookup_insert_eq.
  - rewrite (settle_idle env w1 Ht). split; [done|]. split; [by rewrite Hb|].
    by intros _.
Qed.

Lemma auto_research_settles_witness :
  let out := run (createContact "u1" Examples.ghost) Fixtures.world0 in
  World.tasks (settle Fixtures.env0 out.2) = [].
Proof.
  cbv zeta.
  apply (auto_research_settles Fixtures.env0 "u1" Examples.ghost Fixtures.world0
           (Fixtures.value Examples.nobody
              (run (createContact "u1" Examples.ghost) Fixtures.world0))
           (run (createContact "u1" Examples.ghost) Fixtures.world0).2).
  - vm_compute. reflexivity.
  - constructor.
  - reflexivity.
Defined.

(** [researchCompany] in mock mode, for a domain the client accepts and the
    mock knows: it succeeds, and asks nothing of the provider. *)
Lemma researchCompany_mock env domain w :
  calm w → useMock (clearbitClient env) = true →
  isValidDomain (normalize domain) = true → mockNotFound (normalize domain) = false →
  ∃ r w', run (researchCompany env domain) w = (Fulfilled r, w')
          ∧ ResearchResult.success r = true
          ∧ requests w' = requests w.
Proof.
  intros Hcalm Hmock Hv Hnf. rewrite researchCompany_run. cbv zeta.
  set (nd := normalize domain) in *.
  rewrite bool_decide_false by (by apply calm_answers).
  destruct (World.findResearch nd _) as [row|].
  { eexists _, _. split; [reflexivity|]. split; [done|]. by rewrite requests_log. }
  rewrite enrichCompany_mock by done.
  unfold getMockData. unfold mockNotFound in Hnf. rewrite Hnf. cbn [run].
  rewrite saveCompanyResearch_run.
  rewrite bool_decide_false by (by apply calm_answers, calm_next_query).
  destruct (World.upsertResearch _ _ _) as [row table].
  eexists _, _. split; [reflexivity|]. split; [done|].
  rewrite requests_log.
  change (requests (log ("[Research] Fetching enrichment data for domain: " +:+ nd)
                        (World.next_query w)) = requests w).
  by rewrite requests_log.
Qed.

(** X12. In mock mode a business contact whose domain the client accepts, and
    which is not one of the domains the mock reports as not found, ends
    [complete] once the detached research has run (the database answering):
    the cache then holds a row for its domain, and no request has gone to
    the provider. *)
Theorem mock_research_completes env userId input w r w1 d :
  run (createContact userId input) w = (Fulfilled r, w1) →
  let c := ContactWithResearchInfo.contact r in
  Contact.companyDomain c = Some d →
  calm w → World.tasks w = [] →
  useMock (clearbitClient env) = true →
  isValidDomain d = true → mockNotFound d = false →
  statusOf (Contact.id c) (settle env w1) = Some ResearchStatus.complete
  ∧ (∃ row, World.findResearch d (World.companyResearch (World.db (settle env w1)))
            = Some row
            ∧ CompanyResearch.domain row = d)
  ∧ requests (settle env w1) = requests w.
Proof.
  intros Hrun c Hd Hcalm Htasks Hmock Hv Hnf.
  pose proof (createContact_events userId input w) as Hev. rewrite Hrun in Hev.
  cbn [snd] in Hev.
  apply createContact_fulfilled in Hrun as (_ & _ & Hcd & _ & Hc & _ & Ht & Hcalm1).
  fold c in Hcd, Hc, Ht. rewrite Htasks in Ht. cbn [app] in Ht.
  rewrite Hd in Hcd.
  destruct (isBusinessEmail (Contact.email c)); [|done]. rewrite <- Hcd in Ht.
  assert (normalize d = d) as Hn.
  { apply domainRegex_normal. symmetry in Hcd. by apply extractDomain_Some in Hcd as [_ ?]. }
  destruct (settle_research env w1 c d (Contact.email c)) as (res & w2 & Hrun2 & Hts & ->);
    [by apply Hcalm1|done..|].
  destruct (researchCompany_mock env d
              (written (Contact.id c) ResearchStatus.processing c (World.with_tasks [] w1)))
    as (res' & w2' & Hrun2' & Hok & Hrq);
    [by apply calm_next_query, Hcalm1|done|by rewrite Hn..|].
  rewrite Hrun2 in Hrun2'. injection Hrun2' as <- <-.
  pose proof (researchCompany_status _ _ _ _ _ Hrun2) as Hst. rewrite Hok in Hst.
  pose proof (researchCompany_lookup _ _ _ _ _ Hrun2) as Hlook. rewrite Hn in Hlook.
  split; [|split].
  - unfold statusOf, written, log.
    cbn [World.db World.emit World.with_db World.contacts World.set_contacts].
    rewrite lookup_insert_eq. cbn. by rewrite Hst.
  - change (∃ row, World.findResearch d (World.companyResearch (World.db w2)) = Some row
                   ∧ CompanyResearch.domain row = d).
    rewrite Hlook.
    destruct (ResearchResult.companyResearch res) as [row|] eqn:Hrow.
    + exists row. split; [done|]. by apply findResearch_domain in Hlook as [? _].
    + destruct (researchCompany_row _ _ _ _ _ Hrun2 Hok) as [x Hx]. congruence.
  - rewrite requests_log. unfold written.
    change (requests w2 = requests w). rewrite Hrq.
    change (requests w1 = requests w). unfold requests. by rewrite Hev.
Qed.

Lemma mock_research_completes_witness :
  let out := run (createContact "u1"
                    (CreateContactInput.mk " CEO@Stripe.com " None None None None None None))
                 Fixtures.world0 in
  statusOf (Contact.id (ContactWithResearchInfo.contact (Fixtures.value Examples.nobody out)))
           (settle Fixtures.env0 out.2)
  = Some ResearchStatus.complete.
Proof.
  cbv zeta.
  apply (mock_research_completes Fixtures.env0 "u1"
           (CreateContactInput.mk " CEO@Stripe.com " None None None None None None)
           Fixtures.world0
           (Fixtures.value Examples.nobody
              (run (createContact "u1"
                      (CreateContactInput.mk " CEO@Stripe.com " None None None None None None))
                   Fixtures.world0))
           (run (createContact "u1"
                   (CreateContactInput.mk " CEO@Stripe.com " None None None None None None))
                Fixtures.world0).2
           "stripe.com").
  - vm_compute. reflexivity.
  - vm_compute. reflexivity.
  - constructor.
  - reflexivity.
  - reflexivity.
  - vm_compute. reflexivity.
  - vm_compute. reflexivity.
Defined.

End CreationFacts.

Module MailFacts.
Import JsString SendGrid RunFacts ResearchSpec ResearchFacts Trace MailSpec.

Lemma mailsOut_emit e w :
  mailsOut (World.emit e w)
  = mailsOut w ++ match e with World.MailOut m => [m] | _ => [] end.
Proof.
  unfold mailsOut, World.emit. cbn [World.events]. rewrite omap_app.
  destruct e; cbn; by rewrite ?app_nil_r.
Qed.

Lemma mailsOut_log line w : mailsOut (log line w) = mailsOut w.
Proof. unfold log. by rewrite mailsOut_emit, app_nil_r. Qed.

Lemma quiet_refl w : quiet w w.
Proof. done. Qed.

Lemma quiet_trans w1 w2 w3 : quiet w1 w2 → quiet w2 w3 → quiet w1 w3.
Proof. intros (?&?&?) (?&?&?). unfold quiet. split_and!; congruence. Qed.

(** A fresh message id starts with its prefix, and taking it touches neither
    the database nor the mail client. *)
Lemma freshMessageId_run prefix w :
  ∃ id w', run (freshMessageId prefix) w = (Fulfilled (prefix +:+ "_" +:+ id), w')
           ∧ quiet w w' ∧ World.events w' = World.events w.
Proof.
  unfold freshMessageId. rewrite run_bind, run_await. cbn [World.handle].
  rewrite run_bind, run_await. cbn [World.handle].
  destruct (World.entropy _) as [|rnd rest]; cbn [run];
    eexists _, _; (split; [reflexivity|]); done.
Qed.

Lemma startsWith_app p s : startsWith (p +:+ s) p = true.
Proof.
  induction p as [|a p IH]; [by destruct s|].
  change (String a p +:+ s) with (String a (p +:+ s)). cbn [startsWith].
  by rewrite Ascii.eqb_refl.
Qed.


Lemma run_console_error line w :
  run (console_error line) w = (Fulfilled tt, World.emit (World.Logged ERROR line) w).
Proof. reflexivity. Qed.

(** [sendEmail] without a usable key: the mock. *)
Lemma sendEmail_mock env params w :
  isSendGridConfigured env = false →
  ∃ id w',
    run (sendEmail env params) w
    = (Fulfilled (SendEmailResult.mk true (Some ("mock_" +:+ id)) None (Some true)), w')
    ∧ quiet w w' ∧ mailsOut w' = mailsOut w.
Proof.
  intros Hc. unfold sendEmail. rewrite Hc. cbn [negb].
  rewrite run_bind, run_console_log, run_bind, run_console_log,
    run_bind, run_console_log, run_bind, run_console_log, run_bind.
  destruct (freshMessageId_run "mock" (log ("  Body: " +:+ substring2 (SendEmailParams.text params) 0 100 +:+ "...")
     (log ("  Subject: " +:+ SendEmailParams.subject params)
     (log ("  To: " +:+ match truthy (SendEmailParams.toName params) with
                        | Some n => n +:+ " <" +:+ SendEmailParams.to params +:+ ">"
                        | None => SendEmailParams.to params
                        end)
     (log "[SendGrid Mock] Would send email:" w)))))
    as (id & w' & -> & Hq & Hev).
  exists id, w'. split; [done|]. split.
  - eapply quiet_trans; [|exact Hq]. done.
  - unfold mailsOut. rewrite Hev. fold (mailsOut (log ("  Body: " +:+ substring2 (SendEmailParams.text params) 0 100 +:+ "...")
     (log ("  Subject: " +:+ SendEmailParams.subject params)
     (log ("  To: " +:+ match truthy (SendEmailParams.toName params) with
                        | Some n => n +:+ " <" +:+ SendEmailParams.to params +:+ ">"
                        | None => SendEmailParams.to params
                        end)
     (log "[SendGrid Mock] Would send email:" w))))).
    by rewrite !mailsOut_log.
Qed.

(** [sendEmail] with a key: one message goes to the mail client, whose reply
    decides the result. *)
Lemma sendEmail_live env params w :
  isSendGridConfigured env = true →
  ∃ r w',
    run (sendEmail env params) w = (Fulfilled r, w')
    ∧ quiet w w'
    ∧ mailsOut w'
      = mailsOut w
        ++ [SgMail.mkMsg (SendEmailParams.to params) (truthy (SendEmailParams.toName params))
              (FROM_EMAIL env) (FROM_NAME env) (SendEmailParams.subject params)
              (SendEmailParams.text params)
              (default (newlinesToBr (SendEmailParams.text params))
                       (truthy (SendEmailParams.html params)))]
    ∧ match head (World.mailer (World.oracle w)) with
      | Some (inl e) => r = SendEmailResult.mk false None (Some (reported e)) None
      | Some (inr (Some (String a id))) =>
          r = SendEmailResult.mk true (Some (String a id)) None None
      | _ => ∃ id, r = SendEmailResult.mk true (Some ("sg_" +:+ id)) None None
      end.
Proof.
  intros Hc. unfold sendEmail. rewrite Hc. cbn [negb].
  rewrite run_try_catch, run_bind, run_await. cbn [World.handle]. cbv zeta.
  set (m := SgMail.mkMsg _ _ _ _ _ _ _).
  change (World.mailer (World.oracle (World.emit (World.MailOut m) w)))
    with (World.mailer (World.oracle w)).
  assert (Hout : mailsOut (World.emit (World.MailOut m) w) = mailsOut w ++ [m])
    by apply mailsOut_emit.
  destruct (World.mailer (World.oracle w)) as [|[e|[[|a id]|]] rest]; cbn [head run truthy].
  - rewrite run_bind.
    destruct (freshMessageId_run "sg" (World.emit (World.MailOut m) w))
      as (id & w' & -> & Hq & Hev).
    eexists _, w'. split; [reflexivity|]. split; [exact Hq|].
    split; [|by exists id]. unfold mailsOut in *. by rewrite Hev.
  - rewrite run_bind, run_console_error. cbn [run].
    eexists _, _. split; [reflexivity|]. split; [done|].
    split; [|by destruct e as [| |? [|]]].
    rewrite mailsOut_emit, app_nil_r. exact Hout.
  - rewrite run_bind.
    destruct (freshMessageId_run "sg"
                (World.with_oracle (World.set_mailer rest) (World.emit (World.MailOut m) w)))
      as (id & w' & -> & Hq & Hev).
    eexists _, w'. split; [reflexivity|]. split; [exact Hq|].
    split; [|by exists id]. unfold mailsOut in *. by rewrite Hev.
  - eexists _, _. split; [reflexivity|]. split; [done|]. done.
  - rewrite run_bind.
    destruct (freshMessageId_run "sg"
                (World.with_oracle (World.set_mailer rest) (World.emit (World.MailOut m) w)))
      as (id & w' & -> & Hq & Hev).
    eexists _, w'. split; [reflexivity|]. split; [exact Hq|].
    split; [|by exists id]. unfold mailsOut in *. by rewrite Hev.
Qed.

(** X13. [sendEmail] never throws and never touches the database. Without a
    usable SendGrid key it is a mock: nothing is handed to the mail client,
    and the result is a success flagged [mockMode] whose message id starts
    with mock_. With a key exactly one message is handed over, addressed to
    the recipient, with the subject and text given and, when no HTML is
    given, the text with its line feeds turned into <br>; a failure of the
    mail client becomes a failed result that carries the first error of the
    response body when there is one, the message of the exception
    otherwise. *)
Theorem sendEmail_outcome env params w :
  ∃ r w',
    run (sendEmail env params) w = (Fulfilled r, w')
    ∧ World.db w' = World.db w
    ∧ (isSendGridConfigured env = false →
       mailsOut w' = mailsOut w
       ∧ SendEmailResult.success r = true
       ∧ SendEmailResult.mockMode r = Some true
       ∧ ∃ id, SendEmailResult.messageId r = Some id ∧ startsWith id "mock_" = true)
    ∧ (isSendGridConfigured env = true →
       SendEmailResult.mockMode r = None
       ∧ (∃ m, mailsOut w' = mailsOut w ++ [m]
               ∧ SgMail.to m = SendEmailParams.to params
               ∧ SgMail.subject m = SendEmailParams.subject params
               ∧ SgMail.text m = SendEmailParams.text params
               ∧ (truthy (SendEmailParams.html params) = None →
                  SgMail.html m = newlinesToBr (SendEmailParams.text params)))
       ∧ (∀ e, head (World.mailer (World.oracle w)) = Some (inl e) →
               SendEmailResult.success r = false
               ∧ SendEmailResult.messageId r = None
               ∧ SendEmailResult.error r = Some (reported e))
       ∧ ((∀ e, head (World.mailer (World.oracle w)) ≠ Some (inl e)) →
          SendEmailResult.success r = true
          ∧ is_Some (SendEmailResult.messageId r)
          ∧ SendEmailResult.error r = None)).
Proof.
  destruct (isSendGridConfigured env) eqn:Hc.
  - destruct (sendEmail_live env params w Hc) as (r & w' & Hrun & (Hdb & _) & Hout & Hr).
    exists r, w'. split; [done|]. split; [done|]. split; [done|]. intros _.
    assert (SendEmailResult.mockMode r = None
            ∧ (∀ e, head (World.mailer (World.oracle w)) = Some (inl e) →
                    r = SendEmailResult.mk false None (Some (reported e)) None)
            ∧ ((∀ e, head (World.mailer (World.oracle w)) ≠ Some (inl e)) →
               ∃ id, r = SendEmailResult.mk true (Some id) None None)) as (Hm & Hko & Hok).
    { destruct (head (World.mailer (World.oracle w))) as [[e|[[|a id]|]]|];
        lazymatch type of Hr with
        | ex _ => destruct Hr as [id' ->]
        | _ => subst r
        end;
        (split; [done|]; split; [by intros ? [= <-]|]; intros Hne;
         try (by eexists); by destruct (Hne e)). }
    split; [exact Hm|]. split.
    { eexists. split; [exact Hout|]. cbn. split_and!; [done..|]. by intros ->. }
    split.
    + intros e He. by rewrite (Hko e He).
    + intros Hne. destruct (Hok Hne) as [id ->]. cbn. split_and!; [done|by eexists|done].
  - destruct (sendEmail_mock env params w Hc) as (id & w' & Hrun & (Hdb & _) & Hout).
    eexists _, w'. split; [done|]. split; [done|]. split; [|done]. intros _.
    cbn. split_and!; [done..|]. eexists. split; [done|]. apply (startsWith_app "mock_").
Qed.

End MailFacts.

Module SendFacts.
Import JsString EmailService RunFacts DeliverySpec DeliveryFacts ResearchSpec ResearchFacts
       Trace MailSpec MailFacts DeliverySteps.

Lemma email_update_run id data w :
  run (await (email_update id data)) w =
    if bool_decide (head (World.faults (World.oracle w)) = Some true)
    then (Rejected unreachable, World.next_query w)
    else match World.emails (World.db w) !! id with
         | None => (Rejected (Error "Record to update not found."), World.next_query w)
         | Some e => (Fulfilled (Email.apply data e), updated id data e w)
         end.
Proof.
  rewrite run_await. cbn [World.handle]. unfold World.prisma.
  case_bool_decide; [done|]. unfold World.do_email_update. rewrite next_query_db.
  by destruct (World.emails (World.db w) !! id).
Qed.

(** [sendSavedEmail] is its lookup and its guards, then [deliver], all under
    [recover]. *)
Lemma sendSavedEmail_run env options w :
  let emailId := SendEmailOptions.emailId options in
  let notFound := SendEmailResponse.failure "Email not found or access denied" in
  run (sendSavedEmail env options) w =
    if bool_decide (head (World.faults (World.oracle w)) = Some true)
    then run (recover emailId unreachable) (World.next_query w)
    else
      match World.emails (World.db w) !! emailId with
      | None => (Fulfilled notFound, World.next_query w)
      | Some e =>
          if negb (String.eqb (Email.userId e) (SendEmailOptions.userId options))
          then (Fulfilled notFound, World.next_query w)
          else
            match World.contacts (World.db w) !! Email.contactId e with
            | None =>
                run (recover emailId (Error "Inconsistent query result: contact is required"))
                    (World.next_query w)
            | Some c =>
                match refusal e c with
                | Some msg => (Fulfilled (SendEmailResponse.failure msg), World.next_query w)
                | None =>
                    run (try_catch (deliver env emailId e c) (recover emailId))
                        (World.next_query w)
                end
            end
      end.
Proof.
  cbv zeta. unfold sendSavedEmail.
  change (fun error : exn => _) with (recover (SendEmailOptions.emailId options)).
  rewrite run_try_catch, run_bind, run_await. cbn [World.handle]. unfold World.prisma.
  case_bool_decide; [done|]. unfold World.do_email_findFirst. rewrite next_query_db.
  destruct (World.emails (World.db w) !! _) as [e|]; [|done].
  destruct (negb _); [done|].
  destruct (World.contacts (World.db w) !! _) as [c|]; [|done].
  unfold refusal. cbv zeta.
  destruct (bool_decide _ || bool_decide _); [done|].
  destruct (bool_decide _ && bool_decide _ && bool_decide _); [done|].
  destruct (String.eqb (Contact.email c) ""); [done|].
  by rewrite run_try_catch.
Qed.


Lemma sendEmail_quiet env params w :
  ∃ r w', run (SendGrid.sendEmail env params) w = (Fulfilled r, w') ∧ quiet w w'
          ∧ ∃ ms, mailsOut w' = mailsOut w ++ ms ∧ (List.length ms ≤ 1)%nat.
Proof.
  destruct (SendGrid.isSendGridConfigured env) eqn:Hc.
  - destruct (sendEmail_live env params w Hc) as (r & w' & Hrun & Hq & Hout & _).
    exists r, w'. split; [done|]. split; [done|]. eexists. split; [exact Hout|]. cbn. lia.
  - destruct (sendEmail_mock env params w Hc) as (id & w' & Hrun & Hq & Hout).
    eexists _, w'. split; [done|]. split; [done|]. exists []. rewrite app_nil_r. split; [done|]. cbn. lia.
Qed.

Lemma mailsOut_next_query w : mailsOut (World.next_query w) = mailsOut w.
Proof. done. Qed.

Lemma mailsOut_updated id data e w : mailsOut (updated id data e w) = mailsOut w.
Proof. done. Qed.

Lemma calm_quiet w w' : quiet w w' → calm w → calm w'.
Proof. intros (_ & Hf & _). unfold calm. by rewrite Hf. Qed.

Lemma calm_updated id data e w : calm w → calm (updated id data e w).
Proof. apply calm_next_query. Qed.

Lemma calm_log l line w : calm w → calm (World.emit (World.Logged l line) w).
Proof. done. Qed.

Lemma updated_other id data e w j :
  j ≠ id → World.emails (World.db (updated id data e w)) !! j = World.emails (World.db w) !! j.
Proof.
  intros Hj. unfold updated.
  cbn [World.db World.with_db World.emails World.set_emails].
  by apply lookup_insert_ne.
Qed.

(** The handler of the [catch] always answers with the message of the
    exception; all it may write is the status of the email. *)
Lemma recover_run id e w :
  ∃ w', run (recover id e) w = (Fulfilled (SendEmailResponse.failure (exn_message e)), w')
        ∧ World.contacts (World.db w') = World.contacts (World.db w)
        ∧ World.companyResearch (World.db w') = World.companyResearch (World.db w)
        ∧ (∀ j, j ≠ id → World.emails (World.db w') !! j = World.emails (World.db w) !! j)
        ∧ mailsOut w' = mailsOut w
        ∧ (calm w → calm w').
Proof.
  unfold recover. rewrite run_bind, run_console_error, run_bind, run_try_catch, run_bind.
  rewrite email_update_run. case_bool_decide.
  { eexists. split; [reflexivity|]. split_and!; [done..| |].
    - cbn [run]. by rewrite mailsOut_next_query, mailsOut_emit, app_nil_r.
    - intros Hcalm. by apply calm_next_query. }
  cbn [World.db World.emit].
  destruct (World.emails (World.db w) !! id) as [e0|];
    (eexists; split; [reflexivity|]; split_and!; [done|done| | |]).
  - intros j Hj. by rewrite updated_other.
  - by rewrite mailsOut_updated, mailsOut_emit, app_nil_r.
  - intros Hcalm. by apply calm_next_query.
  - done.
  - cbn [run]. by rewrite mailsOut_next_query, mailsOut_emit, app_nil_r.
  - intros Hcalm. by apply calm_next_query.
Qed.

(** [deliver] under [recover], step by step. *)
Lemma deliver_run env id e c w :
  run (try_catch (deliver env id e c) (recover id)) w =
    if bool_decide (head (World.faults (World.oracle w)) = Some true)
    then run (recover id unreachable) (World.next_query w)
    else
      match World.emails (World.db w) !! id with
      | None => run (recover id (Error "Record to update not found.")) (World.next_query w)
      | Some e0 =>
          let row1 := Email.apply (status_only EmailStatus.queued) e0 in
          match run (SendGrid.sendEmail env (recipient e c))
                    (updated id (status_only EmailStatus.queued) e0 w) with
          | (Rejected x, w3) => run (recover id x) w3
          | (Fulfilled sr, w3) =>
              if SendEmailResult.success sr then
                let data := Email.mkPatch (Some EmailStatus.sent) (Some (World.clock w3))
                              (Some (truthy (SendEmailResult.messageId sr))) in
                let w4 := World.with_clock (World.clock w3 + 1) w3 in
                if bool_decide (head (World.faults (World.oracle w3)) = Some true)
                then run (recover id unreachable) (World.next_query w4)
                else
                  match World.emails (World.db w3) !! id with
                  | None =>
                      run (recover id (Error "Record to update not found."))
                          (World.next_query w4)
                  | Some e1 =>
                      (Fulfilled (SendEmailResponse.mk true (Some (info (Email.apply data e1)))
                                    None (SendEmailResult.mockMode sr)),
                       updated id data e1 w4)
                  end
              else
                if bool_decide (head (World.faults (World.oracle w3)) = Some true)
                then run (recover id unreachable) (World.next_query w3)
                else
                  match World.emails (World.db w3) !! id with
                  | None =>
                      run (recover id (Error "Record to update not found."))
                          (World.next_query w3)
                  | Some e1 =>
                      (Fulfilled (SendEmailResponse.failure
                                    (default "Failed to send email"
                                       (truthy (SendEmailResult.error sr)))),
                       updated id (status_only EmailStatus.failed) e1 w3)
                  end
          end
      end.
Proof.
  unfold deliver. rewrite run_try_catch, run_bind, email_update_run.
  case_bool_decide; [done|].
  destruct (World.emails (World.db w) !! id) as [e0|]; [|done]. cbv zeta.
  rewrite run_bind.
  destruct (run (SendGrid.sendEmail env (recipient e c)) _) as [[sr|x] w3]; [|done].
  destruct (SendEmailResult.success sr).
  - rewrite run_bind, run_await. cbn [World.handle]. rewrite run_bind, email_update_run.
    change (World.faults (World.oracle (World.with_clock (World.clock w3 + 1) w3)))
      with (World.faults (World.oracle w3)).
    case_bool_decide; [done|].
    change (World.db (World.with_clock (World.clock w3 + 1) w3)) with (World.db w3).
    by destruct (World.emails (World.db w3) !! id).
  - rewrite run_bind, email_update_run. case_bool_decide; [done|].
    by destruct (World.emails (World.db w3) !! id).
Qed.


(** Every call of [sendSavedEmail] returns, and settles. *)
Lemma sendSavedEmail_cases env options w :
  ∃ r w', run (sendSavedEmail env options) w = (Fulfilled r, w') ∧ settled options w r w'.
Proof.
  assert (Hrec : ∀ x w1,
    World.contacts (World.db w1) = World.contacts (World.db w) →
    World.companyResearch (World.db w1) = World.companyResearch (World.db w) →
    (∀ j, j ≠ SendEmailOptions.emailId options →
          World.emails (World.db w1) !! j = World.emails (World.db w) !! j) →
    (∃ ms, mailsOut w1 = mailsOut w ++ ms ∧ (List.length ms ≤ 1)%nat) →
    (calm w → calm w1) →
    ∃ r w',
      run (recover (SendEmailOptions.emailId options) x) w1 = (Fulfilled r, w')
      ∧ settled options w r w').
  { intros x w1 Hc Hcr Hfr Hms Hcalm.
    destruct (recover_run (SendEmailOptions.emailId options) x w1)
      as (w' & Hrun & Hc' & Hcr' & Hfr' & Hout & Hcalm').
    eexists _, w'. split; [exact Hrun|]. unfold settled.
    split; [congruence|]. split; [congruence|].
    split; [intros j Hj; rewrite Hfr', Hfr; done|].
    split; [by rewrite Hout|]. split; [tauto|].
    left. cbn. by split_and!. }
  assert (Hnil : ∃ ms, mailsOut (World.next_query w) = mailsOut w ++ ms
                       ∧ (List.length ms ≤ 1)%nat).
  { exists []. rewrite app_nil_r. split; [done|]. cbn. lia. }
  assert (Hfail : ∀ msg, ∃ r w',
    (Fulfilled (SendEmailResponse.failure msg), World.next_query w) = (Fulfilled r, w')
    ∧ settled options w r w').
  { intros msg. eexists _, _. split; [reflexivity|]. unfold settled.
    split_and!; [done..|apply calm_next_query|].
    left. cbn. by split_and!. }
  rewrite sendSavedEmail_run. cbv zeta.
  case_bool_decide; [apply Hrec; try done; apply calm_next_query|].
  destruct (World.emails (World.db w) !! SendEmailOptions.emailId options)
    as [e|] eqn:He; [|apply Hfail].
  destruct (negb _) eqn:Hu; [apply Hfail|].
  apply negb_false_iff, String.eqb_eq in Hu.
  destruct (World.contacts (World.db w) !! Email.contactId e) as [c|] eqn:Hc;
    [|apply Hrec; try done; apply calm_next_query].
  destruct (refusal e c) as [msg|]; [apply Hfail|].
  rewrite deliver_run.
  case_bool_decide;
    [apply Hrec; try done; intros Hcalm; by do 2 apply calm_next_query|].
  rewrite next_query_db, He. cbv zeta.
  set (w2 := updated _ _ e (World.next_query w)).
  destruct (sendEmail_quiet env (recipient e c) w2)
    as (sr & w3 & -> & (Hdb3 & Hf3 & Ht3) & Hms3).
  assert (Hc3 : World.contacts (World.db w3) = World.contacts (World.db w))
    by (by rewrite Hdb3).
  assert (Hcr3 : World.companyResearch (World.db w3) = World.companyResearch (World.db w))
    by (by rewrite Hdb3).
  assert (He3 : World.emails (World.db w3) !! SendEmailOptions.emailId options
                = Some (Email.apply (status_only EmailStatus.queued) e)).
  { rewrite Hdb3. unfold w2, updated.
    cbn [World.db World.with_db World.emails World.set_emails]. apply lookup_insert_eq. }
  assert (Hfr3 : ∀ j, j ≠ SendEmailOptions.emailId options →
                      World.emails (World.db w3) !! j = World.emails (World.db w) !! j).
  { intros j Hj. rewrite Hdb3. unfold w2. by rewrite updated_other. }
  assert (Hcalm3 : calm w → calm w3).
  { intros Hcalm. apply (calm_quiet w2); [done|]. by apply calm_updated, calm_next_query. }
  destruct (SendEmailResult.success sr).
  - case_bool_decide; [apply Hrec; try done; intros Hcalm; by apply calm_next_query, Hcalm3|].
    rewrite He3.
    eexists _, _. split; [reflexivity|]. unfold settled.
    split; [done|]. split; [done|].
    split; [intros j Hj; rewrite updated_other by done; by apply Hfr3|].
    split; [exact Hms3|].
    split; [intros Hcalm; by apply calm_next_query, Hcalm3|].
    right. cbn [SendEmailResponse.success SendEmailResponse.error SendEmailResponse.email].
    split; [done|]. split; [done|].
    eexists _, c. split.
    + unfold stored, updated.
      cbn [World.db World.with_db World.emails World.set_emails World.contacts
           World.with_clock World.next_query World.with_oracle].
      rewrite lookup_insert_eq. split; [reflexivity|]. split; [exact Hu|].
      cbn. by rewrite Hc3.
    + split_and!; [done|by eexists|done].
  - case_bool_decide; [apply Hrec; try done; intros Hcalm; by apply calm_next_query, Hcalm3|].
    rewrite He3.
    eexists _, _. split; [reflexivity|]. unfold settled.
    split; [done|]. split; [done|].
    split; [intros j Hj; rewrite updated_other by done; by apply Hfr3|].
    split; [exact Hms3|].
    split; [intros Hcalm; by apply calm_updated, Hcalm3|].
    left. cbn. by split_and!.
Qed.

(** X14. [sendSavedEmail] never throws: every call returns a response, having
    touched no table but the emails and handed at most one message to the
    mail client. A failure carries an error message and no email; a success
    carries the stored email, which is then [sent] and has its time of
    sending. After a success, a second call for the same email (the database
    answering) is refused with 'Email has already been sent', sends nothing
    and writes nothing. *)
Theorem sendSavedEmail_once env options w :
  ∃ r w',
    run (sendSavedEmail env options) w = (Fulfilled r, w')
    ∧ World.contacts (World.db w') = World.contacts (World.db w)
    ∧ World.companyResearch (World.db w') = World.companyResearch (World.db w)
    ∧ (∃ ms, mailsOut w' = mailsOut w ++ ms ∧ (List.length ms ≤ 1)%nat)
    ∧ (SendEmailResponse.success r = false →
       SendEmailResponse.email r = None ∧ is_Some (SendEmailResponse.error r))
    ∧ (SendEmailResponse.success r = true →
       SendEmailResponse.error r = None
       ∧ (∃ row, World.emails (World.db w') !! SendEmailOptions.emailId options = Some row
                 ∧ Email.status row = EmailStatus.sent
                 ∧ is_Some (Email.sentAt row)
                 ∧ SendEmailResponse.email r = Some (info row))
       ∧ (answers w' →
          ∃ w'', run (sendSavedEmail env options) w'
                 = (Fulfilled (SendEmailResponse.failure "Email has already been sent"), w'')
                 ∧ World.db w'' = World.db w'
                 ∧ mailsOut w'' = mailsOut w')).
Proof.
  destruct (sendSavedEmail_cases env options w)
    as (r & w' & Hrun & Hc & Hcr & _ & Hms & _ & Hr).
  exists r, w'. split; [done|]. split; [done|]. split; [done|]. split; [done|].
  destruct Hr as [(Hs & He & Herr)|(Hs & Herr & row & c & Hst & Hsent & Hat & Hinfo)];
    rewrite Hs.
  - split; [done|]. intros [=].
  - split; [intros [=]|]. intros _. split; [done|]. split.
    + exists row. split; [by destruct Hst|]. done.
    + intros Hans. exists (World.next_query w'). split; [|done].
      apply (sendSavedEmail_guards env options row c w' Hst Hans).
      by rewrite Hsent.
Qed.

(** X15. An email that does not exist and an email of another user get the
    same answer, 'Email not found or access denied', and leave the database
    and the mail client untouched. *)
Theorem sendSavedEmail_not_found env options w :
  answers w →
  World.emails (World.db w) !! SendEmailOptions.emailId options = None
  ∨ (∃ e, World.emails (World.db w) !! SendEmailOptions.emailId options = Some e
          ∧ Email.userId e ≠ SendEmailOptions.userId options) →
  ∃ w', run (sendSavedEmail env options) w
        = (Fulfilled (SendEmailResponse.failure "Email not found or access denied"), w')
        ∧ World.db w' = World.db w
        ∧ World.events w' = World.events w.
Proof.
  intros Hans Hcase. exists (World.next_query w). split; [|done].
  rewrite sendSavedEmail_run. cbv zeta. rewrite bool_decide_false by done.
  destruct Hcase as [-> | (e & -> & Hu)]; [done|].
  apply String.eqb_neq in Hu. by rewrite Hu.
Qed.

Lemma sendSavedEmail_not_found_witness :
  ∃ w', run (sendSavedEmail Fixtures.env0 (SendEmailOptions.mk "e1" "u2"))
            (mailbox EmailStatus.draft "ada@acme.com")
        = (Fulfilled (SendEmailResponse.failure "Email not found or access denied"), w')
        ∧ World.db w' = World.db (mailbox EmailStatus.draft "ada@acme.com").
Proof.
  destruct (sendSavedEmail_not_found Fixtures.env0 (SendEmailOptions.mk "e1" "u2")
              (mailbox EmailStatus.draft "ada@acme.com")) as (w' & Hrun & Hdb & _).
  - vm_compute. discriminate.
  - right. exists (email0 EmailStatus.draft). split; [reflexivity|]. vm_compute. discriminate.
  - exists w'. split; [exact Hrun|exact Hdb].
Defined.

Lemma refusal_sendable e c :
  Email.status e ∈ sendable → Contact.email c ≠ "" → refusal e c = None.
Proof.
  intros Hs Hc. unfold refusal. cbv zeta. apply String.eqb_neq in Hc. rewrite Hc.
  unfold sendable in Hs. rewrite !elem_of_cons, elem_of_nil in Hs.
  destruct Hs as [->|[->|[->|[]]]]; done.
Qed.

(** X16. On a database that answers, sending a stored email of the caller that
    is in a sendable state ([draft], [queued], [failed]) and has a recipient
    always ends in one of two states. After a success the email is [sent]
    with its time of sending, and the response carries it; after a failure
    it is [failed] and keeps the time and message id it had, so it can be
    sent again. Subject, text and owner never change. In mock mode the send
    always succeeds and nothing reaches the mail client; with a key exactly
    one message goes out, to the address of the contact, and the send fails
    exactly when the mail client reports an error. *)
Theorem sendSavedEmail_delivers env options e c w :
  stored options e c w → calm w →
  Email.status e ∈ sendable → Contact.email c ≠ "" →
  ∃ r w' row,
    run (sendSavedEmail env options) w = (Fulfilled r, w')
    ∧ World.emails (World.db w') !! SendEmailOptions.emailId options = Some row
    ∧ (Email.subject row = Email.subject e ∧ Email.bodyText row = Email.bodyText e
       ∧ Email.contactId row = Email.contactId e ∧ Email.userId row = Email.userId e)
    ∧ (SendEmailResponse.success r = true →
       Email.status row = EmailStatus.sent ∧ is_Some (Email.sentAt row)
       ∧ SendEmailResponse.email r = Some (info row))
    ∧ (SendEmailResponse.success r = false →
       Email.status row = EmailStatus.failed ∧ Email.sentAt row = Email.sentAt e
       ∧ Email.sendgridMessageId row = Email.sendgridMessageId e
       ∧ is_Some (SendEmailResponse.error r))
    ∧ (SendGrid.isSendGridConfigured env = false →
       SendEmailResponse.success r = true ∧ SendEmailResponse.mockMode r = Some true
       ∧ mailsOut w' = mailsOut w)
    ∧ (SendGrid.isSendGridConfigured env = true →
       (∃ m, mailsOut w' = mailsOut w ++ [m] ∧ SgMail.to m = Contact.email c
             ∧ SgMail.subject m = Email.subject e ∧ SgMail.text m = Email.bodyText e)
       ∧ (SendEmailResponse.success r = false
          ↔ ∃ x, head (World.mailer (World.oracle w)) = Some (inl x))).
Proof.
  intros (He & Hu & Hc) Hcalm Hs Hrcpt.
  rewrite sendSavedEmail_run. cbv zeta.
  rewrite bool_decide_false by (by apply calm_answers).
  rewrite He, Hu, String.eqb_refl. cbn [negb]. rewrite Hc.
  rewrite (refusal_sendable e c Hs Hrcpt), deliver_run.
  pose proof (calm_next_query _ Hcalm) as Hcalm1.
  rewrite bool_decide_false by (by apply calm_answers).
  rewrite next_query_db, He. cbv zeta.
  set (w2 := updated _ _ e (World.next_query w)).
  assert (calm w2) as Hcalm2 by (by apply calm_updated).
  assert (∀ w3, quiet w2 w3 →
            head (World.faults (World.oracle w3)) ≠ Some true
            ∧ World.emails (World.db w3) !! SendEmailOptions.emailId options
              = Some (Email.apply (status_only EmailStatus.queued) e)) as Hw3.
  { intros w3 Hq. split; [by apply calm_answers, (calm_quiet w2)|].
    destruct Hq as (-> & _). unfold w2, updated.
    cbn [World.db World.with_db World.emails World.set_emails]. apply lookup_insert_eq. }
  destruct (SendGrid.isSendGridConfigured env) eqn:Hconf.
  - destruct (sendEmail_live env (recipient e c) w2 Hconf) as (sr & w3 & -> & Hq & Hout & Hr).
    destruct (Hw3 w3 Hq) as [Hans3 He3].
    change (World.mailer (World.oracle w2)) with (World.mailer (World.oracle w)) in Hr.
    assert ((∃ x, head (World.mailer (World.oracle w)) = Some (inl x)
                  ∧ sr = SendEmailResult.mk false None (Some (reported x)) None)
            ∨ ((∀ x, head (World.mailer (World.oracle w)) ≠ Some (inl x))
               ∧ ∃ id, sr = SendEmailResult.mk true (Some id) None None)) as Hsr.
    { destruct (head (World.mailer (World.oracle w))) as [[x|[[|a id]|]]|];
        [left; by exists x|right..]; (split; [done|]);
        lazymatch type of Hr with
        | ex _ => destruct Hr as [id' ->]; by eexists
        | _ => by eexists
        end. }
    destruct Hsr as [(x & Hx & ->)|(Hnx & id & ->)];
      cbn [SendEmailResult.success SendEmailResult.error SendEmailResult.messageId
           SendEmailResult.mockMode];
      rewrite bool_decide_false by done; rewrite He3;
      eexists _, _, _; (split; [reflexivity|]); (split; [apply lookup_insert_eq|]);
      (split; [done|]); cbn [SendEmailResponse.success].
    + split; [intros [=]|]. split.
      { intros _. split_and!; [done..|]. by eexists. }
      split; [intros [=]|]. intros _. split.
      * eexists. split; [exact Hout|]. done.
      * split; [by exists x|done].
    + split.
      { intros _. split_and!; [done|by eexists|done]. }
      split; [intros [=]|]. split; [intros [=]|]. intros _. split.
      * eexists. split; [exact Hout|]. done.
      * split; [intros [=]|]. intros [x Hx]. by destruct (Hnx x).
  - destruct (sendEmail_mock env (recipient e c) w2 Hconf) as (id & w3 & -> & Hq & Hout).
    destruct (Hw3 w3 Hq) as [Hans3 He3].
    cbn [SendEmailResult.success SendEmailResult.messageId SendEmailResult.mockMode].
    rewrite bool_decide_false by done. rewrite He3.
    eexists _, _, _. split; [reflexivity|]. split; [apply lookup_insert_eq|].
    split; [done|]. cbn [SendEmailResponse.success].
    split.
    { intros _. split_and!; [done|by eexists|done]. }
    split; [intros [=]|]. split; [|intros [=]]. intros _.
    split_and!; [done|done|exact Hout].
Qed.


Lemma sendSavedEmail_delivers_witness :
  ∃ r w' row,
    run (sendSavedEmail Fixtures.env0 options0) (mailbox EmailStatus.draft "ada@acme.com")
    = (Fulfilled r, w')
    ∧ World.emails (World.db w') !! "e1" = Some row
    ∧ (SendEmailResponse.success r = true → Email.status row = EmailStatus.sent)
    ∧ (SendEmailResponse.success r = true ∧ SendEmailResponse.mockMode r = Some true).
Proof.
  destruct (sendSavedEmail_delivers Fixtures.env0 options0 (email0 EmailStatus.draft)
              (contact0 "ada@acme.com") (mailbox EmailStatus.draft "ada@acme.com"))
    as (r & w' & row & Hrun & Hrow & _ & Hok & _ & Hmock & _).
  - split_and!; reflexivity.
  - constructor.
  - vm_compute. apply list_elem_of_here.
  - vm_compute. discriminate.
  - exists r, w', row. split; [exact Hrun|]. split; [exact Hrow|].
    split; [intros H; by destruct (Hok H)|].
    destruct Hmock as (? & ? & _); [reflexivity|]. by split.
Defined.

(** The handler of the [catch] on a database that answers: the email is
    marked [failed]. *)
Lemma recover_answers id x w e0 :
  answers w → World.emails (World.db w) !! id = Some e0 →
  run (recover id x) w
  = (Fulfilled (SendEmailResponse.failure (exn_message x)),
     updated id (status_only EmailStatus.failed) e0
       (World.emit (World.Logged ERROR ("[EmailService] Error sending email: "
                                        +:+ exn_message x)) w)).
Proof.
  intros Hans He. unfold recover.
  rewrite run_bind, run_console_error, run_bind, run_try_catch, run_bind.
  rewrite email_update_run. rewrite bool_decide_false by exact Hans.
  cbn [World.db World.emit]. by rewrite He.
Qed.




(** X18. The handler of the [catch] marks the email [failed] without having
    looked at it. When the database fails on the lookup and answers the
    next write, [sendSavedEmail] reports the database error and the email
    stored under the id ends [failed], whoever owns it and whatever its
    status was, an email already [sent] included; nothing is sent. *)
Theorem sendSavedEmail_fault_marks_failed env options e w rest :
  World.emails (World.db w) !! SendEmailOptions.emailId options = Some e →
  World.faults (World.oracle w) = true :: rest → head rest ≠ Some true →
  ∃ w',
    run (sendSavedEmail env options) w
    = (Fulfilled (SendEmailResponse.failure (exn_message unreachable)), w')
    ∧ World.emails (World.db w') !! SendEmailOptions.emailId options
      = Some (Email.apply (status_only EmailStatus.failed) e)
    ∧ mailsOut w' = mailsOut w.
Proof.
  intros He Hf Hrest. rewrite sendSavedEmail_run. cbv zeta.
  rewrite bool_decide_true by (by rewrite Hf).
  erewrite recover_answers; [|unfold answers; cbn; by rewrite Hf|by rewrite next_query_db].
  eexists. split; [reflexivity|]. split; [apply lookup_insert_eq|].
  by rewrite mailsOut_updated, mailsOut_emit, app_nil_r.
Qed.

Lemma sendSavedEmail_fault_marks_failed_witness :
  let w := World.with_oracle (World.set_faults [true])
             (mailbox EmailStatus.sent "ada@acme.com") in
  ∃ w' row,
    run (sendSavedEmail Fixtures.env0 (SendEmailOptions.mk "e1" "u2")) w
    = (Fulfilled (SendEmailResponse.failure "Can't reach database server"), w')
    ∧ World.emails (World.db w') !! "e1" = Some row
    ∧ Email.userId row = "u1"
    ∧ Email.status row = EmailStatus.failed.
Proof.
  cbv zeta.
  destruct (sendSavedEmail_fault_marks_failed Fixtures.env0 (SendEmailOptions.mk "e1" "u2")
              (email0 EmailStatus.sent)
              (World.with_oracle (World.set_faults [true])
                 (mailbox EmailStatus.sent "ada@acme.com")) [])
    as (w' & Hrun & Hrow & _).
  - reflexivity.
  - reflexivity.
  - discriminate.
  - exists w'. eexists. split; [exact Hrun|]. split; [exact Hrow|]. split; reflexivity.
Defined.

End SendFacts.

Module EmailBatchFacts.
Import JsString EmailService EmailBatch RunFacts DeliverySpec DeliveryFacts Trace MailSpec
       MailFacts DeliverySteps SendFacts EmailBatchSpec.

Lemma succeeded_cons i items :
  succeeded (i :: items) = (if BatchItem.success i then 1 else 0) + succeeded items.
Proof. unfold succeeded. cbn [List.filter]. destruct (BatchItem.success i); cbn [List.length]; lia. Qed.

Lemma failures_cons i items :
  failures (i :: items) = (if BatchItem.success i then 0 else 1) + failures items.
Proof.
  unfold failures. cbn [List.filter]. destruct (BatchItem.success i); cbn [negb List.length]; lia.
Qed.

Lemma succeeded_failures items : succeeded items + failures items = Z.of_nat (List.length items).
Proof.
  induction items as [|i items IH]; [done|].
  rewrite succeeded_cons, failures_cons. cbn [List.length].
  destruct (BatchItem.success i); lia.
Qed.

(** The loop, whatever the world: one item per id, in order, and the two
    counters count the items. *)
Lemma sendEach_run env userId emailIds : ∀ results success failed w,
  ∃ items w',
    run (sendEach env emailIds userId results success failed) w
    = (Fulfilled (BatchReport.mk (success + succeeded items) (failed + failures items)
                                 (results ++ items)), w')
    ∧ BatchItem.emailId <$> items = emailIds
    ∧ Forall (fun i => BatchItem.success i = false → is_Some (BatchItem.error i)) items
    ∧ World.contacts (World.db w') = World.contacts (World.db w)
    ∧ (∃ ms, mailsOut w' = mailsOut w ++ ms
             ∧ (List.length ms ≤ List.length emailIds)%nat).
Proof.
  induction emailIds as [|emailId emailIds IH]; intros results success failed w.
  { exists [], w. cbn [sendEach run]. rewrite app_nil_r.
    unfold succeeded, failures. cbn. rewrite !Z.add_0_r.
    split_and!; [done|done|by constructor|done|].
    exists []. rewrite app_nil_r. split; [done|]. cbn. lia. }
  cbn [sendEach]. rewrite run_bind.
  destruct (sendSavedEmail_cases env (SendEmailOptions.mk emailId userId) w)
    as (r & w1 & -> & Hc & _ & _ & (ms1 & Hms1 & Hlen1) & _ & Hr).
  set (item := BatchItem.mk emailId (SendEmailResponse.success r) (SendEmailResponse.error r)).
  assert (BatchItem.success item = false → is_Some (BatchItem.error item)) as Hitem.
  { cbn. intros Hs. destruct Hr as [(_ & _ & ?)|(Hs' & _)]; [done|congruence]. }
  destruct (IH (results ++ [item])
               (if SendEmailResponse.success r then success + 1 else success)
               (if SendEmailResponse.success r then failed else failed + 1) w1)
    as (items & w' & Hrun & Hids & Hall & Hc' & (ms & Hms & Hlen)).
  exists (item :: items), w'. split.
  { rewrite succeeded_cons, failures_cons. cbn [BatchItem.success item].
    destruct (SendEmailResponse.success r); rewrite Hrun; do 2 f_equal;
      (f_equal; first [lia | by rewrite <- app_assoc]). }
  split; [by rewrite fmap_cons, Hids|].
  split; [by constructor|].
  split; [congruence|].
  exists (ms1 ++ ms). rewrite Hms, Hms1, app_assoc. split; [done|].
  rewrite length_app. cbn [List.length]. lia.
Qed.

(** X19. [sendBatchEmails] never throws. Its report has one item for each id
    given, in the order given; [success] and [failed] count the items that
    succeeded and that failed, so they add up to the number of ids; every
    failed item carries an error. At most one message per id reaches the
    mail client, and no contact is written. *)
Theorem sendBatchEmails_report env emailIds userId w :
  ∃ report w',
    run (sendBatchEmails env emailIds userId) w = (Fulfilled report, w')
    ∧ BatchItem.emailId <$> BatchReport.results report = emailIds
    ∧ BatchReport.success report = succeeded (BatchReport.results report)
    ∧ BatchReport.failed report = failures (BatchReport.results report)
    ∧ BatchReport.success report + BatchReport.failed report
      = Z.of_nat (List.length emailIds)
    ∧ Forall (fun i => BatchItem.success i = false → is_Some (BatchItem.error i))
             (BatchReport.results report)
    ∧ World.contacts (World.db w') = World.contacts (World.db w)
    ∧ (∃ ms, mailsOut w' = mailsOut w ++ ms
             ∧ (List.length ms ≤ List.length emailIds)%nat).
Proof.
  unfold sendBatchEmails.
  destruct (sendEach_run env userId emailIds [] 0 0 w)
    as (items & w' & Hrun & Hids & Hall & Hc & Hms).
  eexists _, w'. split; [exact Hrun|]. cbn [BatchReport.results BatchReport.success
    BatchReport.failed app].
  split; [done|]. split; [lia|]. split; [lia|].
  split; [|done].
  rewrite !Z.add_0_l, succeeded_failures, <- Hids. by rewrite length_fmap.
Qed.

Lemma sentRows_frame userId sent w w' id :
  World.contacts (World.db w') = World.contacts (World.db w) →
  (∀ j, j ≠ id → World.emails (World.db w') !! j = World.emails (World.db w) !! j) →
  id ∉ sent → sentRows userId sent w → sentRows userId sent w'.
Proof.
  intros Hc Hfr Hid Hsent j Hj. destruct (Hsent j Hj) as (row & c & (He & Hu & Hcc) & Hst).
  exists row, c. split; [|done]. unfold stored. cbn in *.
  rewrite Hfr by (intros ->; done). by rewrite Hc.
Qed.

(** The loop on a database that answers, entered when the emails of [sent]
    are stored as sent. *)
Lemma sendEach_once env userId emailIds : ∀ sent results success failed w,
  calm w → sentRows userId sent w →
  ∃ items report w',
    run (sendEach env emailIds userId results success failed) w = (Fulfilled report, w')
    ∧ BatchReport.results report = results ++ items
    ∧ once sent items.
Proof.
  induction emailIds as [|emailId emailIds IH]; intros sent results success failed w Hcalm Hsent.
  { exists []. eexists _, w. cbn [sendEach run BatchReport.results].
    by rewrite app_nil_r. }
  cbn [sendEach]. rewrite run_bind.
  destruct (decide (emailId ∈ sent)) as [Hin|Hnotin].
  - destruct (Hsent emailId Hin) as (row & c & Hst & Hstatus).
    rewrite (sendSavedEmail_guards env (SendEmailOptions.mk emailId userId) row c w Hst
               (calm_answers _ Hcalm) "Email has already been sent")
      by (by rewrite Hstatus).
    cbn [SendEmailResponse.success SendEmailResponse.failure SendEmailResponse.error].
    destruct (IH sent
                (results ++ [BatchItem.mk emailId false (Some "Email has already been sent")])
                success (failed + 1) (World.next_query w))
      as (items & report & w' & Hrun & Hres & Honce).
    { by apply calm_next_query. }
    { intros j Hj. destruct (Hsent j Hj) as (row' & c' & Hst' & Hstatus').
      by exists row', c'. }
    eexists (_ :: items), report, w'. split; [exact Hrun|].
    split; [by rewrite Hres, <- app_assoc|].
    cbn [once BatchItem.success BatchItem.emailId]. split; [|done]. by intros _.
  - destruct (sendSavedEmail_cases env (SendEmailOptions.mk emailId userId) w)
      as (r & w1 & -> & Hc & _ & Hfr & _ & Hcalm1 & Hr).
    assert (sentRows userId (if SendEmailResponse.success r then emailId :: sent else sent) w1)
      as Hsent1.
    { pose proof (sentRows_frame userId sent w w1 emailId Hc Hfr Hnotin Hsent) as Hold.
      destruct Hr as [(-> & _)|(-> & _ & row & c & Hst & Hstatus & _)]; [done|].
      intros j [->|Hj]%elem_of_cons; [by exists row, c|by apply Hold]. }
    destruct (IH _ (results ++ [BatchItem.mk emailId (SendEmailResponse.success r)
                                             (SendEmailResponse.error r)])
                (if SendEmailResponse.success r then success + 1 else success)
                (if SendEmailResponse.success r then failed else failed + 1)
                w1 (Hcalm1 Hcalm) Hsent1)
      as (items & report & w' & Hrun & Hres & Honce).
    eexists (_ :: items), report, w'. split.
    { by destruct (SendEmailResponse.success r). }
    split; [by rewrite Hres, <- app_assoc|].
    cbn [once BatchItem.success BatchItem.emailId]. split; [done|exact Honce].
Qed.

Lemma once_weaken items : ∀ sent sent', sent ⊆ sent' → once sent' items → once sent items.
Proof.
  induction items as [|i items IH]; intros sent sent' Hsub; [done|].
  cbn [once]. intros [Hi Hrest]. split; [intros Hin; apply Hi, Hsub, Hin|].
  eapply IH; [|exact Hrest]. destruct (BatchItem.success i); [|done].
  intros x [->|Hx]%elem_of_cons; [apply list_elem_of_here|apply list_elem_of_further, Hsub, Hx].
Qed.

Lemma once_later items : ∀ sent before item after,
  once sent items → items = before ++ item :: after →
  (BatchItem.emailId item ∈ sent
   ∨ ∃ earlier, earlier ∈ before
                ∧ BatchItem.emailId earlier = BatchItem.emailId item
                ∧ BatchItem.success earlier = true) →
  refused item.
Proof.
  induction items as [|i items IH]; intros sent before item after Honce Heq Hcase.
  { by destruct before. }
  cbn [once] in Honce. destruct Honce as [Hi Hrest].
  destruct before as [|b before]; cbn in Heq; injection Heq as -> ->.
  - destruct Hcase as [Hin|(earlier & Hin & _)]; [by apply Hi|]. by apply elem_of_nil in Hin.
  - eapply (IH _ before item after Hrest eq_refl).
    destruct Hcase as [Hin|(earlier & [->|Hin]%elem_of_cons & Hid & Hs)].
    + left. destruct (BatchItem.success b); [by apply list_elem_of_further|done].
    + left. rewrite Hs, Hid. apply list_elem_of_here.
    + right. by exists earlier.
Qed.

(** X20. On a database that answers, a batch sends no email twice. When an id
    occurs again in the list after an item that succeeded for it, the later
    item is a refusal, 'Email has already been sent'. *)
Theorem sendBatchEmails_once env emailIds userId w :
  calm w →
  ∃ report w',
    run (sendBatchEmails env emailIds userId) w = (Fulfilled report, w')
    ∧ ∀ before item after earlier,
        BatchReport.results report = before ++ item :: after →
        earlier ∈ before →
        BatchItem.emailId earlier = BatchItem.emailId item →
        BatchItem.success earlier = true →
        refused item.
Proof.
  intros Hcalm. unfold sendBatchEmails.
  destruct (sendEach_once env userId emailIds [] [] 0 0 w Hcalm)
    as (items & report & w' & Hrun & Hres & Honce).
  { intros j Hj. by apply elem_of_nil in Hj. }
  exists report, w'. split; [exact Hrun|].
  intros before item after earlier Heq Hin Hid Hs. cbn [app] in Hres.
  eapply (once_later items [] before item after Honce); [by rewrite <- Hres|].
  right. by exists earlier.
Qed.

Lemma sendBatchEmails_once_witness :
  ∃ report w',
    run (sendBatchEmails Fixtures.env0 ["e1"; "e1"] "u1")
        (mailbox EmailStatus.draft "ada@acme.com")
    = (Fulfilled report, w')
    ∧ BatchItem.error <$> BatchReport.results report
      = [None; Some "Email has already been sent"].
Proof.
  destruct (sendBatchEmails_once Fixtures.env0 ["e1"; "e1"] "u1"
              (mailbox EmailStatus.draft "ada@acme.com")) as (report & w' & Hrun & _).
  - constructor.
  - exists report, w'. split; [exact Hrun|].
    assert (Fixtures.value (BatchReport.mk 0 0 [])
              (run (sendBatchEmails Fixtures.env0 ["e1"; "e1"] "u1")
                   (mailbox EmailStatus.draft "ada@acme.com")) = report) as <-
      by (by rewrite Hrun).
    vm_compute. reflexivity.
Defined.

End EmailBatchFacts.

Module CrudFacts.
Import JsString ContactsService ContactsCrud RunFacts CrudSpec.

Lemma query_answers {R} (q : World.t → (exn + R) * World.t) w :
  answers w →
  Async.query q w
  = match q (World.next_query w) with
    | (inr r, w') => (Fulfilled r, w')
    | (inl e, w') => (Rejected e, w')
    end.
Proof. intros H. unfold Async.query. by rewrite prisma_answers. Qed.

Lemma query_fault {R} (q : World.t → (exn + R) * World.t) w :
  head (World.faults (World.oracle w)) = Some true →
  Async.query q w = (Rejected (Error "Can't reach database server"), World.next_query w).
Proof. intros H. unfold Async.query, World.prisma. by rewrite bool_decide_true. Qed.

Lemma getContactById_foreign userId id w :
  answers w → foreign userId id w →
  getContactById userId id w = (Fulfilled None, World.next_query w).
Proof.
  intros Hans Hf. unfold getContactById. rewrite query_answers by done.
  unfold ContactQueries.findFirst. rewrite next_query_db.
  destruct (World.contacts (World.db w) !! id) as [c|] eqn:Hc; [|done].
  apply Hf, String.eqb_neq in Hc. by rewrite Hc.
Qed.

Lemma getContactById_owns userId id c w :
  answers w → owns userId id c w →
  getContactById userId id w = (Fulfilled (Some c), World.next_query w).
Proof.
  intros Hans [Hc Hu]. unfold getContactById. rewrite query_answers by done.
  unfold ContactQueries.findFirst. rewrite next_query_db, Hc, Hu.
  by rewrite String.eqb_refl.
Qed.

(** X21. [deleteContact] deletes a contact only for its owner. For a contact
    that does not exist or belongs to another user it answers [false] and
    writes nothing. For a contact of the caller (the database answering) it
    answers [true]: the contact is gone, and with it its emails; every other
    contact, the emails of other contacts and the research cache are as
    they were, and [getContactById] no longer finds it. *)
Theorem deleteContact_owner userId id w :
  answers w →
  (foreign userId id w →
   ∃ w', deleteContact userId id w = (Fulfilled false, w') ∧ World.db w' = World.db w)
  ∧ (∀ c, owns userId id c w → answers (World.next_query w) →
       ∃ w', deleteContact userId id w = (Fulfilled true, w')
             ∧ World.contacts (World.db w') = base.delete id (World.contacts (World.db w))
             ∧ World.companyResearch (World.db w') = World.companyResearch (World.db w)
             ∧ (∀ k e, World.emails (World.db w') !! k = Some e
                       ↔ World.emails (World.db w) !! k = Some e ∧ Email.contactId e ≠ id)
             ∧ (answers w' → (getContactById userId id w').1 = Fulfilled None)).
Proof.
  intros Hans. split.
  - intros Hf. exists (World.next_query w). split; [|done].
    unfold deleteContact, Async.bind. by rewrite getContactById_foreign.
  - intros c Hown Hans1. destruct (Hown) as [Hc Hu].
    unfold deleteContact, Async.bind. rewrite (getContactById_owns _ _ c) by done.
    rewrite query_answers by done. unfold ContactQueries.delete.
    rewrite !next_query_db, Hc. eexists. split; [reflexivity|].
    cbn [World.db World.with_db World.contacts World.companyResearch World.emails].
    rewrite !next_query_db.
    split; [done|]. split; [done|]. split.
    + intros k e. rewrite map_lookup_filter_Some. done.
    + intros Hans2. rewrite getContactById_foreign; [done|done|].
      intros c'. cbn [World.db World.with_db World.contacts]. rewrite !next_query_db.
      by rewrite lookup_delete_eq.
Qed.

Lemma deleteContact_owner_witness :
  let w := DeliverySpec.mailbox EmailStatus.draft "ada@acme.com" in
  (∃ w', deleteContact "u2" "c1" w = (Fulfilled false, w') ∧ World.db w' = World.db w)
  ∧ (∃ w', deleteContact "u1" "c1" w = (Fulfilled true, w')
           ∧ World.contacts (World.db w') = base.delete "c1" (World.contacts (World.db w))).
Proof.
  cbv zeta.
  destruct (deleteContact_owner "u2" "c1" (DeliverySpec.mailbox EmailStatus.draft "ada@acme.com"))
    as [Hforeign _]; [vm_compute; discriminate|].
  destruct (deleteContact_owner "u1" "c1" (DeliverySpec.mailbox EmailStatus.draft "ada@acme.com"))
    as [_ Howner]; [vm_compute; discriminate|].
  split.
  - apply Hforeign. intros c. vm_compute. intros [= <-]. discriminate.
  - destruct (Howner (DeliverySpec.contact0 "ada@acme.com")) as (w' & Hrun & Hc & _).
    + split; reflexivity.
    + vm_compute. discriminate.
    + exists w'. split; [exact Hrun|exact Hc].
Defined.

(** X22. [updateContact] changes a contact only for its owner, and never its
    address. For a contact that does not exist or belongs to another user it
    answers [null] and writes nothing. For a contact of the caller (the
    database answering) it answers the stored row: id, owner, address,
    company domain and research status are those it had; a field the input
    leaves undefined keeps its value, a field it gives is trimmed, and
    becomes [null] when nothing is left; no other contact is written. *)
Theorem updateContact_owner userId id input w :
  answers w →
  (foreign userId id w →
   ∃ w', updateContact userId id input w = (Fulfilled None, w') ∧ World.db w' = World.db w)
  ∧ (∀ c, owns userId id c w → answers (World.next_query w) →
       ∃ row w',
         updateContact userId id input w = (Fulfilled (Some row), w')
         ∧ World.contacts (World.db w') = <[id := row]> (World.contacts (World.db w))
         ∧ World.emails (World.db w') = World.emails (World.db w)
         ∧ World.companyResearch (World.db w') = World.companyResearch (World.db w)
         ∧ (Contact.id row = Contact.id c ∧ Contact.userId row = Contact.userId c
            ∧ Contact.email row = Contact.email c
            ∧ Contact.companyDomain row = Contact.companyDomain c
            ∧ Contact.researchStatus row = Contact.researchStatus c)
         ∧ keptOrTrimmed (UpdateContactInput.firstName input) (Contact.firstName c)
                         (Contact.firstName row)
         ∧ keptOrTrimmed (UpdateContactInput.lastName input) (Contact.lastName c)
                         (Contact.lastName row)
         ∧ keptOrTrimmed (UpdateContactInput.title input) (Contact.title c)
                         (Contact.title row)
         ∧ keptOrTrimmed (UpdateContactInput.company input) (Contact.company c)
                         (Contact.company row)
         ∧ keptOrTrimmed (UpdateContactInput.phone input) (Contact.phone c)
                         (Contact.phone row)
         ∧ keptOrTrimmed (UpdateContactInput.notes input) (Contact.notes c)
                         (Contact.notes row)).
Proof.
  intros Hans. split.
  - intros Hf. exists (World.next_query w). split; [|done].
    unfold updateContact, Async.bind. by rewrite getContactById_foreign.
  - intros c Hown Hans1. destruct (Hown) as [Hc Hu].
    unfold updateContact, Async.bind. rewrite (getContactById_owns _ _ c) by done.
    rewrite query_answers by done. unfold ContactQueries.update.
    rewrite !next_query_db, Hc. cbv zeta. eexists _, _. split; [reflexivity|].
    cbn [World.db World.with_db World.contacts World.set_contacts World.emails
         World.companyResearch].
    rewrite !next_query_db.
    split; [done|]. split; [done|]. split; [done|]. split; [done|].
    assert (∀ given existing, keptOrTrimmed given existing (changed given existing)) as Hk.
    { intros [v|] existing; [|done]. unfold keptOrTrimmed, changed, trimmedOrNull.
      cbn. by destruct (trim v). }
    cbn [ContactData.apply Contact.firstName Contact.lastName Contact.title Contact.company
         Contact.phone Contact.notes ContactData.firstName ContactData.lastName
         ContactData.title ContactData.company ContactData.phone ContactData.notes].
    split_and!; apply Hk.
Qed.

Lemma updateContact_owner_witness :
  let w := DeliverySpec.mailbox EmailStatus.draft "ada@acme.com" in
  let input := UpdateContactInput.mk (Some "  ") None (Some " CTO ") None None None in
  ∃ row w',
    updateContact "u1" "c1" input w = (Fulfilled (Some row), w')
    ∧ Contact.email row = "ada@acme.com"
    ∧ Contact.firstName row = None
    ∧ Contact.title row = Some "CTO".
Proof.
  cbv zeta.
  destruct (updateContact_owner "u1" "c1"
              (UpdateContactInput.mk (Some "  ") None (Some " CTO ") None None None)
              (DeliverySpec.mailbox EmailStatus.draft "ada@acme.com"))
    as [_ Howner]; [vm_compute; discriminate|].
  destruct (Howner (DeliverySpec.contact0 "ada@acme.com"))
    as (row & w' & Hrun & _ & _ & _ & (_ & _ & Hemail & _) & Hfirst & _ & Htitle & _).
  - split; reflexivity.
  - vm_compute. discriminate.
  - exists row, w'. split; [exact Hrun|]. split; [exact Hemail|].
    split; [exact Hfirst|exact Htitle].
Defined.

Lemma rows_insert {A} (m : gmap string A) i x :
  m !! i = None → World.rows (<[i := x]> m) ≡ₚ x :: World.rows m.
Proof.
  intros Hi. unfold World.rows. by rewrite map_to_list_insert.
Qed.

Lemma rows_delete {A} (m : gmap string A) i x :
  m !! i = Some x → World.rows m ≡ₚ x :: World.rows (base.delete i m).
Proof.
  intros Hi. unfold World.rows. rewrite <- (insert_delete_id m i x Hi) at 1.
  rewrite map_to_list_insert by apply lookup_delete_eq. done.
Qed.

Lemma count_perm {A} (f : A → bool) (l l' : list A) :
  l ≡ₚ l' → List.length (List.filter f l) = List.length (List.filter f l').
Proof.
  induction 1 as [|x l l' _ IH|x y l|l l' l'' _ IH1 _ IH2]; cbn [List.filter]; try done.
  - destruct (f x); cbn [List.length]; by rewrite ?IH.
  - by destruct (f x), (f y).
  - by rewrite IH1.
Qed.

(** A successful [createContact] adds one row under a fresh id, and writes
    nothing else. *)
Lemma createContact_inserts userId input w r w1 :
  run (createContact userId input) w = (Fulfilled r, w1) →
  let c := ContactWithResearchInfo.contact r in
  World.contacts (World.db w) !! Contact.id c = None
  ∧ World.contacts (World.db w1) = <[Contact.id c := c]> (World.contacts (World.db w))
  ∧ World.emails (World.db w1) = World.emails (World.db w)
  ∧ Contact.userId c = userId.
Proof.
  unfold createContact.
  destruct (truthy (EmailUtils.normalizeEmail (CreateContactInput.email input))) as [ne|];
    [|done].
  rewrite run_bind, run_await. cbn [World.handle]. unfold World.prisma.
  case_bool_decide; [done|]. unfold World.do_contact_findUnique.
  destruct (List.find _ _); [done|]. cbn [run].
  rewrite run_bind, run_await. cbn [World.handle]. unfold World.prisma.
  case_bool_decide; [done|]. unfold World.do_contact_create. cbv zeta.
  destruct (bool_decide _) eqn:Hfresh; [done|]. cbn [orb].
  destruct (existsb _ _); [done|]. rewrite run_bind.
  apply bool_decide_eq_false in Hfresh. rewrite <- eq_None_not_Some in Hfresh.
  destruct (EmailUtils.isBusinessEmail ne), (truthy (EmailUtils.extractDomain ne));
    intros [= <- <-]; cbn; by rewrite ?next_query_db in *.
Qed.

(** X23. [getContactsCount] counts the contacts of the caller, and follows the
    other operations: a successful [createContact] raises the count of the
    caller by one, a successful [deleteContact] lowers it by one, and
    neither changes the count of any other user. *)
Theorem getContactsCount_tracks userId w :
  (answers w →
   getContactsCount userId w = (Fulfilled (contactCount userId w), World.next_query w))
  ∧ (∀ input r w1,
       run (createContact userId input) w = (Fulfilled r, w1) →
       contactCount userId w1 = contactCount userId w + 1
       ∧ ∀ other, other ≠ userId → contactCount other w1 = contactCount other w)
  ∧ (∀ id w1,
       deleteContact userId id w = (Fulfilled true, w1) →
       contactCount userId w1 = contactCount userId w - 1
       ∧ ∀ other, other ≠ userId → contactCount other w1 = contactCount other w).
Proof.
  split; [|split].
  - intros Hans. unfold getContactsCount. by rewrite query_answers.
  - intros input r w1 Hrun.
    apply createContact_inserts in Hrun as (Hfresh & Hc & _ & Hu).
    assert (∀ u, contactCount u w1
                 = contactCount u w
                   + (if String.eqb (Contact.userId (ContactWithResearchInfo.contact r)) u
                      then 1 else 0)) as Hcount.
    { intros u. unfold contactCount. rewrite Hc.
      rewrite (count_perm _ _ _ (rows_insert _ _ _ Hfresh)). cbn [List.filter].
      destruct (String.eqb _ u); cbn [List.length]; lia. }
    split.
    + rewrite Hcount, Hu, String.eqb_refl. done.
    + intros other Hother. rewrite Hcount, Hu.
      apply not_eq_sym, String.eqb_neq in Hother. rewrite Hother. lia.
  - intros id w1. unfold deleteContact, Async.bind, getContactById, Async.query, World.prisma.
    case_bool_decide; [done|]. unfold ContactQueries.findFirst. rewrite next_query_db.
    destruct (World.contacts (World.db w) !! id) as [c|] eqn:Hc; [|done].
    destruct (String.eqb_spec (Contact.userId c) userId) as [Hu|]; [|done].
    case_bool_decide; [done|]. unfold ContactQueries.delete. rewrite !next_query_db, Hc.
    intros [= <-].
    assert (∀ u, contactCount u w
                 = contactCount u
                     (World.with_db
                        (fun d => World.mkDb (base.delete id (World.contacts d))
                                    (World.companyResearch d)
                                    (filter (fun kv => Email.contactId kv.2 ≠ id)
                                            (World.emails d)))
                        (World.next_query (World.next_query w)))
                   + (if String.eqb (Contact.userId c) u then 1 else 0)) as Hcount.
    { intros u. unfold contactCount.
      cbn [World.db World.with_db World.contacts]. rewrite !next_query_db.
      rewrite (count_perm _ _ _ (rows_delete _ _ _ Hc)). cbn [List.filter].
      destruct (String.eqb _ u); cbn [List.length]; lia. }
    split.
    + rewrite (Hcount userId), Hu, String.eqb_refl. lia.
    + intros other Hother. rewrite (Hcount other), Hu.
      apply not_eq_sym, String.eqb_neq in Hother. rewrite Hother. lia.
Qed.

Lemma getContactsCount_tracks_witness :
  let w1 := (run (createContact "u1" Examples.john) Fixtures.world0).2 in
  contactCount "u1" w1 = 1 ∧ contactCount "u2" w1 = 0.
Proof.
  cbv zeta.
  destruct (getContactsCount_tracks "u1" Fixtures.world0) as (_ & Hcreate & _).
  destruct (Hcreate Examples.john
              (Fixtures.value Examples.nobody
                 (run (createContact "u1" Examples.john) Fixtures.world0))
              (run (createContact "u1" Examples.john) Fixtures.world0).2)
    as [Hmine Hothers].
  - vm_compute. reflexivity.
  - split; [exact Hmine|]. apply (Hothers "u2"). discriminate.
Defined.

End CrudFacts.

Module HandlerFacts.
Import JsString EmailUtils ContactsService ContactsCrud RunFacts CrudSpec CrudFacts
       ContactsController CreationFacts PipelineFacts.

Lemma exn_message_create_errors :
  String.eqb "Can't reach database server" "Invalid email address" = false
  ∧ String.eqb "Can't reach database server" "Contact with this email already exists" = false.
Proof. by split. Qed.

(** X24. POST /contacts always answers, with 201, 400 or 500. It answers 400
    VALIDATION_ERROR for an empty address and 400 INVALID_EMAIL for an
    address [normalizeEmail] rejects, both before any database call; 400
    DUPLICATE_EMAIL for an address the caller already holds, with nothing
    written; and 201 only with a contact that is then stored under its id
    for the caller. *)
Theorem createContactHandler_status userId input w :
  ∃ response w',
    createContactHandler userId input w = (Fulfilled response, w')
    ∧ Http.status response ∈ [201; 400; 500]
    ∧ (CreateContactInput.email input = "" →
       response = Http.mk 400 (Http.ErrorCode "Email is required" "VALIDATION_ERROR")
       ∧ w' = w)
    ∧ (CreateContactInput.email input ≠ "" →
       normalizeEmail (CreateContactInput.email input) = None →
       response = Http.mk 400 (Http.ErrorCode "Invalid email address" "INVALID_EMAIL")
       ∧ w' = w)
    ∧ (∀ ne id existing,
         normalizeEmail (CreateContactInput.email input) = Some ne → answers w →
         owns userId id existing w → Contact.email existing = ne →
         response = Http.mk 400 (Http.ErrorCode "Contact with this email already exists"
                                                "DUPLICATE_EMAIL")
         ∧ World.db w' = World.db w)
    ∧ (Http.status response = 201 →
       ∃ r, response = Http.mk 201 (Http.ContactCreated "Contact created successfully" r)
            ∧ owns userId (Contact.id (ContactWithResearchInfo.contact r))
                   (ContactWithResearchInfo.contact r) w'
            ∧ normalizeEmail (CreateContactInput.email input)
              = Some (Contact.email (ContactWithResearchInfo.contact r))).
Proof.
  unfold createContactHandler, Async.try_catch, fail, Async.ret.
  destruct (String.eqb_spec (CreateContactInput.email input) "") as [Hempty|Hnonempty].
  { eexists _, _. split; [reflexivity|]. cbn [Http.status].
    split; [set_solver|]. split; [done|]. split; [done|].
    split; [|done]. intros ne id existing Hne. rewrite Hempty in Hne. done. }
  unfold Async.bind.
  destruct (run (createContact userId input) w) as [[r|e] w1] eqn:Hrun.
  - eexists _, _. split; [reflexivity|]. cbn [Http.status].
    split; [set_solver|]. split; [done|].
    pose proof (createContact_fulfilled _ _ _ _ _ Hrun) as (Hne & _ & _ & _ & Hc & _).
    pose proof (createContact_owner _ _ _ _ _ Hrun) as Hu.
    split; [intros _ Hnone; by rewrite Hnone in Hne|].
    split.
    + intros ne id existing Hne' Hans [Hid Hown] Hemail.
      rewrite (createContact_existing userId input w ne id existing) in Hrun; done.
    + intros _. by exists r.
  - destruct (normalizeEmail (CreateContactInput.email input)) as [ne|] eqn:Hne.
    + assert (∃ response w',
                (if String.eqb (exn_message e) "Invalid email address"
                 then (Fulfilled (Http.mk 400 (Http.ErrorCode (exn_message e) "INVALID_EMAIL")),
                       w1)
                 else if String.eqb (exn_message e) "Contact with this email already exists"
                 then (Fulfilled (Http.mk 400 (Http.ErrorCode (exn_message e)
                                                              "DUPLICATE_EMAIL")), w1)
                 else match run (console_error ("Create contact error: " +:+ exn_message e))
                                w1 with
                      | (Fulfilled _, w') =>
                          (Fulfilled (Http.mk 500 (Http.ErrorCode "Failed to create contact"
                                                                  "INTERNAL_ERROR")), w')
                      | (Rejected e', w') => (Rejected e', w')
                      end)
                = (Fulfilled response, w')
                ∧ (Http.status response = 400 ∨ Http.status response = 500)) as Hany.
      { destruct (String.eqb _ "Invalid email address");
          [eexists _, _; split; [reflexivity|by left]|].
        destruct (String.eqb _ "Contact with this email already exists");
          eexists _, _; (split; [reflexivity|]); [by left|by right]. }
      destruct Hany as (response & w' & Heq & Hst). exists response, w'.
      split.
      { rewrite <- Heq. clear.
        destruct (String.eqb (exn_message e) "Invalid email address"); [done|].
        by destruct (String.eqb (exn_message e) "Contact with this email already exists"). }
      split; [destruct Hst as [-> | ->]; set_solver|].
      split; [done|]. split; [done|]. split.
      * intros ne' id existing [= <-] Hans [Hid Hown] Hemail.
        rewrite (createContact_existing userId input w ne id existing) in Hrun by done.
        injection Hrun as <- <-. cbn in Heq. by injection Heq as <- <-.
      * intros H201. destruct Hst as [H|H]; rewrite H in H201; done.
    + unfold createContact in Hrun. rewrite Hne in Hrun. cbn in Hrun.
      injection Hrun as <- <-. cbn.
      eexists _, _. split; [reflexivity|]. cbn [Http.status].
      split; [set_solver|]. split; [done|]. split; [done|]. split; [done|]. done.
Qed.

(** X25. A contact of another user is answered exactly like a contact that
    does not exist: on a database that answers, GET, PUT and DELETE
    /contacts/:id answer 404 NOT_FOUND and write nothing. PUT with an
    [email] field in its body answers 400 EMAIL_IMMUTABLE before any
    database call, whoever owns the contact. *)
Theorem contact_handlers_isolation userId id w :
  (∀ input,
     updateContactHandler userId id true input w
     = (Fulfilled (Http.mk 400 (Http.ErrorCode
                      "Email cannot be changed. Delete and create a new contact instead."
                      "EMAIL_IMMUTABLE")), w))
  ∧ (answers w → foreign userId id w →
     let notFound := Http.mk 404 (Http.ErrorCode "Contact not found" "NOT_FOUND") in
     getContactHandler userId id w = (Fulfilled notFound, World.next_query w)
     ∧ (∀ input,
          updateContactHandler userId id false input w
          = (Fulfilled notFound, World.next_query w))
     ∧ deleteContactHandler userId id w = (Fulfilled notFound, World.next_query w)
     ∧ World.db (World.next_query w) = World.db w).
Proof.
  split; [done|]. intros Hans Hf. cbv zeta.
  unfold getContactHandler, updateContactHandler, deleteContactHandler, updateContact,
    deleteContact, Async.try_catch, Async.bind.
  rewrite getContactById_foreign by done. done.
Qed.

Lemma createContactHandler_status_witness :
  ∃ w1 w2 r,
    createContactHandler "u1" Examples.john Fixtures.world0
    = (Fulfilled (Http.mk 201 (Http.ContactCreated "Contact created successfully" r)), w1)
    ∧ Contact.email (ContactWithResearchInfo.contact r) = "john@gmail.com"
    ∧ createContactHandler "u1"
        (CreateContactInput.mk " John@GMAIL.com " None None None None None None) w1
      = (Fulfilled (Http.mk 400 (Http.ErrorCode "Contact with this email already exists"
                                                "DUPLICATE_EMAIL")), w2)
    ∧ World.db w2 = World.db w1.
Proof.
  destruct (createContactHandler_status "u1" Examples.john Fixtures.world0)
    as (response & w1 & Hrun & _ & _ & _ & _ & H201).
  assert (Http.status response = 201) as Hst.
  { assert (Fixtures.value (Http.mk 0 (Http.Message ""))
              (createContactHandler "u1" Examples.john Fixtures.world0) = response) as <-
      by (by rewrite Hrun).
    vm_compute. reflexivity. }
  destruct (H201 Hst) as (r & -> & Hown & Hne).
  assert (w1 = (createContactHandler "u1" Examples.john Fixtures.world0).2) as Hw1
    by (by rewrite Hrun).
  destruct (createContactHandler_status "u1"
              (CreateContactInput.mk " John@GMAIL.com " None None None None None None) w1)
    as (response' & w2 & Hrun' & _ & _ & _ & Hdup & _).
  destruct (Hdup "john@gmail.com" (Contact.id (ContactWithResearchInfo.contact r))
              (ContactWithResearchInfo.contact r)) as [-> Hdb].
  - vm_compute. reflexivity.
  - rewrite Hw1. vm_compute. discriminate.
  - exact Hown.
  - vm_compute in Hne. by injection Hne.
  - exists w1, w2, r. split; [exact Hrun|]. split; [|by split].
    vm_compute in Hne. by injection Hne.
Defined.

Lemma contact_handlers_isolation_witness :
  deleteContactHandler "u2" "c1" (DeliverySpec.mailbox EmailStatus.draft "ada@acme.com")
  = (Fulfilled (Http.mk 404 (Http.ErrorCode "Contact not found" "NOT_FOUND")),
     World.next_query (DeliverySpec.mailbox EmailStatus.draft "ada@acme.com")).
Proof.
  apply (contact_handlers_isolation "u2" "c1"
           (DeliverySpec.mailbox EmailStatus.draft "ada@acme.com")).
  - vm_compute. discriminate.
  - intros c. vm_compute. intros [= <-]. discriminate.
Defined.

End HandlerFacts.

Module RouteFacts.
Import JsString EmailService EmailBatch RunFacts DeliverySpec DeliveryFacts Trace MailSpec
       MailFacts DeliverySteps SendFacts EmailBatchSpec EmailBatchFacts EmailRoutes.

(** A send the mail client refuses: the response carries what the client
    reported. *)
Lemma sendSavedEmail_refused_by_client env options e c w x :
  stored options e c w → calm w →
  Email.status e ∈ sendable → Contact.email c ≠ "" →
  SendGrid.isSendGridConfigured env = true →
  head (World.mailer (World.oracle w)) = Some (inl x) →
  ∃ w', run (sendSavedEmail env options) w
        = (Fulfilled (SendEmailResponse.failure
                        (default "Failed to send email" (truthy (Some (reported x))))), w').
Proof.
  intros (He & Hu & Hc) Hcalm Hs Hrcpt Hconf Hx.
  rewrite sendSavedEmail_run. cbv zeta.
  rewrite bool_decide_false by (by apply calm_answers).
  rewrite He, Hu, String.eqb_refl. cbn [negb]. rewrite Hc.
  rewrite (refusal_sendable e c Hs Hrcpt), deliver_run.
  pose proof (calm_next_query _ Hcalm) as Hcalm1.
  rewrite bool_decide_false by (by apply calm_answers).
  rewrite next_query_db, He. cbv zeta.
  set (w2 := updated _ _ e (World.next_query w)).
  assert (calm w2) as Hcalm2 by (by apply calm_updated).
  destruct (sendEmail_live env (recipient e c) w2 Hconf) as (sr & w3 & -> & Hq & _ & Hr).
  change (World.mailer (World.oracle w2)) with (World.mailer (World.oracle w)) in Hr.
  rewrite Hx in Hr. subst sr. cbn [SendEmailResult.success SendEmailResult.error].
  rewrite bool_decide_false by (by apply calm_answers, (calm_quiet w2)).
  destruct Hq as (Hdb & _). rewrite Hdb. unfold w2 at 1, updated at 1.
  cbn [World.db World.with_db World.emails World.set_emails]. rewrite lookup_insert_eq.
  by eexists.
Qed.

Lemma includes_nonempty m text : includes m text = true → text ≠ "" → m ≠ "".
Proof. intros H Ht ->. by destruct text. Qed.

(** X26. POST /api/emails/:emailId/send always answers, with 200, 401, 404,
    409 or 500. Without a user it answers 401 and does nothing. On a
    database that answers: an email that does not exist or belongs to
    another user gives 404; an email of the caller that is [sent] or
    [delivered] gives 409, one that is [opened], [clicked] or [bounced]
    gives 500, and in the three cases nothing is written or sent. The
    status of a failure is chosen by the text of its error alone: a send the
    mail client refuses with a text that contains 'not found' is answered
    404, although the email exists. After a 200 the email is stored as
    [sent]. *)
Theorem send_status env userId emailId w :
  ∃ response w',
    send env userId emailId w = (Fulfilled response, w')
    ∧ Http.status response ∈ [200; 401; 404; 409; 500]
    ∧ (truthy userId = None →
       response = Http.mk 401 (Http.ErrorText (Some "Authentication required")) ∧ w' = w)
    ∧ (∀ u, truthy userId = Some u →
       let options := SendEmailOptions.mk emailId u in
       (answers w →
        (∀ e, World.emails (World.db w) !! emailId = Some e → Email.userId e ≠ u) →
        response = Http.mk 404 (Http.ErrorText (Some "Email not found or access denied"))
        ∧ w' = World.next_query w)
       ∧ (∀ e c, answers w → stored options e c w →
          (Email.status e ∈ [EmailStatus.sent; EmailStatus.delivered] →
           response = Http.mk 409 (Http.ErrorText (Some "Email has already been sent"))
           ∧ w' = World.next_query w)
          ∧ (Email.status e ∈ [EmailStatus.opened; EmailStatus.clicked; EmailStatus.bounced] →
             response
             = Http.mk 500 (Http.ErrorText
                              (Some ("Cannot send email with status: "
                                     +:+ EmailStatus.name (Email.status e))))
             ∧ w' = World.next_query w))
       ∧ (∀ e c x, calm w → stored options e c w →
          Email.status e ∈ sendable → Contact.email c ≠ "" →
          SendGrid.isSendGridConfigured env = true →
          head (World.mailer (World.oracle w)) = Some (inl x) →
          includes (reported x) "not found" = true →
          response = Http.mk 404 (Http.ErrorText (Some (reported x))))
       ∧ (Http.status response = 200 →
          ∃ row c, stored options row c w' ∧ Email.status row = EmailStatus.sent
                   ∧ ∃ message mockMode,
                       Http.body response
                       = Http.EmailSent message (Some (info row)) mockMode)).
Proof.
  unfold send. destruct (truthy userId) as [u|] eqn:Hu.
  2:{ eexists _, _. split; [reflexivity|]. cbn [Http.status]. split; [set_solver|].
      split; [done|]. by intros u [=]. }
  unfold Async.bind, Async.ret.
  destruct (sendSavedEmail_cases env (SendEmailOptions.mk emailId u) w)
    as (r & w' & Hrun & _ & _ & _ & _ & _ & Hr).
  pose proof (sendSavedEmail_run env (SendEmailOptions.mk emailId u) w) as Heq.
  cbv zeta in Heq. cbn [SendEmailOptions.emailId SendEmailOptions.userId] in Heq.
  rewrite Hrun in *.
  exists (if negb (SendEmailResponse.success r)
          then Http.mk (if mentions (SendEmailResponse.error r) "not found"
                           || mentions (SendEmailResponse.error r) "access denied"
                        then 404
                        else if mentions (SendEmailResponse.error r) "already been sent"
                             then 409 else 500)
                       (Http.ErrorText (SendEmailResponse.error r))
          else Http.json
                 (Http.EmailSent
                    (if bool_decide (SendEmailResponse.mockMode r = Some true)
                     then "Email sent successfully (mock mode - SendGrid not configured)"
                     else "Email sent successfully")
                    (SendEmailResponse.email r)
                    (bool_decide (SendEmailResponse.mockMode r = Some true)))), w'.
  split; [by destruct (SendEmailResponse.success r)|].
  split.
  { destruct Hr as [(-> & _ & _)|(-> & _ & _)]; cbn [negb Http.status Http.json];
      [|set_solver].
    destruct (_ || _); [set_solver|]. destruct (mentions _ _); set_solver. }
  split; [done|]. intros ? [= <-]. cbv zeta. split_and!.
  - intros Hans Hforeign. rewrite bool_decide_false in Heq by done.
    destruct (World.emails (World.db w) !! emailId) as [e|] eqn:He.
    + pose proof (Hforeign e eq_refl) as Hne%String.eqb_neq. rewrite Hne in Heq.
      cbn [negb] in Heq. by injection Heq as -> ->.
    + by injection Heq as -> ->.
  - intros e c Hans (He & Hown & Hc). cbn in He, Hown.
    rewrite bool_decide_false in Heq by done.
    rewrite He, Hown, String.eqb_refl, Hc in Heq. cbn [negb] in Heq.
    split; intros Hst; rewrite !elem_of_cons, elem_of_nil in Hst.
    + assert (refusal e c = Some "Email has already been sent") as Href
        by (unfold refusal; destruct Hst as [->|[->|[]]]; done).
      rewrite Href in Heq. by injection Heq as -> ->.
    + assert (refusal e c = Some ("Cannot send email with status: "
                                  +:+ EmailStatus.name (Email.status e))) as Href
        by (unfold refusal; destruct Hst as [->|[->|[->|[]]]]; done).
      rewrite Href in Heq. injection Heq as -> ->. split; [|done].
      destruct Hst as [->|[->|[->|[]]]]; done.
  - intros e c x Hcalm Hst Hs Hrcpt Hconf Hx Hinc.
    destruct (sendSavedEmail_refused_by_client env _ e c w x Hst Hcalm Hs Hrcpt Hconf Hx)
      as (w'' & Hrun').
    assert (truthy (Some (reported x)) = Some (reported x)) as Htruthy.
    { pose proof (includes_nonempty _ _ Hinc) as Hne. destruct (reported x); [|done].
      by destruct Hne. }
    rewrite Htruthy in Hrun'. rewrite Hrun in Hrun'. injection Hrun' as -> _.
    cbn [default SendEmailResponse.failure SendEmailResponse.success
         SendEmailResponse.error negb mentions]. by rewrite Hinc.
  - intros H200. destruct Hr as [(Hs & _ & Herr)|(Hs & _ & row & c & Hst & Hsent & _ & Hinfo)];
      rewrite Hs in *; cbn [negb] in *.
    + exfalso. revert H200. destruct (_ || _); [done|]. by destruct (mentions _ _).
    + exists row, c. split; [done|]. split; [done|]. rewrite Hinfo. by eexists _, _.
Qed.

Lemma send_status_witness :
  let env := Env.mk None None
               (Some "SG.aaaaaaaaaaaaaaaaaaaaaaaaaaaaaaaaaaaaaaaaaaaaaaaaaaaaaaaaaaaaaaaaaaa")
               None None in
  let w := World.with_oracle
             (World.set_mailer [inl (ResponseError "Bad Request"
                                       (Some "The from address was not found"))])
             (mailbox EmailStatus.draft "ada@acme.com") in
  ∃ w', send env (Some "u1") "e1" w
        = (Fulfilled (Http.mk 404 (Http.ErrorText (Some "The from address was not found"))),
           w').
Proof.
  cbv zeta.
  destruct (send_status
              (Env.mk None None
                 (Some "SG.aaaaaaaaaaaaaaaaaaaaaaaaaaaaaaaaaaaaaaaaaaaaaaaaaaaaaaaaaaaaaaaaaaa")
                 None None)
              (Some "u1") "e1"
              (World.with_oracle
                 (World.set_mailer [inl (ResponseError "Bad Request"
                                           (Some "The from address was not found"))])
                 (mailbox EmailStatus.draft "ada@acme.com")))
    as (response & w' & Hrun & _ & _ & H).
  destruct (H "u1" eq_refl) as (_ & _ & Hclient & _).
  rewrite (Hclient (email0 EmailStatus.draft) (contact0 "ada@acme.com")
             (ResponseError "Bad Request" (Some "The from address was not found")))
    in Hrun.
  - by exists w'.
  - constructor.
  - split_and!; reflexivity.
  - vm_compute. apply list_elem_of_here.
  - vm_compute. discriminate.
  - vm_compute. reflexivity.
  - reflexivity.
  - vm_compute. reflexivity.
Defined.

(** X27. POST /api/emails/send-batch always answers, with 200, 400 or 401,
    and anything but a 200 does nothing. It answers 200 exactly for a user
    and a list of one to fifty ids; the response then holds one result per
    id, in the order of the ids, counts that add up to the number of ids,
    and at most one message per id (so at most fifty) has gone to the mail
    client. *)
Theorem sendBatch_limit env userId emailIds w :
  ∃ response w',
    sendBatch env userId emailIds w = (Fulfilled response, w')
    ∧ Http.status response ∈ [200; 400; 401]
    ∧ (Http.status response ≠ 200 → w' = w)
    ∧ (Http.status response = 200
       ↔ ∃ u ids, truthy userId = Some u ∧ emailIds = Some ids
                  ∧ (1 ≤ List.length ids ≤ 50)%nat)
    ∧ (Http.status response = 200 →
       ∃ message success failed results ids ms,
         Http.body response = Http.BatchSent message success failed results
         ∧ emailIds = Some ids
         ∧ BatchItem.emailId <$> results = ids
         ∧ success = succeeded results ∧ failed = failures results
         ∧ success + failed = Z.of_nat (List.length ids)
         ∧ mailsOut w' = mailsOut w ++ ms
         ∧ (List.length ms ≤ List.length ids ≤ 50)%nat).
Proof.
  unfold sendBatch.
  destruct (truthy userId) as [u|] eqn:Hu.
  2:{ eexists _, _. split; [reflexivity|]. cbn [Http.status]. split; [set_solver|].
      split; [done|]. split; [|done]. split; [done|]. by intros (? & ? & ? & _). }
  destruct emailIds as [[|emailId ids]|].
  1,3: eexists _, _; (split; [reflexivity|]); cbn [Http.status]; (split; [set_solver|]);
       (split; [done|]); (split; [|done]); (split; [done|]);
       intros (? & ? & _ & [= <-] & Hlen); cbn in Hlen; lia.
  destruct (Z.ltb_spec 50 (Z.of_nat (List.length (emailId :: ids)))) as [Hlong|Hshort].
  { eexists _, _. split; [reflexivity|]. cbn [Http.status]. split; [set_solver|].
    split; [done|]. split; [|done]. split; [done|].
    intros (? & ? & _ & [= <-] & Hlen). lia. }
  unfold Async.bind, Async.ret, sendBatchEmails.
  destruct (sendEach_run env u (emailId :: ids) [] 0 0 w)
    as (items & w' & -> & Hids & _ & _ & ms & Hms & Hlen).
  eexists _, w'. split; [reflexivity|]. cbn [Http.status Http.json Http.body].
  split; [set_solver|]. split; [done|]. split.
  { split; [|done]. intros _. exists u, (emailId :: ids). split_and!; [done..|cbn; lia|lia]. }
  intros _. eexists _, _, _, _, _, ms. split; [reflexivity|].
  cbn [BatchReport.success BatchReport.failed BatchReport.results app].
  split_and!; [done|done|lia|lia| |done|done|lia].
  rewrite !Z.add_0_l, succeeded_failures. f_equal.
  by rewrite <- Hids, length_fmap.
Qed.

End RouteFacts.

Module AddressFacts.
Import JsString Regex RegexSpec EmailUtils ClassifierSpec RegexFacts NormalFacts
       ClassifierFacts AddressSpec.

Lemma toLowerCase_app s1 s2 :
  toLowerCase (s1 +:+ s2) = toLowerCase s1 +:+ toLowerCase s2.
Proof. induction s1 as [|c s1 IH]; simpl; [done|]. by rewrite IH. Qed.

Lemma lowerChar_idemp c : lowerChar (lowerChar c) = lowerChar c.
Proof. destruct c as [[] [] [] [] [] [] [] []]; reflexivity. Qed.

Lemma toLowerCase_idemp s : toLowerCase (toLowerCase s) = toLowerCase s.
Proof. induction s as [|c s IH]; simpl; [done|]. by rewrite lowerChar_idemp, IH. Qed.

Lemma length_app_string s1 s2 :
  String.length (s1 +:+ s2) = (String.length s1 + String.length s2)%nat.
Proof. induction s1 as [|c s1 IH]; simpl; [done|]. by rewrite IH. Qed.

Lemma length_drop k : ∀ s, String.length (drop k s) = (String.length s - k)%nat.
Proof. induction k as [|k IH]; intros [|c s]; simpl; done. Qed.

Lemma Matches_cat r1 r2 s :
  Matches (Cat r1 r2) s → ∃ s1 s2, s = s1 +:+ s2 ∧ Matches r1 s1 ∧ Matches r2 s2.
Proof. inversion 1; subst. by eexists _, _. Qed.

Lemma Matches_class p s : Matches (Class p) s → ∃ c, s = String c "" ∧ p c = true.
Proof. inversion 1; subst. by eexists. Qed.

Lemma Matches_alt r1 r2 s : Matches (Alt r1 r2) s → Matches r1 s ∨ Matches r2 s.
Proof. inversion 1; subst; [by left|by right]. Qed.

(** *** Lower-casing a match *)

Lemma lowers_eps : lowers Eps Eps.
Proof. intros s H. inversion H; subst. constructor. Qed.

Lemma lowers_class (p q : ascii → bool) :
  (∀ c, p c = true → q (lowerChar c) = true) → lowers (Class p) (Class q).
Proof. intros Hpq s (c & -> & Hc)%Matches_class. constructor. by apply Hpq. Qed.

Lemma lowers_cat r1 r1' r2 r2' :
  lowers r1 r1' → lowers r2 r2' → lowers (Cat r1 r2) (Cat r1' r2').
Proof.
  intros H1 H2 s (s1 & s2 & -> & Hs1 & Hs2)%Matches_cat.
  rewrite toLowerCase_app. constructor; [by apply H1|by apply H2].
Qed.

Lemma lowers_alt r1 r1' r2 r2' :
  lowers r1 r1' → lowers r2 r2' → lowers (Alt r1 r2) (Alt r1' r2').
Proof.
  intros H1 H2 s [Hs|Hs]%Matches_alt; [apply MAltL, H1, Hs|apply MAltR, H2, Hs].
Qed.

Lemma lowers_star r r' : lowers r r' → lowers (Star r) (Star r').
Proof.
  intros H s Hs. remember (Star r) as R eqn:HR.
  induction Hs as [| | | | | |r0 s1 s2 H1 _ H2 IH2]; try discriminate.
  - constructor.
  - injection HR as ->. rewrite toLowerCase_app. constructor; [by apply H|by apply IH2].
Qed.

Lemma lowers_upto n r r' : lowers r r' → lowers (UpTo n r) (UpTo n r').
Proof.
  intros H. induction n as [|n IH]; simpl; [apply lowers_eps|].
  apply lowers_alt; [apply lowers_eps|]. by apply lowers_cat.
Qed.

Lemma upto_star n r : ∀ s, Matches (UpTo n r) s → Matches (Star r) s.
Proof.
  induction n as [|n IH]; simpl; intros s Hs.
  - inversion Hs; subst. constructor.
  - apply Matches_alt in Hs as [Hs|(s1 & s2 & -> & Hs1 & Hs2)%Matches_cat].
    + inversion Hs; subst. constructor.
    + constructor; [done|by apply IH].
Qed.

Lemma alnum_lower c : alnum c = true → lowerAlnum (lowerChar c) = true.
Proof. destruct c as [[] [] [] [] [] [] [] []]; vm_compute; congruence. Qed.

Lemma alnumDash_lower c : alnumDash c = true → lowerAlnumDash (lowerChar c) = true.
Proof. destruct c as [[] [] [] [] [] [] [] []]; vm_compute; congruence. Qed.

Lemma isDot_lower c : isDot c = true → isDot (lowerChar c) = true.
Proof. destruct c as [[] [] [] [] [] [] [] []]; vm_compute; congruence. Qed.

Lemma alnum_keep c : alnum c = true → alnum (lowerChar c) = true.
Proof. destruct c as [[] [] [] [] [] [] [] []]; vm_compute; congruence. Qed.

Lemma alnumDash_keep c : alnumDash c = true → alnumDash (lowerChar c) = true.
Proof. destruct c as [[] [] [] [] [] [] [] []]; vm_compute; congruence. Qed.

Lemma localChar_keep c : localChar c = true → localChar (lowerChar c) = true.
Proof. destruct c as [[] [] [] [] [] [] [] []]; vm_compute; congruence. Qed.

Lemma at_keep c : Ascii.eqb c "@" = true → Ascii.eqb (lowerChar c) "@" = true.
Proof. by rewrite lowerChar_at. Qed.

(** A lower-cased host of a valid address is a domain [extractDomain]
    accepts. *)
Lemma hostPart_domainRegex : lowers hostPart domainRegex.
Proof.
  assert (lowers hostLabel lowerLabel) as Hlabel.
  { apply lowers_cat; [apply lowers_class, alnum_lower|].
    apply lowers_alt; [apply lowers_eps|].
    apply lowers_cat; [|apply lowers_class, alnum_lower].
    intros s Hs%upto_star. revert s Hs. apply lowers_star, lowers_class, alnumDash_lower. }
  apply lowers_cat; [done|].
  assert (lowers (Cat (Class isDot) hostLabel) (Cat (Class isDot) lowerLabel)) as Hdot
    by (apply lowers_cat; [apply lowers_class, isDot_lower|done]).
  apply lowers_cat; [done|]. by apply lowers_star.
Qed.

(** The lower-cased form of a valid address is a valid address. *)
Lemma emailRegex_lowers : lowers emailRegex emailRegex.
Proof.
  assert (lowers hostLabel hostLabel) as Hlabel.
  { apply lowers_cat; [apply lowers_class, alnum_keep|].
    apply lowers_alt; [apply lowers_eps|].
    apply lowers_cat; [|apply lowers_class, alnum_keep].
    apply lowers_upto, lowers_class, alnumDash_keep. }
  assert (lowers (Cat (Class isDot) hostLabel) (Cat (Class isDot) hostLabel)) as Hdot
    by (apply lowers_cat; [apply lowers_class, isDot_lower|done]).
  apply lowers_cat.
  { apply lowers_cat; [|apply lowers_star]; apply lowers_class, localChar_keep. }
  apply lowers_cat; [apply lowers_class, at_keep|].
  apply lowers_cat; [done|]. apply lowers_cat; [done|]. by apply lowers_star.
Qed.

(** *** The alphabet of a valid address *)

Lemma classesWithin_upto ok n r : classesWithin ok r → classesWithin ok (UpTo n r).
Proof. intros H. induction n as [|n IH]; simpl; [done|]. by split_and!. Qed.

Lemma hostLabel_alphabet ok :
  (∀ c, alnumDash c = true → ok c = true) → classesWithin ok hostLabel.
Proof.
  intros Hok.
  assert (∀ c, alnum c = true → ok c = true) as Hok'
    by (intros c Hc; apply Hok; unfold alnumDash; by rewrite Hc).
  unfold hostLabel, Opt. cbn [classesWithin]. split_and!; [done..|by apply classesWithin_upto|done].
Qed.

Lemma hostPart_alphabet ok :
  (∀ c, alnumDash c = true → ok c = true) → (∀ c, isDot c = true → ok c = true) →
  classesWithin ok hostPart.
Proof.
  intros Hok Hdot. pose proof (hostLabel_alphabet ok Hok) as Hlabel.
  change (classesWithin ok hostLabel
          ∧ (classesWithin ok (Class isDot) ∧ classesWithin ok hostLabel)
          ∧ (classesWithin ok (Class isDot) ∧ classesWithin ok hostLabel)).
  split_and!; first [exact Hlabel|exact Hdot].
Qed.

Lemma alnumDash_plain c : alnumDash c = true → plainChar c = true.
Proof. destruct c as [[] [] [] [] [] [] [] []]; vm_compute; congruence. Qed.

Lemma isDot_plain c : isDot c = true → plainChar c = true.
Proof. destruct c as [[] [] [] [] [] [] [] []]; vm_compute; congruence. Qed.

Lemma localChar_no_space c : localChar c = true → negb (isWhiteSpace c) = true.
Proof. destruct c as [[] [] [] [] [] [] [] []]; vm_compute; congruence. Qed.

Lemma at_no_space c : Ascii.eqb c "@" = true → negb (isWhiteSpace c) = true.
Proof. destruct c as [[] [] [] [] [] [] [] []]; vm_compute; congruence. Qed.

Lemma plainChar_no_space c : plainChar c = true → negb (isWhiteSpace c) = true.
Proof. unfold plainChar. by intros [? _]%andb_true_iff. Qed.

Lemma emailRegex_no_space s :
  Matches emailRegex s → allChars (fun c => negb (isWhiteSpace c)) s = true.
Proof.
  intros H. apply (Matches_alphabet _ emailRegex); [done|].
  pose proof (hostPart_alphabet (fun c => negb (isWhiteSpace c))
                (fun c Hc => plainChar_no_space c (alnumDash_plain c Hc))
                (fun c Hc => plainChar_no_space c (isDot_plain c Hc))) as Hhost.
  change (classesWithin (fun c => negb (isWhiteSpace c)) (Plus (Class localChar))
          ∧ classesWithin (fun c => negb (isWhiteSpace c)) (Class (fun c => Ascii.eqb c "@"))
          ∧ classesWithin (fun c => negb (isWhiteSpace c)) hostPart).
  split_and!; [|exact at_no_space|exact Hhost].
  split; exact localChar_no_space.
Qed.

(** *** The last [@] of a valid address *)

Lemma afterLast_none s :
  allChars (fun c => negb (Ascii.eqb c "@")) s = true → afterLast "@" s = None.
Proof.
  induction s as [|c s IH]; simpl; [done|].
  intros [Hc Hs]%andb_true_iff. rewrite (IH Hs). by destruct (Ascii.eqb c "@").
Qed.

Lemma afterLast_app l h :
  allChars (fun c => negb (Ascii.eqb c "@")) h = true →
  afterLast "@" (l +:+ String "@" h) = Some h.
Proof.
  intros Hh. induction l as [|c l IH]; simpl.
  - by rewrite (afterLast_none h Hh).
  - by rewrite IH.
Qed.

Lemma includes_dot a b : includes (a +:+ String "." b) "." = true.
Proof.
  induction a as [|c a IH].
  - simpl. by destruct b.
  - change (String c a +:+ String "." b) with (String c (a +:+ String "." b)).
    cbn [includes]. rewrite IH. apply orb_true_r.
Qed.

Lemma domainRegex_dot d : Matches domainRegex d → includes d "." = true.
Proof.
  intros (s1 & s2 & -> & _ & Hs2)%Matches_cat.
  apply Matches_cat in Hs2 as (s3 & s4 & -> & Hs3 & _).
  apply Matches_cat in Hs3 as (s5 & s6 & -> & Hs5 & _).
  apply Matches_class in Hs5 as (c & -> & Hc).
  apply Ascii.eqb_eq in Hc as ->.
  change ((String "." "" +:+ s6) +:+ s4) with (String "." (s6 +:+ s4)).
  apply includes_dot.
Qed.

Lemma hostPart_nonempty h : Matches hostPart h → h ≠ "".
Proof.
  intros (s1 & s2 & -> & Hs1 & _)%Matches_cat.
  apply Matches_cat in Hs1 as (s3 & s4 & -> & Hs3 & _).
  by apply Matches_class in Hs3 as (c & -> & _).
Qed.

(** The parts of a string [emailRegex] accepts. *)
Lemma emailRegex_parts s :
  Matches emailRegex s →
  ∃ l h, s = l +:+ String "@" h ∧ l ≠ "" ∧ Matches hostPart h.
Proof.
  intros (l & s2 & -> & Hl & Hs2)%Matches_cat.
  apply Matches_cat in Hs2 as (a & h & -> & Ha & Hh).
  apply Matches_class in Ha as (c & -> & Hc). apply Ascii.eqb_eq in Hc as ->.
  exists l, h. split; [done|]. split; [|done].
  apply Matches_cat in Hl as (l1 & l2 & -> & Hl1 & _).
  by apply Matches_class in Hl1 as (c & -> & _).
Qed.

Lemma isValidEmail_Matches e :
  isValidEmail e = true ↔ e ≠ "" ∧ Matches emailRegex (trim e).
Proof.
  unfold isValidEmail. destruct (String.eqb_spec e "") as [->|Hne].
  - split; [done|]. by intros [? _].
  - rewrite test_Matches. split; [done|]. by intros [_ ?].
Qed.

(** What [isValidEmail] accepts, lower-cased: a local part, the [@], and a
    domain that [domainRegex] accepts. *)
Lemma valid_address e :
  isValidEmail e = true →
  ∃ l d, toLowerCase (trim e) = l +:+ String "@" d ∧ l ≠ ""
         ∧ Matches domainRegex d
         ∧ Matches emailRegex (toLowerCase (trim e))
         ∧ trim (toLowerCase (trim e)) = toLowerCase (trim e).
Proof.
  intros [_ Hm]%isValidEmail_Matches.
  pose proof (emailRegex_lowers _ Hm) as Hlow.
  destruct (emailRegex_parts _ Hm) as (l & h & Heq & Hl & Hh).
  exists (toLowerCase l), (toLowerCase h). rewrite Heq, toLowerCase_app.
  split; [done|]. split; [by destruct l|]. split; [by apply hostPart_domainRegex|].
  rewrite Heq, toLowerCase_app in Hlow. split; [done|].
  by apply trim_no_space, emailRegex_no_space.
Qed.

Lemma domainChar_no_at c : domainChar c = true → negb (Ascii.eqb c "@") = true.
Proof. destruct c as [[] [] [] [] [] [] [] []]; vm_compute; congruence. Qed.

(** [extractDomain] on an address whose lower-cased, trimmed form is a
    non-empty local part, [@] and a domain. *)
Lemma extractDomain_parts e l d :
  toLowerCase (trim e) = l +:+ String "@" d → l ≠ "" → Matches domainRegex d →
  extractDomain e = Some d.
Proof.
  intros Ht Hl Hd. rewrite extractDomain_unfold. cbv zeta. rewrite Ht.
  assert (allChars (fun c => negb (Ascii.eqb c "@")) d = true) as Hplain.
  { apply (allChars_impl domainChar); [apply domainChar_no_at|].
    apply (Matches_alphabet _ domainRegex); [done|apply domainRegex_alphabet]. }
  pose proof (lastIndexOf_from_afterLast "@" (l +:+ String "@" d) 0 (-1)) as Hlast.
  rewrite (afterLast_app l d Hplain) in Hlast.
  destruct Hlast as (n & Hn & Hdrop & Hlen).
  fold (lastIndexOf (l +:+ String "@" d) "@") in Hn. rewrite Hn.
  pose proof (length_drop (S n) (l +:+ String "@" d)) as Hlen'.
  rewrite Hdrop, length_app_string in Hlen'. cbn [String.length] in Hlen'.
  rewrite length_app_string in Hlen. cbn [String.length] in Hlen.
  assert (String.length l ≠ 0%nat) as Hl' by (by destruct l).
  assert (String.length d ≠ 0%nat) as Hd'.
  { destruct d; [|done]. apply domainRegex_dot in Hd. done. }
  unfold JsString.length. rewrite length_app_string. cbn [String.length].
  replace (0 + Z.of_nat n =? -1) with false by (symmetry; apply Z.eqb_neq; lia).
  replace (0 + Z.of_nat n =? 0) with false by (symmetry; apply Z.eqb_neq; lia).
  replace (0 + Z.of_nat n =? Z.of_nat (String.length l + S (String.length d)) - 1)
    with false by (symmetry; apply Z.eqb_neq; lia).
  cbn [orb]. unfold substring.
  replace (Z.to_nat (0 + Z.of_nat n + 1)) with (S n) by lia.
  rewrite Hdrop, (domainRegex_dot d Hd), (test_complete _ _ Hd). done.
Qed.

(** X28. Every address [isValidEmail] accepts has a domain for
    [extractDomain]: [normalizeEmail] gives a non-empty local part, an [@]
    and a domain, and [extractDomain] gives that domain, for the address as
    typed and for its normalized form. So the validation of [createContact]
    never lets through an address whose domain cannot be read. *)
Theorem valid_email_has_domain e :
  isValidEmail e = true →
  ∃ l d, normalizeEmail e = Some (l +:+ String "@" d) ∧ l ≠ ""
         ∧ extractDomain e = Some d
         ∧ extractDomain (l +:+ String "@" d) = Some d
         ∧ includes d "." = true.
Proof.
  intros Hv. destruct (valid_address e Hv) as (l & d & Ht & Hl & Hd & _ & Htrim).
  exists l, d. unfold normalizeEmail. rewrite Hv. cbn [negb]. rewrite Ht.
  split; [done|]. split; [done|]. split; [by apply (extractDomain_parts e l d)|].
  split; [|by apply domainRegex_dot].
  apply (extractDomain_parts _ l d); [|done..].
  by rewrite <- Ht, Htrim, toLowerCase_idemp.
Qed.

Lemma valid_email_has_domain_witness :
  normalizeEmail "  Ada.Lovelace@Mail.Acme-Corp.IO " = Some "ada.lovelace@mail.acme-corp.io"
  ∧ extractDomain "  Ada.Lovelace@Mail.Acme-Corp.IO " = Some "mail.acme-corp.io".
Proof.
  destruct (valid_email_has_domain "  Ada.Lovelace@Mail.Acme-Corp.IO ")
    as (l & d & Hn & _ & Hd & _).
  - vm_compute. reflexivity.
  - split; vm_compute; reflexivity.
Defined.

(** X29. [normalizeEmail] is idempotent, and what it returns is an address
    of the same kind: the normalized form of an accepted address is valid,
    is its own normalized form, and has the domain and the business or
    personal classification of the address as typed. *)
Theorem normalizeEmail_idempotent e n :
  normalizeEmail e = Some n →
  isValidEmail n = true
  ∧ normalizeEmail n = Some n
  ∧ extractDomain n = extractDomain e
  ∧ isBusinessEmail n = isBusinessEmail e.
Proof.
  unfold normalizeEmail at 1. destruct (isValidEmail e) eqn:Hv; [|done].
  intros [= <-]. destruct (valid_address e Hv) as (l & d & Ht & Hl & _ & Hm & Htrim).
  assert (isValidEmail (toLowerCase (trim e)) = true) as Hv'.
  { apply isValidEmail_Matches. split; [|by rewrite Htrim].
    rewrite Ht. by destruct l. }
  assert (extractDomain (toLowerCase (trim e)) = extractDomain e) as Hd.
  { rewrite !extractDomain_unfold. by rewrite Htrim, toLowerCase_idemp. }
  split; [done|]. split; [|split; [done|]].
  - unfold normalizeEmail. by rewrite Hv', Htrim, toLowerCase_idemp.
  - by rewrite !isBusinessEmail_unfold, Hd.
Qed.

Lemma normalizeEmail_idempotent_witness :
  normalizeEmail "ceo@stripe.com" = Some "ceo@stripe.com"
  ∧ isBusinessEmail "ceo@stripe.com" = isBusinessEmail " CEO@Stripe.com".
Proof.
  destruct (normalizeEmail_idempotent " CEO@Stripe.com" "ceo@stripe.com")
    as (_ & Hn & _ & Hb).
  - vm_compute. reflexivity.
  - by split.
Defined.

End AddressFacts.
